(** * Form builder: schema compiler, navigation expressions and the
      preview-mode evaluator of [src/index.tsx]

    A shallow embedding of the semantic core of the [FormBuilder] component:
    [processTemplateValue], [generateFormData], [generateAllSchemas],
    [convertToExpression], [exportCompleteFlow], [isFieldVisible],
    [validateCurrentStep] and [executeNavigation]; and of the handlers around
    it: [renderFieldValue], [generateSchemas], [getNextStepLogic], the editor's
    [addField], [moveField], [updateField], [insertTemplate], [deleteField],
    [parseFieldOptions], [addStep], [deleteStep], [updateStepProperty], and the
    preview's [updatePreviewData], checkbox handler and [handleFileUpload].

    Conventions of the embedding.
    - A JavaScript string is a [string] of bytes (UTF-8).  Every character the
      code inspects (['#'], ['.'], the quote) is ASCII.
    - A JavaScript object used as a record of named values is the
      [gmap string value] of its own properties.  Reading a key and the test
      [key in object] also find what the object inherits, the members of
      [Object.prototype].  The assignment [object[key] = v] stores an own
      property, except for the key [__proto__], which the setter of
      [Object.prototype] takes; a spread or a computed key of an object
      literal stores an own property under every key.
    - The template context has the shape that the interface
      [TemplateContext] declares: sections of strings.
    - A JavaScript number is an integer [Z] (no fractions, no NaN), printed
      as the double nearest to it.
    - The component's hooks ([useState]) are the fields of the record
      [State]; a handler is a function from [State] to [State].  The timers
      that clear the status line after a few seconds are not modelled.
    - What a handler asks of the browser is an argument of its model: the
      answer to a [confirm] dialog, the value of [Date.now()], the function
      [URL.createObjectURL].
    - The saved flows and the clipboard are not modelled: [saveCurrentFlow]
      keeps the step objects by reference and the editing handlers change
      them in place, a sharing that this model of values does not express. *)

From Stdlib Require Import ZArith String Ascii List Bool Lia.
From stdpp Require Import base option list gmap strings pretty.

Set Warnings "-register-all".
Open Scope string_scope.

(* ===================================================================== *)
(** ** JavaScript values *)
(* ===================================================================== *)

(** The objects of the engine that a lookup can come across:
    [Object.prototype], and the built-in functions, told apart by their
    names. *)
Inductive native : Type :=
| ObjectPrototype
| NativeFunction (name : string).

Inductive value : Type :=
| VUndefined
| VNull
| VBool (b : bool)
| VNum (n : Z)
| VStr (s : string)
| VArr (elems : list value)
| VObj (props : gmap string value)
| VNative (n : native).

(** *** What every object inherits *)

(** The functions of [Object.prototype], besides [constructor]. *)
Definition objectMethods : list string :=
  ["__defineGetter__"; "__defineSetter__"; "__lookupGetter__"; "__lookupSetter__";
   "hasOwnProperty"; "isPrototypeOf"; "propertyIsEnumerable"; "toLocaleString";
   "toString"; "valueOf"].

(** The function that [Object.prototype] holds under [key]. *)
Definition objectPrototypeFunction (key : string) : option native :=
  if key =? "constructor" then Some (NativeFunction "Object")
  else if existsb (String.eqb key) objectMethods then Some (NativeFunction key)
  else None.

(** The member [key] that a plain object (an object literal, the result of a
    spread) inherits: its [__proto__] is [Object.prototype]. *)
Definition inherited (key : string) : option native :=
  if key =? "__proto__" then Some ObjectPrototype else objectPrototypeFunction key.

(** [obj[key]] on a plain object: the own property; else the inherited
    member of that name; else [undefined]. *)
Definition get (obj : gmap string value) (key : string) : value :=
  match obj !! key with
  | Some v => v
  | None =>
      match inherited key with
      | Some member => VNative member
      | None => VUndefined
      end
  end.

(** [object[key] = v] where [v] is a new object literal without a key
    [__proto__], on an object that inherits from [Object.prototype].  An
    assignment to [__proto__] reaches the setter of [Object.prototype],
    unless the object has a property of that name of its own.  The setter
    stores no property: it makes [v] the prototype of the object, which
    then inherits from [Object.prototype] through [v], so that the next
    assignment to [__proto__] reaches the setter again. *)
Definition assign {A : Type} (key : string) (v : A) (object : gmap string A)
  : gmap string A :=
  if key =? "__proto__"
  then match object !! key with
       | Some _ => <[key := v]> object
       | None => object
       end
  else <[key := v]> object.

(** Truthiness ([!!v]). *)
Definition truthy (v : value) : bool :=
  match v with
  | VUndefined | VNull => false
  | VBool b => b
  | VNum n => negb (n =? 0)%Z
  | VStr s => negb (s =? "")
  | VArr _ | VObj _ | VNative _ => true
  end.

(** [v === s] for a string [s]: strict equality never converts. *)
Definition strict_eq_str (v : value) (s : string) : bool :=
  match v with
  | VStr t => t =? s
  | _ => false
  end.

(** [Array.isArray(v) ? v : []]. *)
Definition array_or_empty (v : value) : list value :=
  match v with
  | VArr l => l
  | _ => []
  end.

(** [l.includes(s)] for a string [s] (SameValueZero on each element). *)
Definition includes (l : list value) (s : string) : bool :=
  existsb (fun v => strict_eq_str v s) l.

(** [v === undefined || v === null || v === ""]. *)
Definition is_unset (v : value) : bool :=
  match v with
  | VUndefined | VNull => true
  | VStr s => s =? ""
  | _ => false
  end.

(** [Array.isArray(v) && v.length === 0]. *)
Definition is_empty_array (v : value) : bool :=
  match v with
  | VArr [] => true
  | _ => false
  end.

(** [!s] for an optional string: absent or empty. *)
Definition str_falsy (o : option string) : bool :=
  match o with
  | None => true
  | Some s => s =? ""
  end.

(** [o || d] for an optional string. *)
Definition str_or (o : option string) (d : string) : string :=
  match o with
  | None => d
  | Some s => if s =? "" then d else s
  end.

(** *** Numbers as text

    [String(n)] prints the shortest decimal that denotes the number, and
    switches to the exponent form from 21 digits on.  Up to 2^53 every
    integer is a number and prints as itself. *)

(** The double nearest to a positive integer [m] (ties go to the even
    significand); [None] when that is [Infinity]. *)
Definition roundDouble (m : Z) : option Z :=
  let shift := (Z.log2 m - 52)%Z in
  if (shift <=? 0)%Z then Some m
  else
    let unit := (2 ^ shift)%Z in
    let q := (m / unit)%Z in
    let r := (m mod unit)%Z in
    let q' :=
      if (2 * r <? unit)%Z then q
      else if (unit <? 2 * r)%Z then (q + 1)%Z
      else if Z.even q then q else (q + 1)%Z in
    if (q' * unit <? 2 ^ 1024)%Z then Some (q' * unit)%Z else None.

(** The number of decimal digits of a positive integer. *)
Definition digits (m : Z) : nat := String.length (pretty m).

(** The two integers of at most [k] significant digits next to [x]. *)
Definition shorter (k : nat) (x : Z) : Z * Z :=
  let p := (10 ^ Z.of_nat (digits x - k))%Z in
  ((x / p) * p, (x / p + 1) * p)%Z.

(** The decimal of the fewest significant digits that denotes the double
    [x], and of these the nearest to [x]: try 1, 2, ... digits. *)
Fixpoint shortest_from (fuel k : nat) (x : Z) : Z :=
  match fuel with
  | 0 => x
  | S fuel' =>
      let '(below, above) := shorter k x in
      let p := (10 ^ Z.of_nat (digits x - k))%Z in
      let denotes c := bool_decide (roundDouble c = Some x) in
      if denotes below && denotes above
      then (if (x - below <? above - x)%Z then below
            else if (above - x <? x - below)%Z then above
            else if Z.even (below / p) then below else above)
      else if denotes below then below
      else if denotes above then above
      else shortest_from fuel' (S k) x
  end.

Definition shortest (x : Z) : Z := shortest_from 17 1 x.

(** [s] without the zeros at its end. *)
Fixpoint strip_zeros (s : string) : string :=
  match s with
  | EmptyString => EmptyString
  | String c rest =>
      match strip_zeros rest with
      | EmptyString => if Ascii.eqb c "0" then EmptyString else String c EmptyString
      | rest' => String c rest'
      end
  end.

(** The exponent form [d.ddde+n] of a positive integer. *)
Definition exponential (c : Z) : string :=
  match strip_zeros (pretty c) with
  | EmptyString => "0"
  | String d EmptyString => String d ("e+" ++ pretty (digits c - 1))
  | String d more => String d ("." ++ more ++ "e+" ++ pretty (digits c - 1))
  end.

Definition positiveText (m : Z) : string :=
  match roundDouble m with
  | None => "Infinity"
  | Some x =>
      let c := shortest x in
      if (digits c <=? 21)%nat then pretty c else exponential c
  end.

(** [String(n)], for the number that the integer [n] denotes. *)
Definition numberText (n : Z) : string :=
  if (n =? 0)%Z then "0"
  else if (n <? 0)%Z then "-" ++ positiveText (- n)
  else positiveText n.

(* ===================================================================== *)
(** ** The data model (interfaces [FormField], [NavigationRule], [Step]) *)
(* ===================================================================== *)

Inductive FieldType : Type :=
| Title | Text | Textarea | Select | Radio | Checkbox | File | Readonly.

Definition FieldType_eqb (a b : FieldType) : bool :=
  match a, b with
  | Title, Title | Text, Text | Textarea, Textarea | Select, Select
  | Radio, Radio | Checkbox, Checkbox | File, File | Readonly, Readonly => true
  | _, _ => false
  end.

Definition type_name (t : FieldType) : string :=
  match t with
  | Title => "title" | Text => "text" | Textarea => "textarea"
  | Select => "select" | Radio => "radio" | Checkbox => "checkbox"
  | File => "file" | Readonly => "readonly"
  end.

Module FormField.
Record t : Type := mk {
    id : string;
    type : FieldType;
    title : string;
    required : bool;
    placeholder : option string;
    options : option (list string);
    defaultValue : option value;
    readOnly : option bool;
    widget : option string;
    dependsOn : option string;
    showWhen : option string;
    acceptedFileTypes : option (list string);
    maxFileSize : option Z;
    multiple : option bool;
    captureMode : option string
}.
End FormField.
Abbreviation FormField := FormField.t.

Module Condition.
Record t : Type := mk { value : string; nextStepName : string }.
End Condition.

Module NavigationRule.
Record t : Type := mk {
    fieldId : string;
    conditions : list Condition.t;
    defaultStepName : option string
}.
End NavigationRule.
Abbreviation NavigationRule := NavigationRule.t.

Module Step.
Record t : Type := mk {
    id : string;
    name : string;
    description : string;
    fields : list FormField;
    actionName : string;
    navigationRule : option NavigationRule;
    summaryCheckExpression : string
}.
End Step.
Abbreviation Step := Step.t.

(** The component state the modelled functions read or write. *)
Record State : Type := mkState {
  steps : list Step;
  isNewFlow : bool;
  currentStepIndex : nat;
  currentFlowName : string;
  previewMode : bool;
  previewData : gmap string value;
  saveStatus : string
}.

(** [parsedSteps] (lines 129-161): a new flow with no step shows one default
    page. *)
Definition defaultStep : Step :=
  Step.mk "step1" "Page 1" "First page description" [] "submitPage1" None "true".

Definition parsedSteps (st : State) : list Step :=
  match steps st with
  | [] => if isNewFlow st then [defaultStep] else []
  | _ => steps st
  end.

(** [const currentStep = parsedSteps[currentStepIndex] || null] (line 171). *)
Definition currentStep (st : State) : option Step :=
  parsedSteps st !! currentStepIndex st.

(** [currentStep?.fields.find((f) => f.id === key)]. *)
Definition find_field (cur : option Step) (key : string) : option FormField :=
  match cur with
  | None => None
  | Some s => find (fun f => FormField.id f =? key) (Step.fields s)
  end.

(** [{...field, dependsOn, showWhen}]: [field] with its dependency replaced. *)
Definition dependent (field : FormField) (dependsOn showWhen : option string)
  : FormField :=
  FormField.mk (FormField.id field) (FormField.type field) (FormField.title field)
    (FormField.required field) (FormField.placeholder field)
    (FormField.options field) (FormField.defaultValue field)
    (FormField.readOnly field) (FormField.widget field) dependsOn showWhen
    (FormField.acceptedFileTypes field) (FormField.maxFileSize field)
    (FormField.multiple field) (FormField.captureMode field).

(* ===================================================================== *)
(** ** Field visibility (lines 1171-1201) *)
(* ===================================================================== *)

Definition isFieldVisible (st : State) (field : FormField) : bool :=
  if str_falsy (FormField.dependsOn field) || str_falsy (FormField.showWhen field)
  then true
  else
    let dependsOn := default "" (FormField.dependsOn field) in
    let showWhen := default "" (FormField.showWhen field) in
    let dependentValue := get (previewData st) dependsOn in
    match find_field (currentStep st) dependsOn with
    | None => false
    | Some parentField =>
        if is_unset dependentValue then false
        else
          match FormField.type parentField with
          | Radio | Select => strict_eq_str dependentValue showWhen
          | Checkbox => includes (array_or_empty dependentValue) showWhen
          | _ => strict_eq_str dependentValue showWhen
          end
    end.

(* ===================================================================== *)
(** ** Template resolution (lines 59-76 and 380-424) *)
(* ===================================================================== *)

(** [s.split(c)] for a one-character separator. *)
Fixpoint split_on (sep : ascii) (s : string) : list string :=
  match s with
  | EmptyString => [""]
  | String c rest =>
      if Ascii.eqb c sep then "" :: split_on sep rest
      else
        match split_on sep rest with
        | [] => [String c ""]
        | word :: words => String c word :: words
        end
  end.

(** The interface [TemplateContext] (lines 59-76): named sections of named
    strings.  Every property is optional: it is absent, or it is present
    and holds [undefined] ([None]) or its value. *)
Definition TemplateSection : Type := gmap string (option string).
Definition TemplateContext : Type := gmap string (option TemplateSection).

(** What [result] holds during the walk: the context, one of its sections, a
    string of a section, [undefined]; or what these inherit, a member of
    [Object.prototype], and from there [null]. *)
Inductive walked : Type :=
| AtContext (context : TemplateContext)
| AtSection (section : TemplateSection)
| AtString (s : string)
| AtUndefined
| AtNull
| AtNative (n : native).

Definition sectionValue (section : TemplateSection) : value :=
  VObj ((fun property => match property with
                         | Some s => VStr s
                         | None => VUndefined
                         end) <$> section).

Definition contextValue (context : TemplateContext) : value :=
  VObj ((fun property => match property with
                         | Some section => sectionValue section
                         | None => VUndefined
                         end) <$> context).

(** [result] as a value. *)
Definition walkedValue (result : walked) : value :=
  match result with
  | AtContext context => contextValue context
  | AtSection section => sectionValue section
  | AtString s => VStr s
  | AtUndefined => VUndefined
  | AtNull => VNull
  | AtNative n => VNative n
  end.

(** [key in object] and then [object[key]], when no own property has the
    name. *)
Definition inheritedMember (key : string) : option walked :=
  AtNative <$> inherited key.

(** [result && typeof result === "object" && key in result], and then
    [result[key]]: [Some] of the property when the test passes.  The test
    finds the own properties of an object and the members it inherits.
    [Object.prototype] is an object too; its [__proto__] is [null].  A
    string, a function, [undefined] and [null] fail the test. *)
Definition property (result : walked) (key : string) : option walked :=
  match result with
  | AtContext context =>
      match context !! key with
      | Some (Some section) => Some (AtSection section)
      | Some None => Some AtUndefined
      | None => inheritedMember key
      end
  | AtSection section =>
      match section !! key with
      | Some (Some s) => Some (AtString s)
      | Some None => Some AtUndefined
      | None => inheritedMember key
      end
  | AtNative ObjectPrototype =>
      if key =? "__proto__" then Some AtNull
      else AtNative <$> objectPrototypeFunction key
  | AtNative (NativeFunction _) | AtString _ | AtUndefined | AtNull => None
  end.

(** The [for (const key of keys)] loop with its early [return value], followed
    by [return result || value]. *)
Fixpoint walk_keys (template : value) (keys : list string) (result : walked) : value :=
  match keys with
  | [] => if truthy (walkedValue result) then walkedValue result else template
  | key :: rest =>
      match property result key with
      | Some next => walk_keys template rest next
      | None => template
      end
  end.

(** No operation in the [try] block throws in this model, so the [catch]
    branch (which also returns [value]) is never taken. *)
Definition processTemplateValue (v : value) (context : TemplateContext) : value :=
  match v with
  | VStr (String c path) =>
      if Ascii.eqb c "#"%char
      then walk_keys v (split_on "."%char path) (AtContext context)
      else v
  | _ => v
  end.

(** An object literal, by its properties. *)
Definition obj (l : list (string * value)) : value := VObj (list_to_map l).

(** A section with every listed property set. *)
Definition sectionOf (l : list (string * string)) : option TemplateSection :=
  Some (list_to_map (prod_map id Some <$> l)).

(** [buildTemplateContext] (lines 405-424). *)
Definition buildTemplateContext : TemplateContext :=
  list_to_map
    [("workorder", sectionOf [("scopeOfWork", "Sample work order description");
                            ("clientDescription", "Sample client description");
                            ("priority", "High");
                            ("location", "Sample location")]);
     ("client", sectionOf [("name", "John Doe");
                         ("email", "john.doe@example.com");
                         ("phone", "(555) 123-4567")]);
     ("technician", sectionOf [("name", "Jane Smith");
                             ("id", "TECH001");
                             ("trade", "Electrician")])].

(* ===================================================================== *)
(** ** Default answers (lines 427-456) *)
(* ===================================================================== *)

(** The [switch (field.type)] of the [else] branch. *)
Definition emptyValue (field : FormField) : value :=
  match FormField.type field with
  | Checkbox => VArr []
  | File => if default false (FormField.multiple field) then VArr [] else VNull
  | _ => VStr ""
  end.

(** The object [formData] while it is filled: its own properties, and
    whether an assignment to [__proto__] still reaches the setter of
    [Object.prototype]. *)
Module FormData.
Record t : Type := mk { own : gmap string value; setter : bool }.
End FormData.

(** Whether the setter is still in reach once [prototype] has become the
    prototype of the object: not after [null], which cuts the object off
    from [Object.prototype]; and not after an object with a property
    [__proto__] of its own (as [JSON.parse] creates one), which an
    assignment finds first. *)
Definition reachesSetter (prototype : value) : bool :=
  match prototype with
  | VNull => false
  | VObj props => bool_decide (props !! "__proto__" = None)
  | _ => true
  end.

(** [formData[key] = v].  Any key but [__proto__] gets a property of the
    object's own.  For [__proto__]: a property of that name that the object
    has is overwritten; else, with the setter in reach, nothing is stored,
    and [v] becomes the prototype if it is an object or [null]; else the
    assignment creates the property like any other. *)
Definition assignAnswer (key : string) (v : value) (formData : FormData.t)
  : FormData.t :=
  if key =? "__proto__"
  then
    match FormData.own formData !! key with
    | Some _ => FormData.mk (<[key := v]> (FormData.own formData)) (FormData.setter formData)
    | None =>
        if FormData.setter formData
        then
          match v with
          | VNull | VArr _ | VObj _ | VNative _ =>
              FormData.mk (FormData.own formData) (reachesSetter v)
          | _ => formData
          end
        else FormData.mk (<[key := v]> (FormData.own formData)) false
    end
  else FormData.mk (<[key := v]> (FormData.own formData)) (FormData.setter formData).

(** One iteration of [fields.forEach] on the accumulated [formData]. *)
Definition formDataStep (formData : FormData.t) (field : FormField) : FormData.t :=
  match FormField.type field with
  | Title => formData
  | _ =>
      match FormField.defaultValue field with
      | None | Some VUndefined | Some VNull =>
          assignAnswer (FormField.id field) (emptyValue field) formData
      | Some v => assignAnswer (FormField.id field) v formData
      end
  end.

(** [generateFormData]: the own properties of the object it returns. *)
Definition generateFormData (fields : list FormField) : gmap string value :=
  FormData.own (foldl formDataStep (FormData.mk ∅ true) fields).

(* ===================================================================== *)
(** ** Navigation expression builder (lines 595-620) *)
(* ===================================================================== *)

Definition expressionCondition (checkbox : bool) (fieldId : string)
    (cond : Condition.t) : string :=
  if checkbox
  then "formData." ++ fieldId ++ ".includes('" ++ Condition.value cond
         ++ "') ? '" ++ Condition.nextStepName cond ++ "'"
  else "formData." ++ fieldId ++ " === '" ++ Condition.value cond
         ++ "' ? '" ++ Condition.nextStepName cond ++ "'".

Definition convertToExpression (st : State) (rule : NavigationRule) : string :=
  if (NavigationRule.fieldId rule =? "")
     || (length (NavigationRule.conditions rule) =? 0)%nat
  then "'continue'"
  else
    match find_field (currentStep st) (NavigationRule.fieldId rule) with
    | None => "'continue'"
    | Some field =>
        match FormField.type field with
        | Checkbox =>
            let conditions :=
              String.concat " : "
                (map (expressionCondition true (NavigationRule.fieldId rule))
                     (NavigationRule.conditions rule)) in
            conditions ++ " : '"
              ++ str_or (NavigationRule.defaultStepName rule) "continue" ++ "'"
        | _ =>
            let conditions :=
              String.concat " : "
                (map (expressionCondition false (NavigationRule.fieldId rule))
                     (NavigationRule.conditions rule)) in
            conditions ++ " : '"
              ++ str_or (NavigationRule.defaultStepName rule) "continue" ++ "'"
        end
    end.

(* ===================================================================== *)
(** ** Schema compiler (lines 366-377 and 459-592) *)
(* ===================================================================== *)

Definition getDefaultWidget (type : FieldType) : string :=
  match type with
  | Text => "text"
  | Textarea => "textarea"
  | Select => "select"
  | Radio => "radio"
  | Checkbox => "checkboxes"
  | File => "file"
  | Readonly => "textarea"
  | Title => "text"
  end.

(** One entry of [jsonSchema.properties]; an absent key is [None]. *)
Module Property.
Record t : Type := mk {
  title : string;
  type : string;
  items : option (string * list string);   (* {type, enum} *)
  uniqueItems : option bool;
  enum : option (list string);
  format : option string;
  description : option string;
  default : option value;
  readOnly : option bool
}.
End Property.

Module JsonSchema.
Record t : Type := mk {
  type : string;
  description : string;
  properties : gmap string Property.t;
  required : list string
}.
End JsonSchema.

(** The ["ui:options"] object of a field, by widget. *)
Inductive UiOptions : Type :=
| ChoiceOptions (inline : bool) (enumOptions : list (string * string))
| SelectOptions (enumOptions : list (string * string))
| TextareaOptions (rows : Z)
| FileOptions (accept : string) (multiple : bool).

Module UiConfig.
Record t : Type := mk {
  widget : string;
  placeholder : option string;
  readonly : option bool;
  options : option UiOptions
}.
End UiConfig.

(** [uiSchema] is one object: the keys ["ui:order"] and
    ["ui:submitButtonOptions"] live side by side with one key per field id. *)
Inductive UiEntry : Type :=
| UiOrder (order : list string)
| UiSubmitButtonOptions (submitText : string) (norender : bool)
| UiField (config : UiConfig.t).

Module ActionSchema.
Record t : Type := mk {
  actionName : string;
  summaryCheckExpression : string;
  nextFlowDeterminationExpression : string
}.
End ActionSchema.

(** The result of [generateAllSchemas]: four empty objects when there is no
    current step. *)
Inductive Schemas : Type :=
| EmptySchemas
| StepSchemas (jsonSchema : JsonSchema.t) (uiSchema : gmap string UiEntry)
              (formData : gmap string value) (actionSchema : ActionSchema.t).

Definition is_readonly (field : FormField) : bool :=
  default false (FormField.readOnly field)
  || FieldType_eqb (FormField.type field) Readonly.

(** [field.options?.map((opt) => ({value: opt, label: opt})) || []]. *)
Definition enumOptions (field : FormField) : list (string * string) :=
  map (fun opt => (opt, opt)) (default [] (FormField.options field)).

(** [field.maxFileSize || 10]. *)
Definition maxFileSize_or_10 (field : FormField) : Z :=
  match FormField.maxFileSize field with
  | None => 10
  | Some n => if (n =? 0)%Z then 10 else n
  end.

Definition buildProperty (field : FormField) : Property.t :=
  let type := FormField.type field in
  Property.mk
    (FormField.title field)
    (match type with Checkbox => "array" | File => "string" | _ => "string" end)
    (match type with
     | Checkbox => Some ("string", default [] (FormField.options field))
     | _ => None
     end)
    (match type with Checkbox => Some true | _ => None end)
    (match type with
     | Radio | Select => Some (default [] (FormField.options field))
     | _ => None
     end)
    (match type with File => Some "data-url" | _ => None end)
    (match type with
     | File => Some ("Max size: " ++ numberText (maxFileSize_or_10 field) ++ "MB")
     | _ => None
     end)
    (match FormField.defaultValue field, type with
     | None, _ | Some VUndefined, _ | _, Readonly => None
     | Some v, _ => Some v
     end)
    (if is_readonly field then Some true else None).

Definition buildUiConfig (field : FormField) : UiConfig.t :=
  let type := FormField.type field in
  UiConfig.mk
    (match type with
     | Radio => "radio"
     | Checkbox => "checkboxes"
     | Select => "select"
     | Textarea => "textarea"
     | File => "file"
     | _ => getDefaultWidget type
     end)
    (match FormField.placeholder field with
     | Some p => if p =? "" then None else Some p
     | None => None
     end)
    (if is_readonly field then Some true else None)
    (match type with
     | Radio | Checkbox => Some (ChoiceOptions false (enumOptions field))
     | Select =>
         Some (SelectOptions (("", "Choose an option...") :: enumOptions field))
     | Textarea => Some (TextareaOptions 4)
     | File =>
         Some (FileOptions
                 (let joined :=
                    match FormField.acceptedFileTypes field with
                    | Some types => String.concat "," types
                    | None => ""
                    end in
                  if joined =? "" then "*/*" else joined)
                 (default false (FormField.multiple field)))
     | _ => None
     end).

(** [uiSchema["ui:order"].push(id)]: a [TypeError] ([None]) when the value
    stored under ["ui:order"] is no longer the array. *)
Definition pushOrder (uiSchema : gmap string UiEntry) (id : string)
  : option (gmap string UiEntry) :=
  match uiSchema !! "ui:order" with
  | Some (UiOrder order) => Some (<["ui:order" := UiOrder (order ++ [id])]> uiSchema)
  | _ => None
  end.

(** One iteration of [currentStep.fields.forEach] on the two schemas under
    construction. *)
Definition schemaStep (acc : option (JsonSchema.t * gmap string UiEntry))
    (field : FormField) : option (JsonSchema.t * gmap string UiEntry) :=
  match acc with
  | None => None
  | Some (jsonSchema, uiSchema) =>
      match FormField.type field with
      | Title => Some (jsonSchema, uiSchema)
      | _ =>
          let jsonSchema' :=
            JsonSchema.mk
              (JsonSchema.type jsonSchema)
              (JsonSchema.description jsonSchema)
              (assign (FormField.id field) (buildProperty field)
                 (JsonSchema.properties jsonSchema))
              (if FormField.required field
               then JsonSchema.required jsonSchema ++ [FormField.id field]
               else JsonSchema.required jsonSchema) in
          match pushOrder (assign (FormField.id field) (UiField (buildUiConfig field))
                                  uiSchema)
                          (FormField.id field) with
          | Some uiSchema' => Some (jsonSchema', uiSchema')
          | None => None
          end
      end
  end.

Definition initialUiSchema : gmap string UiEntry :=
  <["ui:submitButtonOptions" := UiSubmitButtonOptions "Continue" false]>
    (<["ui:order" := UiOrder []]> ∅).

(** [generateAllSchemas]: [None] when the function throws. *)
Definition generateAllSchemas (st : State) : option Schemas :=
  match currentStep st with
  | None => Some EmptySchemas
  | Some step =>
      let jsonSchema := JsonSchema.mk "object" (Step.description step) ∅ [] in
      let formData := generateFormData (Step.fields step) in
      match foldl schemaStep (Some (jsonSchema, initialUiSchema)) (Step.fields step) with
      | None => None
      | Some (jsonSchema', uiSchema') =>
          let actionSchema :=
            ActionSchema.mk
              (Step.actionName step)
              (if Step.summaryCheckExpression step =? "" then "true"
               else Step.summaryCheckExpression step)
              (match Step.navigationRule step with
               | Some rule => convertToExpression st rule
               | None => "'continue'"
               end) in
          Some (StepSchemas jsonSchema' uiSchema' formData actionSchema)
      end
  end.

(** Reading [uiSchema["ui:order"]] back from a compile result. *)
Definition uiOrder (schemas : Schemas) : option (list string) :=
  match schemas with
  | StepSchemas _ uiSchema _ _ =>
      match uiSchema !! "ui:order" with
      | Some (UiOrder order) => Some order
      | _ => None
      end
  | EmptySchemas => None
  end.

(* ===================================================================== *)
(** ** Flow export (lines 640-689) *)
(* ===================================================================== *)

Module StepEntry.
Record t : Type := mk {
  id : string;
  name : string;
  description : string;
  order : nat;
  schemas : Schemas
}.
End StepEntry.

Module FlowData.
Record t : Type := mk {
  name : string;
  description : string;
  version : string;
  created : string;
  steps : list StepEntry.t;
  totalSteps : nat;
  totalFields : nat;
  fieldTypes : list string
}.
End FlowData.

(** [Array.from(new Set(l))]: first occurrences, in order. *)
Definition distinct (l : list string) : list string :=
  foldl (fun seen x => if existsb (String.eqb x) seen then seen else (seen ++ [x])%list) [] l.

(** The callback of [parsedSteps.map((step, index) => ...)].  The call
    [generateAllSchemas()] takes no argument: it compiles [currentStep]. *)
Definition exportStep (st : State) (index : nat) (step : Step) : option StepEntry.t :=
  match generateAllSchemas st with
  | Some schemas =>
      Some (StepEntry.mk (Step.id step) (Step.name step) (Step.description step)
              (index + 1) schemas)
  | None => None
  end.

(** The [flowData] object; [created] is [new Date().toISOString()], an input
    here.  [None] when a callback throws. *)
Definition flowData (st : State) (created : string) : option FlowData.t :=
  match mapM id (imap (exportStep st) (parsedSteps st)) with
  | Some entries =>
      Some (FlowData.mk
              (currentFlowName st)
              ("Form with " ++ pretty (length (parsedSteps st)) ++ " pages")
              "1.0"
              created
              entries
              (length (parsedSteps st))
              (foldl (fun sum step => sum + length (Step.fields step)) 0 (parsedSteps st))
              (distinct (flat_map (fun step => map (fun f => type_name (FormField.type f))
                                                  (Step.fields step))
                                  (parsedSteps st))))
  | None => None
  end.

(** What the handler does: refuse an empty flow, throw with a callback, or
    hand the document to the browser (the download itself is not modelled). *)
Inductive ExportOutcome : Type :=
| ExportRefused (st' : State)
| ExportThrows
| Exported (st' : State) (document : FlowData.t).

Definition setSaveStatus (message : string) (st : State) : State :=
  mkState (steps st) (isNewFlow st) (currentStepIndex st) (currentFlowName st)
          (previewMode st) (previewData st) message.

Definition exportCompleteFlow (st : State) (created : string) : ExportOutcome :=
  match parsedSteps st with
  | [] => ExportRefused (setSaveStatus "⚠️ Cannot export empty flow" st)
  | _ =>
      match flowData st created with
      | Some document => Exported (setSaveStatus "📦 Flow exported as JSON" st) document
      | None => ExportThrows
      end
  end.

(* ===================================================================== *)
(** ** Step validation (lines 1204-1247) *)
(* ===================================================================== *)

(** The double quote character, as a string. *)
Definition dq : string := String "034"%char "".

(** One white space or line terminator character of [String.prototype.trim],
    in UTF-8: how many bytes it takes at the head of [s] (0: none). *)
Definition space_width (s : string) : nat :=
  match s with
  | EmptyString => 0
  | String a r1 =>
      let c1 := N_of_ascii a in
      if ((9 <=? c1) && (c1 <=? 13) || (c1 =? 32))%N then 1
      else
        match r1 with
        | EmptyString => 0
        | String b r2 =>
            let c2 := N_of_ascii b in
            if ((c1 =? 194) && (c2 =? 160))%N then 2
            else
              match r2 with
              | EmptyString => 0
              | String d _ =>
                  let c3 := N_of_ascii d in
                  if ((c1 =? 225) && (c2 =? 154) && (c3 =? 128)
                      || (c1 =? 226) && (c2 =? 128)
                         && ((128 <=? c3) && (c3 <=? 138) || (c3 =? 168)
                             || (c3 =? 169) || (c3 =? 175))
                      || (c1 =? 226) && (c2 =? 129) && (c3 =? 159)
                      || (c1 =? 227) && (c2 =? 128) && (c3 =? 128)
                      || (c1 =? 239) && (c2 =? 187) && (c3 =? 191))%N
                  then 3 else 0
              end
        end
  end.

(** [!s.trim()]: the string is white space only. *)
Fixpoint is_blank_fuel (fuel : nat) (s : string) : bool :=
  match s with
  | EmptyString => true
  | _ =>
      match fuel, space_width s with
      | S fuel', S k => is_blank_fuel fuel' (String.substring (S k) (String.length s) s)
      | _, _ => false
      end
  end.

Definition is_blank (s : string) : bool := is_blank_fuel (String.length s) s.

Module Validation.
Record t : Type := mk { valid : bool; errors : list string }.
End Validation.

(** [errors.push(message)]. *)
Definition push (errors : list string) (message : string) : list string :=
  (errors ++ [message])%list.

Definition is_missing (v : value) : bool := is_unset v || is_empty_array v.

(** One iteration of the preview-mode [forEach]. *)
Definition previewCheck (st : State) (errors : list string) (field : FormField)
  : list string :=
  if FormField.required field
     && negb (FieldType_eqb (FormField.type field) Title)
     && isFieldVisible st field
  then
    let value := get (previewData st) (FormField.id field) in
    if is_missing value
    then push errors (dq ++ FormField.title field ++ dq ++ " is required")
    else errors
  else errors.

(** One iteration of the edit-mode [forEach]. *)
Definition authoringCheck (errors : list string) (field : FormField) : list string :=
  let errors1 :=
    if is_blank (FormField.title field)
    then push errors ("Field " ++ dq ++ FormField.id field ++ dq ++ " needs a title")
    else errors in
  let errors2 :=
    if (match FormField.type field with Select | Radio | Checkbox => true | _ => false end)
       && (match FormField.options field with None | Some [] => true | _ => false end)
    then push errors1 (dq ++ FormField.title field ++ dq ++ " needs options")
    else errors1 in
  if FieldType_eqb (FormField.type field) File
     && (match FormField.maxFileSize field with
         | Some n => negb (n =? 0)%Z && (100 <? n)%Z
         | None => false
         end)
  then push errors2 (dq ++ FormField.title field ++ dq ++ " file size limit too high")
  else errors2.

Definition validateCurrentStep (st : State) : Validation.t :=
  match currentStep st with
  | None => Validation.mk true []
  | Some step =>
      let errors :=
        if previewMode st
        then foldl (previewCheck st) [] (Step.fields step)
        else foldl authoringCheck [] (Step.fields step) in
      Validation.mk (length errors =? 0)%nat errors
  end.

(* ===================================================================== *)
(** ** Next-step evaluation (lines 1321-1407) *)
(* ===================================================================== *)

(** [setCurrentStepIndex(index); setPreviewData({})]. *)
Definition goToStep (index : nat) (st : State) : State :=
  mkState (steps st) (isNewFlow st) index (currentFlowName st)
          (previewMode st) ∅ (saveStatus st).

(** The continuation branch (lines 1340-1346 and 1381-1387). *)
Definition continueFlow (st : State) : State :=
  if (currentStepIndex st <? length (parsedSteps st) - 1)%nat
  then goToStep (currentStepIndex st + 1) st
  else setSaveStatus "🎉 Form Complete!" st.

(** [l.findIndex(p)], with [None] for -1. *)
Fixpoint findIndex {A : Type} (p : A -> bool) (l : list A) : option nat :=
  match l with
  | [] => None
  | x :: rest => if p x then Some 0 else S <$> findIndex p rest
  end.

(** Lines 1366-1378: the target named by the rule for the driver's answer. *)
Definition resolveTarget (rule : NavigationRule) (field : FormField)
    (fieldValue : value) : string :=
  let targetStep := str_or (NavigationRule.defaultStepName rule) "continue" in
  match FormField.type field with
  | Checkbox =>
      let selectedValues := array_or_empty fieldValue in
      match find (fun cond => includes selectedValues (Condition.value cond))
                 (NavigationRule.conditions rule) with
      | Some matchedCondition => Condition.nextStepName matchedCondition
      | None => targetStep
      end
  | _ =>
      match find (fun cond => strict_eq_str fieldValue (Condition.value cond))
                 (NavigationRule.conditions rule) with
      | Some matchedCondition => Condition.nextStepName matchedCondition
      | None => targetStep
      end
  end.

(** Lines 1380-1406: what the target does. *)
Definition dispatchTarget (st : State) (targetStep : string) : State :=
  if targetStep =? "continue" then continueFlow st
  else if targetStep =? "end" then setSaveStatus "🛑 Form ended based on selection" st
  else if targetStep =? "skip" then goToStep (length (parsedSteps st) - 1) st
  else
    match findIndex (fun s => Step.name s =? targetStep) (parsedSteps st) with
    | Some targetStepIndex => goToStep targetStepIndex st
    | None => setSaveStatus ("❓ Target " ++ dq ++ targetStep ++ dq ++ " not found") st
    end.

(** The guard of lines 1355-1360 on the driver's answer. *)
Definition answer_incomplete (fieldValue : value) : bool :=
  match fieldValue with
  | VUndefined => true
  | VStr s => s =? ""
  | VArr [] => true
  | _ => false
  end.

Definition executeNavigation (st : State) : State :=
  match currentStep st with
  | None => st
  | Some step =>
      let validation := validateCurrentStep st in
      if negb (Validation.valid validation)
      then setSaveStatus ("⚠️ " ++ pretty (length (Validation.errors validation))
                            ++ " validation error(s)") st
      else
        match Step.navigationRule step with
        | None => continueFlow st
        | Some rule =>
            let fieldValue := get (previewData st) (NavigationRule.fieldId rule) in
            match find (fun f => FormField.id f =? NavigationRule.fieldId rule)
                       (Step.fields step) with
            | None => setSaveStatus "⚠️ Please complete required fields" st
            | Some field =>
                if answer_incomplete fieldValue
                then setSaveStatus "⚠️ Please complete required fields" st
                else dispatchTarget st (resolveTarget rule field fieldValue)
            end
        end
  end.

(* ===================================================================== *)
(** ** Field deletion (lines 899-924) *)
(* ===================================================================== *)

Definition setSteps (newSteps : list Step) (st : State) : State :=
  mkState newSteps (isNewFlow st) (currentStepIndex st) (currentFlowName st)
          (previewMode st) (previewData st) (saveStatus st).

(** The three updates [deleteField] makes to the current step: drop the
    field, drop a navigation rule that reads it, and clear the dependency of
    every field that depended on it. *)
Definition withoutField (fieldId : string) (step : Step) : Step :=
  let kept :=
    List.filter (fun f => negb (FormField.id f =? fieldId)) (Step.fields step) in
  let rule :=
    match Step.navigationRule step with
    | Some rule => if NavigationRule.fieldId rule =? fieldId then None else Some rule
    | None => None
    end in
  let cleaned :=
    map (fun field =>
           match FormField.dependsOn field with
           | Some d => if d =? fieldId then dependent field None None else field
           | None => field
           end) kept in
  Step.mk (Step.id step) (Step.name step) (Step.description step) cleaned
          (Step.actionName step) rule (Step.summaryCheckExpression step).

Definition deleteField (fieldId : string) (st : State) : State :=
  match currentStep st with
  | None => st
  | Some step =>
      setSteps (<[currentStepIndex st := withoutField fieldId step]> (parsedSteps st)) st
  end.

(* ===================================================================== *)
(** ** Reading a navigation expression: the JavaScript fragment the builder
       writes, as the external interpreter evaluates it

    This part is not code of [src/index.tsx]: it is the meaning of the string
    that [convertToExpression] returns, for an interpreter that binds
    [formData] to the live answers.  It covers identifiers, single-quoted
    string literals, property access, method calls, [===] and the
    conditional operator; anything else is reported as [Unsupported]. *)
(* ===================================================================== *)

Module JsExpr.

Inductive error : Type :=
| SyntaxError | TypeError | ReferenceError | Unsupported | OutOfFuel.

Inductive result (A : Type) : Type :=
| Ok (a : A)
| Err (e : error).
Arguments Ok {A} a.
Arguments Err {A} e.

Inductive token : Type :=
| TIdent (x : string)
| TString (s : string)
| TDot | TStrictEq | TQuestion | TColon | TLParen | TRParen | TComma.

(** *** Lexer: one character at a time *)

Inductive mode : Type :=
| Start
| InIdent (acc : string)
| InString (acc : string)
| InEscape (acc : string)
| Eq1
| Eq2.

Definition between (lo hi : N) (c : ascii) : bool :=
  ((lo <=? N_of_ascii c) && (N_of_ascii c <=? hi))%N.

Definition ident_start (c : ascii) : bool :=
  between 65 90 c || between 97 122 c || Ascii.eqb c "_" || Ascii.eqb c "$".

Definition ident_part (c : ascii) : bool := ident_start c || between 48 57 c.

Definition is_space (c : ascii) : bool := between 9 13 c || Ascii.eqb c " ".

Definition quote : ascii := "'"%char.
Definition backslash : ascii := "092"%char.

Definition snoc (acc : string) (c : ascii) : string := acc ++ String c "".

Definition step_start (c : ascii) : result (list token * mode) :=
  if ident_start c then Ok ([], InIdent (String c ""))
  else if is_space c then Ok ([], Start)
  else if Ascii.eqb c quote then Ok ([], InString "")
  else if Ascii.eqb c "." then Ok ([TDot], Start)
  else if Ascii.eqb c "=" then Ok ([], Eq1)
  else if Ascii.eqb c "?" then Ok ([TQuestion], Start)
  else if Ascii.eqb c ":" then Ok ([TColon], Start)
  else if Ascii.eqb c "(" then Ok ([TLParen], Start)
  else if Ascii.eqb c ")" then Ok ([TRParen], Start)
  else if Ascii.eqb c "," then Ok ([TComma], Start)
  else Err Unsupported.

Definition step (m : mode) (c : ascii) : result (list token * mode) :=
  match m with
  | Start => step_start c
  | InIdent acc =>
      if ident_part c then Ok ([], InIdent (snoc acc c))
      else
        match step_start c with
        | Ok (ts, m') => Ok (TIdent acc :: ts, m')
        | Err e => Err e
        end
  | InString acc =>
      if Ascii.eqb c quote then Ok ([TString acc], Start)
      else if Ascii.eqb c backslash then Ok ([], InEscape acc)
      else if Ascii.eqb c "010" || Ascii.eqb c "013" then Err SyntaxError
      else Ok ([], InString (snoc acc c))
  | InEscape acc =>
      if Ascii.eqb c quote || Ascii.eqb c backslash || Ascii.eqb c "034"
      then Ok ([], InString (snoc acc c))
      else if Ascii.eqb c "n" then Ok ([], InString (snoc acc "010"))
      else if Ascii.eqb c "t" then Ok ([], InString (snoc acc "009"))
      else if Ascii.eqb c "r" then Ok ([], InString (snoc acc "013"))
      else Err Unsupported
  | Eq1 => if Ascii.eqb c "=" then Ok ([], Eq2) else Err Unsupported
  | Eq2 => if Ascii.eqb c "=" then Ok ([TStrictEq], Start) else Err Unsupported
  end.

Definition finish (m : mode) : result (list token) :=
  match m with
  | Start => Ok []
  | InIdent acc => Ok [TIdent acc]
  | InString _ | InEscape _ => Err SyntaxError
  | Eq1 | Eq2 => Err Unsupported
  end.

Definition emit (ts : list token) (r : result (list token)) : result (list token) :=
  match r with
  | Ok rest => Ok (ts ++ rest)%list
  | Err e => Err e
  end.

Fixpoint lex_from (m : mode) (s : string) : result (list token) :=
  match s with
  | EmptyString => finish m
  | String c rest =>
      match step m c with
      | Ok (ts, m') => emit ts (lex_from m' rest)
      | Err e => Err e
      end
  end.

Definition lex (s : string) : result (list token) := lex_from Start s.

(** *** Parser: recursive descent, one nonterminal per precedence level *)

Inductive expr : Type :=
| EIdent (x : string)
| EString (s : string)
| EMember (object : expr) (name : string)
| ECall (callee : expr) (args : list expr)
| EStrictEq (lhs rhs : expr)
| ECond (test consequent alternate : expr).

Inductive goal : Type :=
| NCond
| NEquality
| NEqRest (lhs : expr)
| NMember
| NSuffix (object : expr)
| NArgs (callee : expr) (acc : list expr)
| NPrimary.

Fixpoint parse (fuel : nat) (g : goal) (ts : list token)
  : result (expr * list token) :=
  match fuel with
  | 0 => Err OutOfFuel
  | S fuel =>
      match g with
      | NPrimary =>
          match ts with
          | TIdent x :: r => Ok (EIdent x, r)
          | TString s :: r => Ok (EString s, r)
          | TLParen :: r =>
              match parse fuel NCond r with
              | Ok (e, TRParen :: r') => Ok (e, r')
              | Ok _ => Err SyntaxError
              | Err x => Err x
              end
          | _ => Err SyntaxError
          end
      | NMember =>
          match parse fuel NPrimary ts with
          | Ok (e, r) => parse fuel (NSuffix e) r
          | Err x => Err x
          end
      | NSuffix e =>
          match ts with
          | TDot :: TIdent x :: r => parse fuel (NSuffix (EMember e x)) r
          | TDot :: _ => Err SyntaxError
          | TLParen :: TRParen :: r => parse fuel (NSuffix (ECall e [])) r
          | TLParen :: r => parse fuel (NArgs e []) r
          | _ => Ok (e, ts)
          end
      | NArgs callee acc =>
          match parse fuel NCond ts with
          | Ok (a, TComma :: r) => parse fuel (NArgs callee (acc ++ [a])) r
          | Ok (a, TRParen :: r) => parse fuel (NSuffix (ECall callee (acc ++ [a]))) r
          | Ok _ => Err SyntaxError
          | Err x => Err x
          end
      | NEquality =>
          match parse fuel NMember ts with
          | Ok (e, r) => parse fuel (NEqRest e) r
          | Err x => Err x
          end
      | NEqRest e =>
          match ts with
          | TStrictEq :: r =>
              match parse fuel NMember r with
              | Ok (e2, r') => parse fuel (NEqRest (EStrictEq e e2)) r'
              | Err x => Err x
              end
          | _ => Ok (e, ts)
          end
      | NCond =>
          match parse fuel NEquality ts with
          | Ok (c, TQuestion :: r) =>
              match parse fuel NCond r with
              | Ok (t, TColon :: r') =>
                  match parse fuel NCond r' with
                  | Ok (f, r'') => Ok (ECond c t f, r'')
                  | Err x => Err x
                  end
              | Ok _ => Err SyntaxError
              | Err x => Err x
              end
          | other => other
          end
      end
  end.

Definition parseExpression (ts : list token) : result expr :=
  match parse (8 * (length ts + 1)) NCond ts with
  | Ok (e, []) => Ok e
  | Ok _ => Err SyntaxError
  | Err x => Err x
  end.

(** *** Evaluation against the answers *)

(** [a === b].  Two objects are equal when they are the same object, which
    this value model cannot tell. *)
Definition strict_equal (a b : value) : result bool :=
  match a, b with
  | VUndefined, VUndefined | VNull, VNull => Ok true
  | VBool x, VBool y => Ok (Bool.eqb x y)
  | VNum x, VNum y => Ok (x =? y)%Z
  | VStr x, VStr y => Ok (x =? y)
  | (VArr _ | VObj _ | VNative _), (VArr _ | VObj _ | VNative _) =>
      Err Unsupported
  | _, _ => Ok false
  end.

(** [haystack.includes(needle)] on strings. *)
Fixpoint is_substring (needle haystack : string) : bool :=
  String.prefix needle haystack
  || match haystack with
     | EmptyString => false
     | String _ rest => is_substring needle rest
     end.

(** [receiver.name(arg)] for the one method of the fragment. *)
Definition call_method (receiver : value) (name : string) (args : list value)
  : result value :=
  match receiver with
  | VUndefined | VNull => Err TypeError
  | VArr elems =>
      if name =? "includes"
      then match args with
           | [VStr s] => Ok (VBool (includes elems s))
           | _ => Err Unsupported
           end
      else Err Unsupported
  | VStr str =>
      if name =? "includes"
      then match args with
           | [VStr s] => Ok (VBool (is_substring s str))
           | _ => Err Unsupported
           end
      else Err Unsupported
  | VObj props =>
      if name =? "includes"
      then match props !! name with
           | None => Err TypeError
           | Some _ => Err Unsupported
           end
      else Err Unsupported
  | VBool _ | VNum _ | VNative _ =>
      if name =? "includes" then Err TypeError else Err Unsupported
  end.

Fixpoint eval (formData : gmap string value) (e : expr) : result value :=
  match e with
  | EIdent x => if x =? "formData" then Ok (VObj formData) else Err ReferenceError
  | EString s => Ok (VStr s)
  | EMember object name =>
      match eval formData object with
      | Ok (VObj props) => Ok (get props name)
      | Ok VUndefined | Ok VNull => Err TypeError
      | Ok _ => Err Unsupported
      | Err x => Err x
      end
  | ECall (EMember object name) [arg] =>
      match eval formData object with
      | Ok receiver =>
          match receiver with
          | VUndefined | VNull => Err TypeError
          | _ =>
              match eval formData arg with
              | Ok a => call_method receiver name [a]
              | Err x => Err x
              end
          end
      | Err x => Err x
      end
  | ECall _ _ => Err Unsupported
  | EStrictEq lhs rhs =>
      match eval formData lhs with
      | Ok a =>
          match eval formData rhs with
          | Ok b =>
              match strict_equal a b with
              | Ok r => Ok (VBool r)
              | Err x => Err x
              end
          | Err x => Err x
          end
      | Err x => Err x
      end
  | ECond test consequent alternate =>
      match eval formData test with
      | Ok t => if truthy t then eval formData consequent else eval formData alternate
      | Err x => Err x
      end
  end.

(** Parse-and-evaluate. *)
Definition evaluate (formData : gmap string value) (source : string) : result value :=
  match lex source with
  | Ok ts =>
      match parseExpression ts with
      | Ok e => eval formData e
      | Err x => Err x
      end
  | Err x => Err x
  end.

End JsExpr.

(* ===================================================================== *)
(** ** Rendering a field's value (lines 1153-1168) *)
(* ===================================================================== *)

(** [field.defaultValue] read as a value: an absent key is [undefined]. *)
Definition defaultValueOf (field : FormField) : value :=
  default VUndefined (FormField.defaultValue field).

(** [typeof v === "string" && v.startsWith("#")]. *)
Definition startsWithSigil (v : value) : bool :=
  match v with
  | VStr (String c _) => Ascii.eqb c "#"
  | _ => false
  end.

Definition renderFieldValue (st : State) (field : FormField) (previewValue : value)
  : value :=
  if previewMode st && startsWithSigil (defaultValueOf field)
  then
    let context := buildTemplateContext in
    let processedDefault := processTemplateValue (defaultValueOf field) context in
    match previewValue with
    | VUndefined => processedDefault
    | _ => previewValue
    end
  else
    match previewValue with
    | VUndefined => defaultValueOf field
    | _ => previewValue
    end.

(* ===================================================================== *)
(** ** Page management (lines 927-967)

    The handlers below also clear the field selection and raise the
    unsaved-work flag; neither is read by the functions modelled here, so
    neither is part of [State]. *)
(* ===================================================================== *)

Definition setCurrentStepIndex (index : nat) (st : State) : State :=
  mkState (steps st) (isNewFlow st) index (currentFlowName st)
          (previewMode st) (previewData st) (saveStatus st).

(** The page that [addStep] creates for the number [stepNumber]. *)
Definition newStep (stepNumber : nat) : Step :=
  Step.mk ("step" ++ pretty stepNumber)
          ("Page " ++ pretty stepNumber)
          ("Page " ++ pretty stepNumber ++ " description")
          []
          ("submitPage" ++ pretty stepNumber)
          None
          "true".

(** [addStep] (lines 927-942): append a page and show it. *)
Definition addStep (st : State) : State :=
  let stepNumber := length (parsedSteps st) + 1 in
  setCurrentStepIndex (length (parsedSteps st))
    (setSteps (parsedSteps st ++ [newStep stepNumber])%list st).

(** [l.filter((_, index) => keep(index))], counting from [index]. *)
Fixpoint filter_index {A : Type} (keep : nat -> bool) (index : nat) (l : list A)
  : list A :=
  match l with
  | [] => []
  | x :: rest =>
      if keep index then x :: filter_index keep (S index) rest
      else filter_index keep (S index) rest
  end.

(** The question [deleteStep] puts to the user (lines 951-952). *)
Definition deleteStepQuestion (stepIndex : nat) (st : State) : string :=
  let stepName :=
    str_or (Step.name <$> parsedSteps st !! stepIndex)
           ("Page " ++ pretty (stepIndex + 1)) in
  "Delete " ++ dq ++ stepName ++ dq ++ "? This cannot be undone.".

(** [deleteStep] (lines 944-967).  [confirm] is the user's answer to the
    browser dialog; [stepIndex] is the index of the page whose button was
    pressed.  [Math.max(0, n - 1)] is the truncated subtraction of [nat]. *)
Definition deleteStep (confirm : string -> bool) (stepIndex : nat) (st : State)
  : State :=
  if (length (parsedSteps st) <=? 1)%nat
  then setSaveStatus "⚠️ Cannot delete the last page" st
  else if negb (confirm (deleteStepQuestion stepIndex st)) then st
  else
    let updatedSteps :=
      filter_index (fun index => negb (index =? stepIndex)%nat) 0 (parsedSteps st) in
    let st' := setSteps updatedSteps st in
    if (length updatedSteps <=? currentStepIndex st)%nat
    then setCurrentStepIndex (Nat.max 0 (length updatedSteps - 1)) st'
    else if (stepIndex <=? currentStepIndex st)%nat
    then setCurrentStepIndex (Nat.max 0 (currentStepIndex st - 1)) st'
    else st'.

(* ===================================================================== *)
(** ** Preview answers (lines 1144-1151 and 2845-2857) *)
(* ===================================================================== *)

(** [updatePreviewData] (lines 1145-1151): [{...prev, [fieldId]: value}]. *)
Definition updatePreviewData (fieldId : string) (v : value) (st : State) : State :=
  mkState (steps st) (isNewFlow st) (currentStepIndex st) (currentFlowName st)
          (previewMode st) (<[fieldId := v]> (previewData st)) (saveStatus st).

(** The [onChange] handler of one checkbox of a [checkbox] field (lines
    2845-2857).  [fieldValue] is what the field shows (lines 2526-2529), so a
    first tick starts from the field's default. *)
Definition toggleCheckbox (field : FormField) (option : string) (checked : bool)
    (st : State) : State :=
  let fieldValue :=
    renderFieldValue st field (get (previewData st) (FormField.id field)) in
  let currentValues := array_or_empty fieldValue in
  let newValues :=
    if checked then (currentValues ++ [VStr option])%list
    else List.filter (fun v => negb (strict_eq_str v option)) currentValues in
  updatePreviewData (FormField.id field) (VArr newValues) st.

(* ===================================================================== *)
(** ** File upload (lines 1088-1142)

    A browser [File] is the record of the three properties the handler
    reads.  [URL.createObjectURL] is the function [createObjectURL], given
    by the browser. *)
(* ===================================================================== *)

Module JsFile.
Record t : Type := mk { name : string; size : Z; type : string }.
End JsFile.
Abbreviation JsFile := JsFile.t.

(** [s.includes(c)] for a one-character string [c]. *)
Fixpoint has_char (c : ascii) (s : string) : bool :=
  match s with
  | EmptyString => false
  | String d rest => Ascii.eqb d c || has_char c rest
  end.

(** The callback of [acceptedFileTypes.some] (lines 1108-1114). *)
Definition acceptsType (acceptedType fileType : string) : bool :=
  if has_char "*" acceptedType
  then
    let baseType := hd "" (split_on "/" acceptedType) in
    String.prefix baseType fileType
  else fileType =? acceptedType.

(** The object stored for one file (lines 1127-1138). *)
Definition fileData (createObjectURL : JsFile -> string) (f : JsFile) : value :=
  obj [("name", VStr (JsFile.name f));
       ("size", VNum (JsFile.size f));
       ("type", VStr (JsFile.type f));
       ("url", VStr (createObjectURL f))].

(** [oversizedFiles] (lines 1096-1097). *)
Definition oversizedFiles (field : FormField) (fileArray : list JsFile) : list JsFile :=
  let maxSize := (maxFileSize_or_10 field * 1024 * 1024)%Z in
  List.filter (fun f => (maxSize <? JsFile.size f)%Z) fileArray.

(** [invalidFiles] (lines 1106-1115); no file is invalid when the field
    lists no accepted type. *)
Definition invalidFiles (field : FormField) (fileArray : list JsFile) : list JsFile :=
  match FormField.acceptedFileTypes field with
  | Some ((_ :: _) as accepted) =>
      List.filter
        (fun f => negb (existsb (fun acceptedType => acceptsType acceptedType (JsFile.type f))
                                accepted))
        fileArray
  | _ => []
  end.

(** [handleFileUpload]; [files] is [None] for [null], and the result is
    [None] when the handler throws: [files[0].name] on an empty selection is
    a [TypeError]. *)
Definition handleFileUpload (createObjectURL : JsFile -> string) (fieldId : string)
    (files : option (list JsFile)) (st : State) : option State :=
  match files, currentStep st with
  | Some fileArray, Some step =>
      match find (fun f => FormField.id f =? fieldId) (Step.fields step) with
      | None => Some st
      | Some field =>
          if (0 <? length (oversizedFiles field fileArray))%nat
          then Some (setSaveStatus
                       ("❌ Files too large: "
                        ++ String.concat ", " (map JsFile.name (oversizedFiles field fileArray)))
                       st)
          else if (0 <? length (invalidFiles field fileArray))%nat
          then Some (setSaveStatus
                       ("❌ Invalid file types: "
                        ++ String.concat ", " (map JsFile.name (invalidFiles field fileArray)))
                       st)
          else
            match FormField.multiple field with
            | Some true =>
                Some (updatePreviewData fieldId
                        (VArr (map (fileData createObjectURL) fileArray)) st)
            | _ =>
                match fileArray with
                | [] => None
                | first :: _ =>
                    Some (updatePreviewData fieldId (fileData createObjectURL first) st)
                end
            end
      end
  | _, _ => Some st
  end.

(* ===================================================================== *)
(** ** The navigation summary line (lines 1286-1319) *)
(* ===================================================================== *)

(** [String(v)], as a template literal converts [v]: an array joins its
    elements with commas, showing [null] and [undefined] as nothing; a
    built-in function shows as V8 prints it. *)
Fixpoint toString (v : value) : string :=
  match v with
  | VUndefined => "undefined"
  | VNull => "null"
  | VBool b => if b then "true" else "false"
  | VNum n => numberText n
  | VStr s => s
  | VArr elems =>
      String.concat ","
        (map (fun elem =>
                match elem with
                | VUndefined | VNull => ""
                | _ => toString elem
                end) elems)
  | VObj _ | VNative ObjectPrototype => "[object Object]"
  | VNative (NativeFunction name) => "function " ++ name ++ "() { [native code] }"
  end.

Definition getNextStepLogic (st : State) : string :=
  match currentStep st with
  | None => "No current step"
  | Some step =>
      match Step.navigationRule step with
      | None => "Continue to next page"
      | Some rule =>
          let fieldValue := get (previewData st) (NavigationRule.fieldId rule) in
          if is_unset fieldValue then "No value selected"
          else
            match find (fun f => FormField.id f =? NavigationRule.fieldId rule)
                       (Step.fields step) with
            | None => "Navigation field not found"
            | Some field =>
                let matchedCondition :=
                  match FormField.type field with
                  | Checkbox =>
                      let selectedValues := array_or_empty fieldValue in
                      find (fun cond => includes selectedValues (Condition.value cond))
                           (NavigationRule.conditions rule)
                  | _ =>
                      find (fun cond => strict_eq_str fieldValue (Condition.value cond))
                           (NavigationRule.conditions rule)
                  end in
                match matchedCondition with
                | Some matched =>
                    dq ++ toString fieldValue ++ dq ++ " → "
                       ++ dq ++ Condition.nextStepName matched ++ dq
                | None =>
                    dq ++ toString fieldValue ++ dq ++ " → "
                       ++ dq ++ str_or (NavigationRule.defaultStepName rule) "continue" ++ dq
                end
            end
      end
  end.

(* ===================================================================== *)
(** ** Reordering fields (lines 794-813) *)
(* ===================================================================== *)

(** [step] with its [fields] replaced. *)
Definition withFields (fields : list FormField) (step : Step) : Step :=
  Step.mk (Step.id step) (Step.name step) (Step.description step) fields
          (Step.actionName step) (Step.navigationRule step)
          (Step.summaryCheckExpression step).

(** [l.splice(start, 0, x)]: a [start] past the end inserts at the end. *)
Definition splice_insert {A : Type} (start : nat) (x : A) (l : list A) : list A :=
  (take start l ++ x :: drop start l)%list.

(** [moveField] (lines 794-804), for the indices of the rendered list.
    [fields.splice(fromIndex, 1)] takes the field out; when [fromIndex] is
    past the end nothing is taken out and [undefined] is spliced in, which
    leaves the data model: the result is then [None]. *)
Definition moveField (fromIndex toIndex : nat) (st : State) : option State :=
  match currentStep st with
  | None => Some st
  | Some step =>
      match Step.fields step !! fromIndex with
      | None => None
      | Some movedField =>
          let fields :=
            splice_insert toIndex movedField (delete fromIndex (Step.fields step)) in
          Some (setSteps (<[currentStepIndex st := withFields fields step]> (parsedSteps st))
                         st)
      end
  end.

Definition moveFieldUp (index : nat) (st : State) : option State :=
  if (0 <? index)%nat then moveField index (index - 1) st else Some st.

Definition moveFieldDown (index : nat) (st : State) : option State :=
  match currentStep st with
  | None => Some st
  | Some step =>
      if (index <? length (Step.fields step) - 1)%nat
      then moveField index (index + 1) st
      else Some st
  end.

(* ===================================================================== *)
(** ** Adding a field (lines 342-364 and 700-791) *)
(* ===================================================================== *)

Definition is_alnum (c : ascii) : bool :=
  let n := N_of_ascii c in
  ((48 <=? n) && (n <=? 57) || (65 <=? n) && (n <=? 90) || (97 <=? n) && (n <=? 122))%N.

Definition lower_char (c : ascii) : ascii :=
  let n := N_of_ascii c in
  if ((65 <=? n) && (n <=? 90))%N then ascii_of_N (n + 32) else c.

Definition upper_char (c : ascii) : ascii :=
  let n := N_of_ascii c in
  if ((97 <=? n) && (n <=? 122))%N then ascii_of_N (n - 32) else c.

(** [s.toLowerCase()] for a string whose letters are ASCII, as every string
    is once the characters outside [[a-zA-Z0-9\s]] are removed. *)
Fixpoint toLowerCase (s : string) : string :=
  match s with
  | EmptyString => EmptyString
  | String c rest => String (lower_char c) (toLowerCase rest)
  end.

(** [s.replace(/[^a-zA-Z0-9\s]/g, "")]: keep ASCII letters and digits and
    white space; [keep] counts the bytes still to copy of a white space
    character of several bytes. *)
Fixpoint removeSymbols (keep : nat) (s : string) : string :=
  match s with
  | EmptyString => EmptyString
  | String c rest =>
      match keep with
      | S k => String c (removeSymbols k rest)
      | 0 =>
          match space_width s with
          | S k => String c (removeSymbols k rest)
          | 0 => if is_alnum c then String c (removeSymbols 0 rest)
                 else removeSymbols 0 rest
          end
      end
  end.

(** The callback of [.map((word, index) => ...)] (lines 347-351). *)
Definition camelWord (index : nat) (word : string) : string :=
  if (index =? 0)%nat then toLowerCase word
  else
    match word with
    | EmptyString => EmptyString
    | String c rest => String (upper_char c) (toLowerCase rest)
    end.

Definition cleanTitle (title : string) : string :=
  String.concat "" (imap camelWord (split_on " " (removeSymbols 0 title))).

(** [typeMap[type] || ""], as the template literal prints it: a name that
    [typeMap] inherits yields that member. *)
Definition typeSuffix (type : string) : string :=
  if type =? "radio" then "Choice"
  else if type =? "select" then "Selection"
  else if type =? "checkbox" then "Options"
  else if type =? "file" then "Files"
  else if type =? "text" then "Input"
  else if type =? "textarea" then "Text"
  else match inherited type with
       | Some member => toString (VNative member)
       | None => ""
       end.

(** [generateMeaningfulId]; [now] is the value of [Date.now()]. *)
Definition generateMeaningfulId (now : Z) (title type : string) : string :=
  if cleanTitle title =? ""
  then type ++ "Field" ++ typeSuffix type ++ "_" ++ numberText now
  else cleanTitle title.

(** The [switch] of lines 722-755, for the kinds of the palette. *)
Definition baseTitle (fieldType : FieldType) : string :=
  match fieldType with
  | Title => "Section Title"
  | Text => "Text Input"
  | Textarea => "Long Text"
  | Select => "Select from List"
  | Radio => "Choose Option"
  | Checkbox => "Select Multiple"
  | File => "Upload Files"
  | Readonly => "Read-only Text"
  end.

Definition initialDefault (fieldType : FieldType) : value :=
  match fieldType with
  | Checkbox => VArr []
  | File => VNull
  | _ => VStr ""
  end.

(** [newField] (lines 759-777). *)
Definition newField (now : Z) (fieldType : FieldType) : FormField :=
  FormField.mk
    (generateMeaningfulId now (baseTitle fieldType) (type_name fieldType))
    fieldType
    (baseTitle fieldType)
    false
    (match fieldType with Text | Textarea => Some "Enter value" | _ => None end)
    (match fieldType with
     | Select | Radio | Checkbox => Some ["Option 1"; "Option 2"; "Option 3"]
     | _ => None
     end)
    (Some (initialDefault fieldType))
    (Some (FieldType_eqb fieldType Readonly))
    (Some (getDefaultWidget fieldType))
    None
    None
    (match fieldType with File => Some ["image/*"] | _ => None end)
    (match fieldType with File => Some 10%Z | _ => None end)
    (match fieldType with File => Some false | _ => None end)
    (match fieldType with File => Some "none" | _ => None end).

(** [addField], for a kind of the palette.  After the branch for an empty
    flow the handler goes on with the [parsedSteps] of the render it was
    created in, so the page it has just set up does not get the field. *)
Definition addField (now : Z) (fieldType : FieldType) (st : State) : State :=
  let st1 :=
    if (length (parsedSteps st) =? 0)%nat
    then mkState [defaultStep] true 0 (currentFlowName st) (previewMode st)
                 (previewData st) (saveStatus st)
    else st in
  let updatedSteps := parsedSteps st in
  let targetStepIndex :=
    Nat.max 0 (Nat.min (currentStepIndex st) (length updatedSteps - 1)) in
  match updatedSteps !! targetStepIndex with
  | Some target =>
      setSteps
        (<[targetStepIndex :=
             withFields (Step.fields target ++ [newField now fieldType])%list target]>
           updatedSteps)
        st1
  | None => st1
  end.

(* ===================================================================== *)
(** ** Editing a field (lines 816-896 and 1076-1085)

    [updates] is a [Partial<FormField>].  For an optional property the
    record tells a key that is absent ([None]) from a key that is present
    and holds [undefined] ([Some None]): the spread [{...currentField,
    ...updates}] copies the second.  A mandatory property is absent or holds
    a value. *)
(* ===================================================================== *)

Module Updates.
Record t : Type := mk {
    id : option string;
    type : option FieldType;
    title : option string;
    required : option bool;
    placeholder : option (option string);
    options : option (option (list string));
    defaultValue : option (option value);
    readOnly : option (option bool);
    widget : option (option string);
    dependsOn : option (option string);
    showWhen : option (option string);
    acceptedFileTypes : option (option (list string));
    maxFileSize : option (option Z);
    multiple : option (option bool);
    captureMode : option (option string)
}.

(** [{}]. *)
Definition none : t :=
  mk None None None None None None None None None None None None None None None.

(** [updates.required = v] and the like. *)
Definition set_required (v : bool) (u : t) : t :=
  mk (id u) (type u) (title u) (Some v) (placeholder u) (options u) (defaultValue u)
     (readOnly u) (widget u) (dependsOn u) (showWhen u) (acceptedFileTypes u)
     (maxFileSize u) (multiple u) (captureMode u).

Definition set_placeholder (v : option string) (u : t) : t :=
  mk (id u) (type u) (title u) (required u) (Some v) (options u) (defaultValue u)
     (readOnly u) (widget u) (dependsOn u) (showWhen u) (acceptedFileTypes u)
     (maxFileSize u) (multiple u) (captureMode u).

Definition set_options (v : option (list string)) (u : t) : t :=
  mk (id u) (type u) (title u) (required u) (placeholder u) (Some v) (defaultValue u)
     (readOnly u) (widget u) (dependsOn u) (showWhen u) (acceptedFileTypes u)
     (maxFileSize u) (multiple u) (captureMode u).

Definition set_defaultValue (v : value) (u : t) : t :=
  mk (id u) (type u) (title u) (required u) (placeholder u) (options u) (Some (Some v))
     (readOnly u) (widget u) (dependsOn u) (showWhen u) (acceptedFileTypes u)
     (maxFileSize u) (multiple u) (captureMode u).
End Updates.
Abbreviation Updates := Updates.t.

(** [["text", "textarea", "select", "radio", "readonly"].includes(type)]. *)
Definition holds_text (type : FieldType) : bool :=
  match type with
  | Text | Textarea | Select | Radio | Readonly => true
  | _ => false
  end.

(** [["select", "radio", "checkbox"].includes(type)]. *)
Definition has_options (type : FieldType) : bool :=
  match type with
  | Select | Radio | Checkbox => true
  | _ => false
  end.

(** [Array.isArray(v)]. *)
Definition isArray (v : value) : bool :=
  match v with
  | VArr _ => true
  | _ => false
  end.

(** Lines 834-866: what a change of kind adds to [updates]. *)
Definition typeChange (currentField : FormField) (updates : Updates) : Updates :=
  match Updates.type updates with
  | Some type =>
      if negb (FieldType_eqb type (FormField.type currentField))
      then
        let u1 :=
          if FieldType_eqb type Title
          then Updates.set_options None
                 (Updates.set_placeholder None (Updates.set_required false updates))
          else updates in
        let u2 :=
          match type with
          | Text | Textarea => u1
          | _ => Updates.set_placeholder None u1
          end in
        let u3 :=
          match type with
          | Checkbox => Updates.set_defaultValue (VArr []) u2
          | File =>
              Updates.set_defaultValue
                (match Updates.multiple u2 with
                 | Some (Some true) => VArr []
                 | _ => VNull
                 end) u2
          | Title => u2
          | _ => Updates.set_defaultValue (VStr "") u2
          end in
        if has_options type
        then Updates.set_options
               (Some (match Updates.options u3 with
                      | Some (Some options) => options
                      | _ => ["Option 1"; "Option 2"; "Option 3"]
                      end)) u3
        else Updates.set_options None u3
      else updates
  | None => updates
  end.

(** Lines 869-884: the default value is made to fit the kind. *)
Definition coerceDefault (currentField : FormField) (updates : Updates) : Updates :=
  match Updates.defaultValue updates with
  | Some (Some VUndefined) | Some None | None => updates
  | Some (Some defaultValue) =>
      let targetType := default (FormField.type currentField) (Updates.type updates) in
      if FieldType_eqb targetType Checkbox && negb (isArray defaultValue)
      then Updates.set_defaultValue (VArr []) updates
      else if FieldType_eqb targetType File
      then Updates.set_defaultValue
             (match FormField.multiple currentField with
              | Some true => VArr []
              | _ => VNull
              end) updates
      else if holds_text targetType && isArray defaultValue
      then Updates.set_defaultValue (VStr "") updates
      else updates
  end.

(** [{...currentField, ...updates}]. *)
Definition spread (currentField : FormField) (updates : Updates) : FormField :=
  FormField.mk
    (default (FormField.id currentField) (Updates.id updates))
    (default (FormField.type currentField) (Updates.type updates))
    (default (FormField.title currentField) (Updates.title updates))
    (default (FormField.required currentField) (Updates.required updates))
    (default (FormField.placeholder currentField) (Updates.placeholder updates))
    (default (FormField.options currentField) (Updates.options updates))
    (default (FormField.defaultValue currentField) (Updates.defaultValue updates))
    (default (FormField.readOnly currentField) (Updates.readOnly updates))
    (default (FormField.widget currentField) (Updates.widget updates))
    (default (FormField.dependsOn currentField) (Updates.dependsOn updates))
    (default (FormField.showWhen currentField) (Updates.showWhen updates))
    (default (FormField.acceptedFileTypes currentField) (Updates.acceptedFileTypes updates))
    (default (FormField.maxFileSize currentField) (Updates.maxFileSize updates))
    (default (FormField.multiple currentField) (Updates.multiple updates))
    (default (FormField.captureMode currentField) (Updates.captureMode updates)).

Definition updateField (fieldId : string) (updates : Updates) (st : State) : State :=
  match currentStep st with
  | None => st
  | Some step =>
      match findIndex (fun f => FormField.id f =? fieldId) (Step.fields step) with
      | None => st
      | Some fieldIndex =>
          match Step.fields step !! fieldIndex with
          | None => st
          | Some currentField =>
              let updates' := coerceDefault currentField (typeChange currentField updates) in
              setSteps
                (<[currentStepIndex st :=
                     withFields (<[fieldIndex := spread currentField updates']>
                                   (Step.fields step)) step]>
                   (parsedSteps st))
                st
          end
      end
  end.

(** [insertTemplate] (lines 1076-1085). *)
Definition insertTemplate (fieldId templateKey : string) (st : State) : State :=
  match find_field (currentStep st) fieldId with
  | None => st
  | Some _ =>
      setSaveStatus ("📝 Template inserted: " ++ templateKey)
        (updateField fieldId
           (Updates.set_defaultValue (VStr templateKey) Updates.none) st)
  end.

(* ===================================================================== *)
(** ** Renaming a page (lines 1530-1540) *)
(* ===================================================================== *)

Inductive StepProperty : Type := PName | PDescription.

(** [updateStepProperty]: [updatedSteps[currentStepIndex][property] = value]. *)
Definition updateStepProperty (property : StepProperty) (v : string) (st : State)
  : State :=
  match currentStep st with
  | None => st
  | Some step =>
      let step' :=
        match property with
        | PName =>
            Step.mk (Step.id step) v (Step.description step) (Step.fields step)
                    (Step.actionName step) (Step.navigationRule step)
                    (Step.summaryCheckExpression step)
        | PDescription =>
            Step.mk (Step.id step) (Step.name step) v (Step.fields step)
                    (Step.actionName step) (Step.navigationRule step)
                    (Step.summaryCheckExpression step)
        end in
      setSteps (<[currentStepIndex st := step']> (parsedSteps st)) st
  end.

(* ===================================================================== *)
(** ** The schema panel (lines 623-637) *)
(* ===================================================================== *)

Module SchemasOutput.
Record t : Type := mk {
    schemas : Schemas;
    totalFields : nat;
    requiredFields : nat
}.
End SchemasOutput.

(** [generateSchemas]: the [output] object that is printed into the panel;
    [None] when the compile throws. *)
Definition generateSchemas (st : State) : option SchemasOutput.t :=
  match generateAllSchemas st with
  | None => None
  | Some schemas =>
      Some (SchemasOutput.mk
              schemas
              (match currentStep st with
               | Some step => length (Step.fields step)
               | None => 0
               end)
              (match currentStep st with
               | Some step => length (List.filter FormField.required (Step.fields step))
               | None => 0
               end))
  end.

(* ===================================================================== *)
(** ** Options typed into the editor (lines 692-697) *)
(* ===================================================================== *)

(** The line feed, as a character. *)
Definition newline : ascii := "010"%char.

(** [s.trimStart()]; [skip] counts the bytes still to drop of a white space
    character of several bytes. *)
Fixpoint trimStart_go (skip : nat) (s : string) : string :=
  match s with
  | EmptyString => EmptyString
  | String c rest =>
      match skip with
      | S k => trimStart_go k rest
      | 0 =>
          match space_width s with
          | S k => trimStart_go k rest
          | 0 => s
          end
      end
  end.

Definition trimStart (s : string) : string := trimStart_go 0 s.

(** [s.trimEnd()]: the string is cut where only white space follows. *)
Fixpoint trimEnd (s : string) : string :=
  match s with
  | EmptyString => EmptyString
  | String c rest => if is_blank s then EmptyString else String c (trimEnd rest)
  end.

(** [s.trim()]. *)
Definition trim (s : string) : string := trimEnd (trimStart s).

Definition parseFieldOptions (optionsText : string) : list string :=
  List.filter (fun option => (0 <? String.length option)%nat)
              (map trim (split_on newline optionsText)).

(* ===================================================================== *)
(** ** Vocabulary of the properties *)
(* ===================================================================== *)

(** A template reference: a string that starts with the sigil. *)
Definition is_template (v : value) : bool :=
  match v with
  | VStr (String c _) => Ascii.eqb c "#"
  | _ => false
  end.

(** The names that every object answers to without having them: the members
    of [Object.prototype]. *)
Definition inheritedNames : list string := "__proto__" :: "constructor" :: objectMethods.

(** [lacks result key]: [result] has nothing under [key].  An object lacks
    a key when it has no property of that name of its own and the name is
    not one that every object inherits; what is not an object (a string,
    [undefined], [null], a function) lacks every key. *)
Definition lacks (result : walked) (key : string) : Prop :=
  match result with
  | AtContext context => context !! key = None /\ ~ In key inheritedNames
  | AtSection section => section !! key = None /\ ~ In key inheritedNames
  | AtNative ObjectPrototype => ~ In key inheritedNames
  | AtNative (NativeFunction _) | AtString _ | AtUndefined | AtNull => True
  end.

(** [reaches context keys v]: every key of the dotted path names a property
    of the object reached so far, and the walk ends on [v]. *)
Inductive reaches : walked -> list string -> walked -> Prop :=
| reaches_here (v : walked) : reaches v [] v
| reaches_step (v next final : walked) (key : string) (keys : list string) :
    property v key = Some next ->
    reaches next keys final ->
    reaches v (key :: keys) final.

(** The explicit default of a field, when it has one. *)
Definition explicitDefault (field : FormField) : option value :=
  match FormField.defaultValue field with
  | None | Some VUndefined | Some VNull => None
  | Some v => Some v
  end.

(** The synthesized answer of a field, in the words of the specification. *)
Definition synthesized (field : FormField) : value :=
  match explicitDefault field with
  | Some v => v
  | None =>
      match FormField.type field with
      | Checkbox => VArr []
      | File =>
          match FormField.multiple field with
          | Some true => VArr []
          | _ => VNull
          end
      | _ => VStr ""
      end
  end.

(** A required, non-title, visible field with no answer. *)
Definition missing_required (st : State) (field : FormField) : bool :=
  FormField.required field
  && negb (FieldType_eqb (FormField.type field) Title)
  && isFieldVisible st field
  && is_missing (get (previewData st) (FormField.id field)).

Definition requiredMessage (field : FormField) : string :=
  dq ++ FormField.title field ++ dq ++ " is required".

Definition is_title (field : FormField) : bool :=
  FieldType_eqb (FormField.type field) Title.

(** The ids of the non-title fields, in field order. *)
Definition answerableIds (fields : list FormField) : list string :=
  map FormField.id (List.filter (fun f => negb (is_title f)) fields).

(** What a step of the preview did.  [shows index st st']: page [index] is
    shown, with the answers cleared and the status line kept.
    [stays_with message st st']: page and answers stay, and the status line
    reads [message]. *)
Definition shows (index : nat) (st st' : State) : Prop :=
  currentStepIndex st' = index
  /\ previewData st' = ∅
  /\ saveStatus st' = saveStatus st.

Definition stays_with (message : string) (st st' : State) : Prop :=
  currentStepIndex st' = currentStepIndex st
  /\ previewData st' = previewData st
  /\ saveStatus st' = message.

(** The matching policy of the specification: a condition matches a
    checkbox answer that is a sequence containing its value, and any other
    answer that is exactly its value. *)
Definition answer_matches (driver : FormField) (answer : value) (cond : Condition.t)
  : Prop :=
  match FormField.type driver with
  | Checkbox =>
      exists selected, answer = VArr selected /\ In (VStr (Condition.value cond)) selected
  | _ => answer = VStr (Condition.value cond)
  end.

(** [first_match matches conditions fallback target]: [target] is the
    [nextStepName] of the first condition, in listed order, that matches, and
    [fallback] when none does. *)
Inductive first_match (matches : Condition.t -> Prop)
  : list Condition.t -> string -> string -> Prop :=
| first_match_none (fallback : string) :
    first_match matches [] fallback fallback
| first_match_here (cond : Condition.t) (rest : list Condition.t) (fallback : string) :
    matches cond ->
    first_match matches (cond :: rest) fallback (Condition.nextStepName cond)
| first_match_later (cond : Condition.t) (rest : list Condition.t)
    (fallback target : string) :
    ~ matches cond ->
    first_match matches rest fallback target ->
    first_match matches (cond :: rest) fallback target.

(** Strings that the builder can splice between quotes, or after
    [formData.], without changing the shape of the expression. *)
Fixpoint all_chars (p : ascii -> bool) (s : string) : bool :=
  match s with
  | EmptyString => true
  | String c rest => p c && all_chars p rest
  end.

(** An identifier name of ASCII letters, digits, [_] and [$]. *)
Definition is_identifier (s : string) : bool :=
  match s with
  | EmptyString => false
  | String c rest => JsExpr.ident_start c && all_chars JsExpr.ident_part rest
  end.

(** No quote, no backslash, no line break. *)
Definition plain_char (c : ascii) : bool :=
  negb (Ascii.eqb c JsExpr.quote) && negb (Ascii.eqb c JsExpr.backslash)
  && negb (Ascii.eqb c "010") && negb (Ascii.eqb c "013").

Definition plain (s : string) : bool := all_chars plain_char s.

(** The builder's output for a rule that passes its guards, condition by
    condition; then its tokens and its syntax tree. *)
Fixpoint chain_source (checkbox : bool) (fieldId : string)
    (conds : list Condition.t) (fallback : string) : string :=
  match conds with
  | [] => "'" ++ fallback ++ "'"
  | cond :: rest =>
      expressionCondition checkbox fieldId cond ++ " : "
        ++ chain_source checkbox fieldId rest fallback
  end.

Definition test_tokens (checkbox : bool) (fieldId value : string) : list JsExpr.token :=
  if checkbox
  then [JsExpr.TIdent "formData"; JsExpr.TDot; JsExpr.TIdent fieldId; JsExpr.TDot;
        JsExpr.TIdent "includes"; JsExpr.TLParen; JsExpr.TString value; JsExpr.TRParen]
  else [JsExpr.TIdent "formData"; JsExpr.TDot; JsExpr.TIdent fieldId;
        JsExpr.TStrictEq; JsExpr.TString value].

Fixpoint chain_tokens (checkbox : bool) (fieldId : string)
    (conds : list Condition.t) (fallback : string) : list JsExpr.token :=
  match conds with
  | [] => [JsExpr.TString fallback]
  | cond :: rest =>
      (test_tokens checkbox fieldId (Condition.value cond)
         ++ JsExpr.TQuestion :: JsExpr.TString (Condition.nextStepName cond)
         :: JsExpr.TColon :: chain_tokens checkbox fieldId rest fallback)%list
  end.

Definition test_expr (checkbox : bool) (fieldId value : string) : JsExpr.expr :=
  let answer := JsExpr.EMember (JsExpr.EIdent "formData") fieldId in
  if checkbox
  then JsExpr.ECall (JsExpr.EMember answer "includes") [JsExpr.EString value]
  else JsExpr.EStrictEq answer (JsExpr.EString value).

Fixpoint chain_expr (checkbox : bool) (fieldId : string)
    (conds : list Condition.t) (fallback : string) : JsExpr.expr :=
  match conds with
  | [] => JsExpr.EString fallback
  | cond :: rest =>
      JsExpr.ECond (test_expr checkbox fieldId (Condition.value cond))
                   (JsExpr.EString (Condition.nextStepName cond))
                   (chain_expr checkbox fieldId rest fallback)
  end.

Definition is_checkbox (field : FormField) : bool :=
  FieldType_eqb (FormField.type field) Checkbox.

(** The ids of the required answerable fields, in field order. *)
Definition requiredIds_of (fields : list FormField) : list string :=
  map FormField.id
      (List.filter (fun f => negb (is_title f) && FormField.required f) fields).

(** [{type}]: the update the kind selector of the editor sends. *)
Definition retype (type : FieldType) : Updates :=
  Updates.mk None (Some type) None None None None None None None None None None None
             None None.

(** A field after its kind was changed to [type]. *)
Definition retyped (type : FieldType) (field : FormField) : FormField :=
  let kept :=
    FormField.mk (FormField.id field) type (FormField.title field)
      (match type with Title => false | _ => FormField.required field end)
      (match type with Text | Textarea => FormField.placeholder field | _ => None end)
      (if has_options type then Some ["Option 1"; "Option 2"; "Option 3"] else None)
      (FormField.defaultValue field)
      (FormField.readOnly field) (FormField.widget field)
      (FormField.dependsOn field) (FormField.showWhen field)
      (FormField.acceptedFileTypes field) (FormField.maxFileSize field)
      (FormField.multiple field) (FormField.captureMode field) in
  match type with
  | Title => kept
  | _ =>
      FormField.mk (FormField.id kept) (FormField.type kept) (FormField.title kept)
        (FormField.required kept) (FormField.placeholder kept) (FormField.options kept)
        (Some (emptyValue kept))
        (FormField.readOnly kept) (FormField.widget kept)
        (FormField.dependsOn kept) (FormField.showWhen kept)
        (FormField.acceptedFileTypes kept) (FormField.maxFileSize kept)
        (FormField.multiple kept) (FormField.captureMode kept)
  end.

(** [field] with its default value replaced. *)
Definition withDefault (defaultValue : value) (field : FormField) : FormField :=
  FormField.mk (FormField.id field) (FormField.type field) (FormField.title field)
    (FormField.required field) (FormField.placeholder field) (FormField.options field)
    (Some defaultValue)
    (FormField.readOnly field) (FormField.widget field)
    (FormField.dependsOn field) (FormField.showWhen field)
    (FormField.acceptedFileTypes field) (FormField.maxFileSize field)
    (FormField.multiple field) (FormField.captureMode field).

(** [options.join("\n")]: the text the editor shows for a list of options
    (line 3258). *)
Definition optionsText (options : list string) : string :=
  String.concat (String newline "") options.

(** An option as the editor keeps it: not empty, no white space at either
    end, on one line. *)
Definition tidy (option : string) : Prop :=
  option <> "" /\ trim option = option /\ has_char newline option = false.

(** [s] without its first [n] bytes. *)
Fixpoint string_drop (n : nat) (s : string) : string :=
  match n, s with
  | 0, _ => s
  | S n', String _ rest => string_drop n' rest
  | S _, EmptyString => EmptyString
  end.

(** White space only, read byte by byte; [skip] counts the bytes still to
    pass of a white space character of several bytes. *)
Fixpoint blank_go (skip : nat) (s : string) : bool :=
  match s with
  | EmptyString => true
  | String c rest =>
      match skip with
      | S k => blank_go k rest
      | 0 =>
          match space_width s with
          | S k => blank_go k rest
          | 0 => false
          end
      end
  end.

(** A continuation byte of UTF-8. *)
Definition is_cont (c : ascii) : bool :=
  ((128 <=? N_of_ascii c) && (N_of_ascii c <=? 191))%N.

(** The first [k] bytes of [s] are there and are continuation bytes. *)
Fixpoint prefix_cont (k : nat) (s : string) : Prop :=
  match k, s with
  | 0, _ => True
  | S k', String c rest => is_cont c = true /\ prefix_cont k' rest
  | S _, EmptyString => False
  end.

(** The three tests of [space_width], by the number of bytes they read. *)
Definition space1 (a : ascii) : bool :=
  let c1 := N_of_ascii a in
  ((9 <=? c1) && (c1 <=? 13) || (c1 =? 32))%N.

Definition space2 (a b : ascii) : bool :=
  let c1 := N_of_ascii a in
  let c2 := N_of_ascii b in
  ((c1 =? 194) && (c2 =? 160))%N.

Definition space3 (a b d : ascii) : bool :=
  let c1 := N_of_ascii a in
  let c2 := N_of_ascii b in
  let c3 := N_of_ascii d in
  ((c1 =? 225) && (c2 =? 154) && (c3 =? 128)
   || (c1 =? 226) && (c2 =? 128)
      && ((128 <=? c3) && (c3 <=? 138) || (c3 =? 168) || (c3 =? 169) || (c3 =? 175))
   || (c1 =? 226) && (c2 =? 129) && (c3 =? 159)
   || (c1 =? 227) && (c2 =? 128) && (c3 =? 128)
   || (c1 =? 239) && (c2 =? 187) && (c3 =? 191))%N.

(* ===================================================================== *)
(** ** Example inputs *)
(* ===================================================================== *)

(** A field with only its mandatory attributes set. *)
Definition basicField (id : string) (type : FieldType) (title : string)
    (required : bool) : FormField :=
  FormField.mk id type title required None None None None None None None None
               None None None.

Definition page (name : string) (fields : list FormField)
    (rule : option NavigationRule) : Step :=
  Step.mk name name "" fields "submit" rule "true".

(** A preview session on page [index] of [pages] with the given answers. *)
Definition preview (pages : list Step) (index : nat) (answers : list (string * value))
  : State :=
  mkState pages false index "Flow" true (list_to_map answers) "".

(** Scenario D of the specification: [city] shows when [country] is ["US"]. *)
Definition countryField : FormField := basicField "country" Select "Country" true.
Definition cityField : FormField :=
  dependent (basicField "city" Text "City" true) (Some "country") (Some "US").
Definition addressPage : Step := page "Address" [countryField; cityField] None.

(** A field that depends on a field the step does not have, with no
    [showWhen]. *)
Definition orphanField : FormField :=
  dependent (basicField "notes" Text "Notes" false) (Some "ghost") None.
Definition orphanPage : Step := page "Orphan" [orphanField] None.

(** A step's worth of fields of every default shape. *)
Definition headingField : FormField := basicField "heading" Title "Welcome" false.
Definition nameField : FormField := basicField "name" Text "Name" true.
Definition tagsField : FormField := basicField "tags" Checkbox "Tags" false.
Definition photoField : FormField := basicField "photo" File "Photo" false.
Definition greetingField : FormField :=
  FormField.mk "greeting" Text "Greeting" false None None (Some (VStr "#client.name"))
               None None None None None None None None.
Definition sampleFields : list FormField :=
  [headingField; nameField; tagsField; photoField; greetingField].

(** Scenario A of the specification: one required text field, nothing
    answered. *)
Definition scenarioA : State := preview [page "Contact" [nameField] None] 0 [].

(** A text field whose id is the name of the prototype accessor. *)
Definition protoField : FormField := basicField "__proto__" Text "Proto" false.

(** Scenario A with a field whose id is a name that every object inherits. *)
Definition inheritedIdField : FormField := basicField "constructor" Text "Constructor" true.
Definition inheritedIdState : State := preview [page "Contact" [inheritedIdField] None] 0 [].

(** A field whose id is the reserved key of the presentation schema. *)
Definition reservedIdField : FormField := basicField "ui:order" Text "Order" false.
Definition reservedIdState : State :=
  preview [page "Reserved" [nameField; reservedIdField] None] 0 [].

(** A flow of two pages with different fields, edited on its first page. *)
Definition firstPage : Step := page "Page A" [basicField "first" Text "First" true] None.
Definition secondPage : Step := page "Page B" [basicField "second" Text "Second" true] None.
Definition twoPages : State :=
  mkState [firstPage; secondPage] false 0 "Flow" false ∅ "".

(** The same flow with [index] as the current page. *)
Definition atPage (index : nat) (st : State) : State :=
  mkState (steps st) (isNewFlow st) index (currentFlowName st)
          (previewMode st) (previewData st) (saveStatus st).

(** Scenario B of the specification: a radio field [color] whose answer
    [Red] leads to the page named [Page 2]. *)
Definition colorField : FormField :=
  FormField.mk "color" Radio "Color" true None (Some ["Red"; "Blue"]) None None None
               None None None None None None.
Definition colorRule : NavigationRule :=
  NavigationRule.mk "color" [Condition.mk "Red" "Page 2"] (Some "continue").
Definition colorPages : list Step :=
  [page "Start" [colorField] (Some colorRule); page "Middle" [] None; page "Page 2" [] None].
Definition scenarioB (answer : string) : State :=
  preview colorPages 0 [("color", VStr answer)].

(** Scenario B with a second required field, which is not answered. *)
Definition blockedState : State :=
  preview [page "Start" [colorField; nameField] (Some colorRule); page "Middle" [] None;
           page "Page 2" [] None]
          0 [("color", VStr "Red")].

(** Scenario E of the specification: the rule names a field that the step no
    longer has; every required field is answered. *)
Definition danglingRule : NavigationRule :=
  NavigationRule.mk "deleted" [Condition.mk "yes" "Page 2"] None.
Definition danglingPages : list Step :=
  [page "Start" [nameField] (Some danglingRule); page "Page 2" [] None].
Definition danglingState : State := preview danglingPages 0 [("name", VStr "Ann")].

(** A rule with no condition whose default ends the form. *)
Definition endRule : NavigationRule := NavigationRule.mk "color" [] (Some "end").
Definition endState : State :=
  preview [page "Start" [colorField] (Some endRule); page "Page 2" [] None] 0
          [("color", VStr "Red")].

(** A rule whose condition value holds a quote. *)
Definition surnameField : FormField := basicField "surname" Text "Surname" true.
Definition quoteRule : NavigationRule :=
  NavigationRule.mk "surname" [Condition.mk "O'Brien" "Summary"] None.
Definition quoteState : State :=
  preview [page "Start" [surnameField] (Some quoteRule); page "Summary" [] None] 0
          [("surname", VStr "O'Brien")].

(** A checkbox rule, and a session in which the driver is not answered. *)
Definition tagsRule : NavigationRule :=
  NavigationRule.mk "tags" [Condition.mk "b" "X"] None.
Definition tagsPages : list Step :=
  [page "Start" [tagsField] (Some tagsRule); page "X" [] None].

(** A checkbox field whose id is a name that every object inherits, with a
    default selection. *)
Definition inheritedDriver : FormField :=
  withDefault (VArr [VStr "a"]) (basicField "constructor" Checkbox "Parts" false).
Definition inheritedDriverState : State :=
  preview [page "Parts" [inheritedDriver] None] 0 [].

(** A file field as [addField] creates it, with a limit of 1 MiB, and a
    small picture. *)
Definition uploadField : FormField :=
  FormField.mk "photo" File "Photo" false None None None None None None None
               (Some ["image/*"]) (Some 1%Z) (Some false) (Some "none").
Definition uploadPage : Step := page "Upload" [uploadField] None.
Definition pngFile : JsFile := JsFile.mk "a.png" 2048 "image/png".
Definition blobUrl (f : JsFile) : string := "blob:" ++ JsFile.name f.

(* ===================================================================== *)
(** * Properties *)
(* ===================================================================== *)

(** ** Values *)

Lemma strict_eq_str_spec (v : value) (s : string) :
  strict_eq_str v s = true <-> v = VStr s.
Proof.
  destruct v; simpl; try (split; [discriminate | intros [=]]).
  rewrite String.eqb_eq. split; [intros -> | intros [= ->]]; reflexivity.
Qed.

Lemma includes_spec (l : list value) (s : string) :
  includes l s = true <-> In (VStr s) l.
Proof.
  unfold includes. rewrite existsb_exists. split.
  - intros (v & Hin & Hv). apply strict_eq_str_spec in Hv. now subst.
  - intros Hin. exists (VStr s). split; [assumption | now apply strict_eq_str_spec].
Qed.

Lemma is_unset_spec (v : value) :
  is_unset v = true <-> v = VUndefined \/ v = VNull \/ v = VStr "".
Proof.
  destruct v; simpl; try (split; [discriminate | intros [|[|]]; discriminate]);
    try (split; auto; fail).
  rewrite String.eqb_eq. split.
  - intros ->. auto.
  - intros [|[|[= ->]]]; try discriminate. reflexivity.
Qed.

Lemma str_falsy_spec (o : option string) :
  str_falsy o = true <-> o = None \/ o = Some "".
Proof.
  destruct o as [s|]; simpl.
  - rewrite String.eqb_eq. split; [intros ->; auto | intros [|[= ->]]; [discriminate | reflexivity]].
  - split; auto.
Qed.

Lemma str_falsy_false (o : option string) :
  str_falsy o = false <-> exists s, o = Some s /\ s <> "".
Proof.
  destruct o as [s|]; simpl.
  - rewrite String.eqb_neq. split; [eauto | intros (s' & [= ->] & H); exact H].
  - split; [discriminate | intros (s & [=] & _)].
Qed.

(** ** Visibility *)

(** C10: a field whose [showWhen] is unset (absent or empty) is visible
    whatever [dependsOn] names and whatever the answers are; hence a field is
    only ever hidden when both [dependsOn] and [showWhen] are set. *)
Theorem isFieldVisible_needs_showWhen (st : State) (field : FormField) :
  (FormField.showWhen field = None \/ FormField.showWhen field = Some "" ->
   isFieldVisible st field = true)
  /\ (isFieldVisible st field = false ->
      (exists d, FormField.dependsOn field = Some d /\ d <> "")
      /\ (exists w, FormField.showWhen field = Some w /\ w <> "")).
Proof.
  split.
  - intros H. apply str_falsy_spec in H. unfold isFieldVisible.
    rewrite H, orb_true_r. reflexivity.
  - unfold isFieldVisible.
    destruct (str_falsy (FormField.dependsOn field)) eqn:Hd; [discriminate |].
    destruct (str_falsy (FormField.showWhen field)) eqn:Hw; [discriminate |].
    intros _. split; now apply str_falsy_false.
Qed.

Lemma isFieldVisible_needs_showWhen_witness :
  isFieldVisible (preview [orphanPage] 0 []) orphanField = true.
Proof.
  apply (proj1 (isFieldVisible_needs_showWhen (preview [orphanPage] 0 []) orphanField)).
  left. reflexivity.
Defined.

(** C4, as stated, fails: the orphan field names a driver the step does not
    have, yet it is visible, because its [showWhen] is unset. *)
Lemma isFieldVisible_dangling_counterexample :
  FormField.dependsOn orphanField = Some "ghost"
  /\ find_field (currentStep (preview [orphanPage] 0 [])) "ghost" = None
  /\ isFieldVisible (preview [orphanPage] 0 []) orphanField = true.
Proof. repeat split. Qed.

(** C4, amended: a field with [dependsOn] or [showWhen] unset is visible;
    with both set (to [d] and [w]), it is hidden when the step has no field
    [d], hidden when the answer of [d] is unset, null or empty, and otherwise
    visible iff the answer is the string [w] (any driver kind but checkbox)
    or is a sequence that contains [w] (checkbox driver). *)
Theorem isFieldVisible_cases (st : State) (field : FormField) :
  (FormField.dependsOn field = None \/ FormField.dependsOn field = Some ""
   \/ FormField.showWhen field = None \/ FormField.showWhen field = Some "" ->
   isFieldVisible st field = true)
  /\ (forall d w,
        FormField.dependsOn field = Some d -> d <> "" ->
        FormField.showWhen field = Some w -> w <> "" ->
        let answer := get (previewData st) d in
        (find_field (currentStep st) d = None -> isFieldVisible st field = false)
        /\ (forall driver,
              find_field (currentStep st) d = Some driver ->
              (answer = VUndefined \/ answer = VNull \/ answer = VStr "" ->
               isFieldVisible st field = false)
              /\ (answer <> VUndefined -> answer <> VNull -> answer <> VStr "" ->
                  (FormField.type driver <> Checkbox ->
                   isFieldVisible st field = true <-> answer = VStr w)
                  /\ (FormField.type driver = Checkbox ->
                      isFieldVisible st field = true <->
                      exists selected, answer = VArr selected /\ In (VStr w) selected)))).
Proof.
  split.
  - intros H. unfold isFieldVisible.
    destruct H as [-> | [-> | [-> | ->]]]; try reflexivity;
      now rewrite orb_true_r.
  - intros d w Hd Hdne Hw Hwne answer. unfold isFieldVisible.
    rewrite Hd, Hw. simpl.
    apply String.eqb_neq in Hdne, Hwne. rewrite Hdne, Hwne. simpl.
    fold answer. split.
    + intros ->. reflexivity.
    + intros driver ->. split.
      * intros H. apply is_unset_spec in H. now rewrite H.
      * intros H1 H2 H3.
        assert (is_unset answer = false) as ->.
        { destruct (is_unset answer) eqn:E; [| reflexivity].
          apply is_unset_spec in E. destruct E as [|[|]]; contradiction. }
        split.
        -- intros Hk. rewrite <- strict_eq_str_spec.
           destruct (FormField.type driver); try reflexivity. contradiction.
        -- intros ->. rewrite includes_spec. split.
           ++ intros Hin. destruct answer; simpl in Hin; try contradiction.
              eexists; split; [reflexivity | assumption].
           ++ intros (selected & -> & Hin). exact Hin.
Qed.

Lemma isFieldVisible_cases_witness :
  isFieldVisible (preview [addressPage] 0 [("country", VStr "US")]) cityField = true
  /\ isFieldVisible (preview [addressPage] 0 [("country", VStr "CA")]) cityField = false
  /\ isFieldVisible (preview [addressPage] 0 []) cityField = false.
Proof.
  split; [| split].
  - pose proof (proj2 (isFieldVisible_cases
                         (preview [addressPage] 0 [("country", VStr "US")]) cityField)
                  "country" "US" eq_refl ltac:(discriminate) eq_refl ltac:(discriminate))
      as [_ H].
    destruct (H countryField eq_refl) as [_ H'].
    destruct H' as [H' _]; try (vm_compute; discriminate).
    apply H'; [discriminate | reflexivity].
  - pose proof (proj2 (isFieldVisible_cases
                         (preview [addressPage] 0 [("country", VStr "CA")]) cityField)
                  "country" "US" eq_refl ltac:(discriminate) eq_refl ltac:(discriminate))
      as [_ H].
    destruct (H countryField eq_refl) as [_ H'].
    destruct H' as [H' _]; try (vm_compute; discriminate).
    destruct (isFieldVisible (preview [addressPage] 0 [("country", VStr "CA")]) cityField)
      eqn:E; [| reflexivity].
    assert (get (previewData (preview [addressPage] 0 [("country", VStr "CA")])) "country"
            = VStr "US") as Habs by (apply H'; [discriminate | reflexivity]).
    vm_compute in Habs. discriminate.
  - pose proof (proj2 (isFieldVisible_cases (preview [addressPage] 0 []) cityField)
                  "country" "US" eq_refl ltac:(discriminate) eq_refl ltac:(discriminate))
      as [_ H].
    destruct (H countryField eq_refl) as [H' _].
    apply H'. left. reflexivity.
Defined.

(** ** Template resolution *)

Lemma inherited_names (key : string) :
  inherited key = None <-> ~ In key inheritedNames.
Proof.
  unfold inherited, objectPrototypeFunction, inheritedNames.
  destruct (key =? "__proto__") eqn:Hproto.
  { apply String.eqb_eq in Hproto. subst key. split; [discriminate |].
    intros H. exfalso. apply H. left. reflexivity. }
  destruct (key =? "constructor") eqn:Hconstructor.
  { apply String.eqb_eq in Hconstructor. subst key. split; [discriminate |].
    intros H. exfalso. apply H. right. left. reflexivity. }
  apply String.eqb_neq in Hproto, Hconstructor.
  destruct (existsb (String.eqb key) objectMethods) eqn:Hmethod.
  - split; [discriminate |]. intros H. exfalso. apply H. right. right.
    apply existsb_exists in Hmethod. destruct Hmethod as (name & Hin & Heq).
    apply String.eqb_eq in Heq. now subst.
  - split; [| reflexivity]. intros _ [Heq | [Heq | Hin]].
    + now apply Hproto.
    + now apply Hconstructor.
    + assert (existsb (String.eqb key) objectMethods = true) as Habs.
      { apply existsb_exists. exists key. split; [assumption | apply String.eqb_refl]. }
      congruence.
Qed.

Lemma objectPrototypeFunction_names (key : string) :
  key <> "__proto__" -> objectPrototypeFunction key = None -> ~ In key inheritedNames.
Proof.
  intros Hproto Hnone. apply inherited_names. unfold inherited.
  apply String.eqb_neq in Hproto. now rewrite Hproto.
Qed.

(** [lacks] is the failure of the test of line 391. *)
Lemma property_lacks (result : walked) (key : string) :
  property result key = None <-> lacks result key.
Proof.
  destruct result as [context | section | s | | | [| name]]; cbn [property lacks];
    try (split; [intros _; exact I | reflexivity]).
  - unfold inheritedMember. rewrite <- inherited_names.
    destruct (context !! key) as [[next |] |]; simpl.
    + split; [discriminate | intros [[=] _]].
    + split; [discriminate | intros [[=] _]].
    + destruct (inherited key); simpl; split; try discriminate; auto.
      * intros [_ [=]].
  - unfold inheritedMember. rewrite <- inherited_names.
    destruct (section !! key) as [[next |] |]; simpl.
    + split; [discriminate | intros [[=] _]].
    + split; [discriminate | intros [[=] _]].
    + destruct (inherited key); simpl; split; try discriminate; auto.
      * intros [_ [=]].
  - rewrite <- inherited_names. unfold inherited.
    destruct (key =? "__proto__"); [split; discriminate |].
    destruct (objectPrototypeFunction key); simpl; split; try discriminate; auto.
Qed.

Lemma walk_keys_reaches (template : value) (context final : walked)
    (keys : list string) :
  reaches context keys final ->
  walk_keys template keys context
  = if truthy (walkedValue final) then walkedValue final else template.
Proof.
  induction 1 as [v | v next final key keys Hprop _ IH]; simpl.
  - reflexivity.
  - rewrite Hprop. exact IH.
Qed.

Lemma walk_keys_stuck (template : value) (context stuck : walked)
    (before after : list string) (key : string) :
  reaches context before stuck ->
  property stuck key = None ->
  walk_keys template (before ++ key :: after) context = template.
Proof.
  induction 1 as [v | v next final k keys Hprop _ IH]; simpl; intros Hnone.
  - now rewrite Hnone.
  - rewrite Hprop. now apply IH.
Qed.

(** The walk either ends on a value or gets stuck on a key: the function is
    total and never throws. *)
Lemma walk_keys_total (context : walked) (keys : list string) :
  (exists final, reaches context keys final)
  \/ (exists before key after stuck,
        keys = (before ++ key :: after)%list
        /\ reaches context before stuck /\ lacks stuck key).
Proof.
  revert context. induction keys as [| key keys IH]; intros context.
  - left. exists context. constructor.
  - destruct (property context key) as [next |] eqn:Hprop.
    + destruct (IH next) as [(final & Hr) | (before & k & after & stuck & -> & Hr & Hn)].
      * left. exists final. econstructor; eassumption.
      * right. exists (key :: before), k, after, stuck. repeat split; [| assumption].
        econstructor; eassumption.
    + right. exists [], key, keys, context.
      split; [reflexivity |]. split; [constructor | now apply property_lacks].
Qed.




(** ** Assignment to a key *)

Lemma assign_insert {A : Type} (key : string) (v : A) (object : gmap string A) :
  key <> "__proto__" -> assign key v object = <[key := v]> object.
Proof. intros H. unfold assign. apply String.eqb_neq in H. now rewrite H. Qed.

Lemma assign_proto {A : Type} (v : A) (object : gmap string A) :
  object !! "__proto__" = None -> assign "__proto__" v object = object.
Proof. intros H. unfold assign. simpl. now rewrite H. Qed.

Lemma assign_lookup_eq {A : Type} (key : string) (v : A) (object : gmap string A) :
  key <> "__proto__" -> assign key v object !! key = Some v.
Proof. intros H. rewrite assign_insert by assumption. apply lookup_insert_eq. Qed.

Lemma assign_lookup_ne {A : Type} (key other : string) (v : A) (object : gmap string A) :
  key <> other -> assign key v object !! other = object !! other.
Proof.
  intros H. unfold assign. destruct (key =? "__proto__").
  - destruct (object !! key); [now apply lookup_insert_ne | reflexivity].
  - now apply lookup_insert_ne.
Qed.

Lemma assign_keeps_proto {A : Type} (key : string) (v : A) (object : gmap string A) :
  object !! "__proto__" = None -> assign key v object !! "__proto__" = None.
Proof.
  intros H. destruct (String.eqb_spec key "__proto__") as [-> | Hne].
  - now rewrite assign_proto.
  - now rewrite assign_lookup_ne.
Qed.

(** ** Default answers *)

Lemma assignAnswer_lookup_eq (key : string) (v : value) (formData : FormData.t) :
  key <> "__proto__" -> FormData.own (assignAnswer key v formData) !! key = Some v.
Proof.
  intros H. unfold assignAnswer. apply String.eqb_neq in H. rewrite H.
  apply lookup_insert_eq.
Qed.

Lemma assignAnswer_lookup_ne (key other : string) (v : value) (formData : FormData.t) :
  key <> other ->
  FormData.own (assignAnswer key v formData) !! other = FormData.own formData !! other.
Proof.
  intros H. unfold assignAnswer. destruct (key =? "__proto__").
  - destruct (FormData.own formData !! key); [now apply lookup_insert_ne |].
    destruct (FormData.setter formData); [| now apply lookup_insert_ne].
    destruct v; reflexivity.
  - now apply lookup_insert_ne.
Qed.

(** With the setter in reach, an assignment to [__proto__] stores nothing. *)
Lemma assignAnswer_setter (v : value) (formData : FormData.t) :
  FormData.own formData !! "__proto__" = None ->
  FormData.setter formData = true ->
  FormData.own (assignAnswer "__proto__" v formData) = FormData.own formData
  /\ FormData.setter (assignAnswer "__proto__" v formData)
     = match v with
       | VNull | VArr _ | VObj _ | VNative _ => reachesSetter v
       | _ => true
       end.
Proof.
  intros Hown Hsetter. unfold assignAnswer. simpl. rewrite Hown, Hsetter.
  destruct v; auto.
Qed.

Lemma formDataStep_synthesized (formData : FormData.t) (field : FormField) :
  formDataStep formData field
  = if is_title field then formData
    else assignAnswer (FormField.id field) (synthesized field) formData.
Proof.
  unfold formDataStep, is_title, synthesized, explicitDefault, emptyValue.
  destruct (FormField.type field); simpl; try reflexivity;
    destruct (FormField.defaultValue field) as [[]|]; try reflexivity;
    destruct (FormField.multiple field) as [[]|]; reflexivity.
Qed.

Lemma formData_untouched (fields : list FormField) (formData : FormData.t)
    (key : string) :
  (forall g, In g fields -> is_title g = false -> FormField.id g <> key) ->
  FormData.own (foldl formDataStep formData fields) !! key
  = FormData.own formData !! key.
Proof.
  revert formData. induction fields as [| f fields IH]; intros formData Hother.
  - reflexivity.
  - simpl. rewrite IH by (intros g Hg; apply Hother; now right).
    rewrite formDataStep_synthesized.
    destruct (is_title f) eqn:Ht; [reflexivity |].
    apply assignAnswer_lookup_ne. apply Hother; [now left | assumption].
Qed.

(** As long as no value assigned under [__proto__] takes the setter out of
    reach, nothing is stored under that key. *)
Lemma formData_no_proto (fields : list FormField) (formData : FormData.t) :
  FormData.own formData !! "__proto__" = None ->
  FormData.setter formData = true ->
  (forall g, In g fields -> is_title g = false -> FormField.id g = "__proto__" ->
             reachesSetter (synthesized g) = true) ->
  FormData.own (foldl formDataStep formData fields) !! "__proto__" = None.
Proof.
  revert formData. induction fields as [| f fields IH]; intros formData Hown Hsetter Hreach.
  - exact Hown.
  - simpl.
    assert (forall g, In g fields -> is_title g = false -> FormField.id g = "__proto__" ->
                      reachesSetter (synthesized g) = true) as Hrest
        by (intros g Hg; apply Hreach; now right).
    rewrite formDataStep_synthesized. destruct (is_title f) eqn:Ht; [now apply IH |].
    destruct (String.eqb_spec (FormField.id f) "__proto__") as [Hid | Hid].
    + rewrite Hid.
      destruct (assignAnswer_setter (synthesized f) formData Hown Hsetter) as [Hsame Hnext].
      apply IH; [now rewrite Hsame | | exact Hrest].
      rewrite Hnext. specialize (Hreach f (or_introl eq_refl) Ht Hid).
      destruct (synthesized f); auto.
    + apply IH; [| | exact Hrest].
      * now rewrite assignAnswer_lookup_ne.
      * unfold assignAnswer. apply String.eqb_neq in Hid. now rewrite Hid.
Qed.

Lemma formData_keys (fields : list FormField) (key : string) :
  key <> "__proto__" ->
  generateFormData fields !! key = None
  <-> forall g, In g fields -> is_title g = false -> FormField.id g <> key.
Proof.
  intros Hkey. unfold generateFormData.
  induction fields as [| f fields IH] using rev_ind.
  - simpl. split; [intros _ g [] | intros _; apply lookup_empty].
  - rewrite foldl_app. cbn [foldl]. rewrite formDataStep_synthesized.
    destruct (is_title f) eqn:Ht.
    + rewrite IH. split; intros H g Hg Hgt.
      * apply in_app_or in Hg. destruct Hg as [Hg | [<- | []]]; [now apply H | congruence].
      * apply H; [apply in_or_app; now left | assumption].
    + destruct (String.eqb_spec (FormField.id f) key) as [<- | Hne].
      * rewrite assignAnswer_lookup_eq by assumption. split; [discriminate |].
        intros H. exfalso. apply (H f); [apply in_or_app; right; now left | assumption | reflexivity].
      * rewrite assignAnswer_lookup_ne by assumption. rewrite IH. split; intros H g Hg Hgt.
        -- apply in_app_or in Hg. destruct Hg as [Hg | [<- | []]]; [now apply H | assumption].
        -- apply H; [apply in_or_app; now left | assumption].
Qed.


(** What the id [__proto__] does after [null]: a file field of that id has
    the default answer [null], which the setter takes as the new prototype;
    the object no longer inherits the setter, and the next assignment to
    [__proto__] stores a property. *)
Lemma generateFormData_proto_after_null :
  generateFormData [basicField "__proto__" File "Upload" false] = ∅
  /\ generateFormData [basicField "__proto__" File "Upload" false; protoField]
     = {["__proto__" := VStr ""]}.
Proof. split; reflexivity. Qed.



(** ** Reading an answer *)

(** What reading a key of a plain object yields, by what the object has of
    its own. *)
Lemma get_own (object : gmap string value) (key : string) (v : value) :
  object !! key = Some v -> get object key = v.
Proof. intros H. unfold get. now rewrite H. Qed.

Lemma get_inherited (object : gmap string value) (key : string) :
  object !! key = None -> In key inheritedNames ->
  exists member, get object key = VNative member.
Proof.
  intros Hnone Hin. unfold get. rewrite Hnone.
  destruct (inherited key) as [member |] eqn:E; [eauto |].
  apply inherited_names in E. contradiction.
Qed.

Lemma get_absent (object : gmap string value) (key : string) :
  object !! key = None -> ~ In key inheritedNames -> get object key = VUndefined.
Proof.
  intros Hnone Hin. unfold get. rewrite Hnone.
  apply inherited_names in Hin. now rewrite Hin.
Qed.

(** ** Step validation *)

Lemma is_missing_spec (v : value) :
  is_missing v = true
  <-> v = VUndefined \/ v = VNull \/ v = VStr "" \/ v = VArr [].
Proof.
  unfold is_missing. rewrite orb_true_iff, is_unset_spec. split.
  - intros [[H | [H | H]] | H]; auto.
    destruct v as [| | | | |[|]| |]; try discriminate. auto.
  - intros [H | [H | [H | ->]]]; auto.
Qed.

(** An answer counts as missing when no answer is stored and the id is not
    a name that the answer record inherits, or when the stored answer is
    undefined, null, the empty string or the empty sequence. *)
Lemma is_missing_get (object : gmap string value) (key : string) :
  is_missing (get object key) = true
  <-> (object !! key = None /\ ~ In key inheritedNames)
      \/ (exists answer,
             object !! key = Some answer
             /\ (answer = VUndefined \/ answer = VNull \/ answer = VStr ""
                 \/ answer = VArr [])).
Proof.
  rewrite is_missing_spec. destruct (object !! key) as [answer |] eqn:Hown.
  - rewrite (get_own _ _ _ Hown). split.
    + intros H. right. eauto.
    + intros [[[=] _] | (answer' & [= <-] & H)]. exact H.
  - destruct (in_dec String.string_dec key inheritedNames) as [Hin | Hout].
    + destruct (get_inherited _ _ Hown Hin) as (member & ->). split.
      * intros [H | [H | [H | H]]]; discriminate.
      * intros [[_ H] | (answer & [=] & _)]. contradiction.
    + rewrite (get_absent _ _ Hown Hout). split; [intros _; now left | now left].
Qed.

Lemma previewCheck_filter (st : State) (fields : list FormField) (errors : list string) :
  foldl (previewCheck st) errors fields
  = (errors ++ map requiredMessage (List.filter (missing_required st) fields))%list.
Proof.
  revert errors. induction fields as [| f fields IH]; intros errors; simpl.
  - now rewrite app_nil_r.
  - rewrite IH. unfold previewCheck, missing_required, push.
    destruct (FormField.required f && negb (FieldType_eqb (FormField.type f) Title)
              && isFieldVisible st f); simpl; [| reflexivity].
    destruct (is_missing (get (previewData st) (FormField.id f))); simpl; [| reflexivity].
    now rewrite <- app_assoc.
Qed.




(** ** Schema compiler *)

Lemma schemaStep_thrown (fields : list FormField) :
  foldl schemaStep None fields = None.
Proof. induction fields as [| f fields IH]; [reflexivity | exact IH]. Qed.

Lemma answerableIds_cons (f : FormField) (fields : list FormField) :
  answerableIds (f :: fields)
  = if is_title f then answerableIds fields
    else FormField.id f :: answerableIds fields.
Proof. unfold answerableIds. simpl. now destruct (is_title f). Qed.

Lemma schemaStep_title (acc : JsonSchema.t * gmap string UiEntry) (f : FormField) :
  is_title f = true -> schemaStep (Some acc) f = Some acc.
Proof.
  unfold is_title, schemaStep. destruct acc as [jsonSchema uiSchema].
  destruct (FormField.type f); try discriminate. reflexivity.
Qed.

Lemma schemaStep_field (jsonSchema : JsonSchema.t) (uiSchema : gmap string UiEntry)
    (order : list string) (f : FormField) :
  is_title f = false ->
  FormField.id f <> "ui:order" ->
  uiSchema !! "ui:order" = Some (UiOrder order) ->
  exists jsonSchema',
    schemaStep (Some (jsonSchema, uiSchema)) f
    = Some (jsonSchema',
            <["ui:order" := UiOrder (order ++ [FormField.id f])]>
              (assign (FormField.id f) (UiField (buildUiConfig f)) uiSchema)).
Proof.
  intros Ht Hne Horder. unfold is_title in Ht. unfold schemaStep, pushOrder.
  rewrite assign_lookup_ne, Horder by assumption.
  destruct (FormField.type f); try discriminate; eexists; reflexivity.
Qed.

Lemma schemaStep_order (fields : list FormField) (jsonSchema : JsonSchema.t)
    (uiSchema : gmap string UiEntry) (order : list string) :
  uiSchema !! "ui:order" = Some (UiOrder order) ->
  (forall f, In f fields -> is_title f = false -> FormField.id f <> "ui:order") ->
  exists jsonSchema' uiSchema',
    foldl schemaStep (Some (jsonSchema, uiSchema)) fields = Some (jsonSchema', uiSchema')
    /\ uiSchema' !! "ui:order" = Some (UiOrder (order ++ answerableIds fields)).
Proof.
  revert jsonSchema uiSchema order.
  induction fields as [| f fields IH]; intros jsonSchema uiSchema order Horder Hids.
  - exists jsonSchema, uiSchema. split; [reflexivity |].
    unfold answerableIds. simpl. now rewrite app_nil_r.
  - assert (forall g, In g fields -> is_title g = false -> FormField.id g <> "ui:order")
      as Hrest by (intros g Hg; apply Hids; now right).
    rewrite answerableIds_cons.
    change (foldl schemaStep (Some (jsonSchema, uiSchema)) (f :: fields))
      with (foldl schemaStep (schemaStep (Some (jsonSchema, uiSchema)) f) fields).
    destruct (is_title f) eqn:Ht.
    + rewrite schemaStep_title by assumption. now apply IH.
    + assert (FormField.id f <> "ui:order") as Hne by (apply Hids; [now left | assumption]).
      destruct (schemaStep_field jsonSchema uiSchema order f Ht Hne Horder)
        as (jsonSchema1 & ->).
      edestruct (IH jsonSchema1) as (jsonSchema' & uiSchema' & Hfold & Hlookup);
        [apply lookup_insert_eq | exact Hrest |].
      exists jsonSchema', uiSchema'. split; [exact Hfold |].
      rewrite Hlookup. now rewrite <- app_assoc.
Qed.

(** For every current step none of whose non-title fields has the id
    ["ui:order"], the compile returns, and the order list of its presentation
    schema is the step's ids with the title fields dropped. *)
Lemma generateAllSchemas_order (st : State) (step : Step) :
  currentStep st = Some step ->
  (forall f, In f (Step.fields step) -> FormField.type f <> Title ->
             FormField.id f <> "ui:order") ->
  exists schemas,
    generateAllSchemas st = Some schemas
    /\ uiOrder schemas = Some (answerableIds (Step.fields step)).
Proof.
  intros Hstep Hids. unfold generateAllSchemas. rewrite Hstep.
  destruct (schemaStep_order (Step.fields step)
              (JsonSchema.mk "object" (Step.description step) ∅ [])
              initialUiSchema [])
    as (jsonSchema' & uiSchema' & Hfold & Hlookup).
  - reflexivity.
  - intros f Hf Ht. apply Hids; [assumption |].
    unfold is_title in Ht. intros E. rewrite E in Ht. discriminate.
  - rewrite Hfold. eexists. split; [reflexivity |]. simpl. now rewrite Hlookup.
Qed.

Lemma generateAllSchemas_order_example :
  exists schemas,
    generateAllSchemas (preview [page "Sample" sampleFields None] 0 []) = Some schemas
    /\ uiOrder schemas = Some ["name"; "tags"; "photo"; "greeting"].
Proof.
  apply (generateAllSchemas_order (preview [page "Sample" sampleFields None] 0 [])
           (page "Sample" sampleFields None) eq_refl).
  intros f Hf _. simpl in Hf.
  destruct Hf as [<- | [<- | [<- | [<- | [<- | []]]]]]; discriminate.
Qed.

(** C9 fails on the code for one id: a field called ["ui:order"] overwrites
    the order list with its own widget configuration, the following [push]
    has no array to push to, and the compile throws instead of returning a
    presentation schema. *)
Theorem generateAllSchemas_reserved_id :
  currentStep reservedIdState = Some (page "Reserved" [nameField; reservedIdField] None)
  /\ answerableIds [nameField; reservedIdField] = ["name"; "ui:order"]
  /\ generateAllSchemas reservedIdState = None.
Proof. repeat split. Qed.

(** ** Flow export *)

Lemma mapM_imap_Some {A B : Type} (g : nat -> A -> B) (l : list A) :
  mapM id (imap (fun i x => Some (g i x)) l) = Some (imap g l).
Proof.
  revert g. induction l as [| x l IH]; intros g.
  - reflexivity.
  - cbn. specialize (IH (g ∘ S)). unfold compose in *.
    cbn in IH. rewrite IH. reflexivity.
Qed.

Lemma imap_exportStep (st : State) (schemas : Schemas) (l : list Step) :
  generateAllSchemas st = Some schemas ->
  imap (exportStep st) l
  = imap (fun index step =>
            Some (StepEntry.mk (Step.id step) (Step.name step) (Step.description step)
                    (index + 1) schemas)) l.
Proof.
  intros H. apply imap_ext. intros i x _. unfold exportStep. now rewrite H.
Qed.

Lemma imap_exportStep_throws (st : State) (l : list Step) :
  generateAllSchemas st = None -> l <> [] -> mapM id (imap (exportStep st) l) = None.
Proof.
  intros H Hl. destruct l as [| x l]; [contradiction |].
  cbn. unfold exportStep. rewrite H. reflexivity.
Qed.

(** What the export holds: one entry per step, in order, and in every entry
    the compile result of the step being edited. *)
Lemma exportCompleteFlow_entries (st st' : State) (created : string)
    (document : FlowData.t) :
  exportCompleteFlow st created = Exported st' document ->
  exists schemas,
    generateAllSchemas st = Some schemas
    /\ FlowData.steps document
       = imap (fun index step =>
                 StepEntry.mk (Step.id step) (Step.name step) (Step.description step)
                   (index + 1) schemas)
              (parsedSteps st).
Proof.
  unfold exportCompleteFlow, flowData.
  destruct (parsedSteps st) as [| s l] eqn:Hsteps; [discriminate |].
  destruct (generateAllSchemas st) as [schemas |] eqn:Hgen.
  - rewrite (imap_exportStep st schemas) by assumption.
    rewrite mapM_imap_Some. intros [= _ <-]. exists schemas. split; reflexivity.
  - rewrite imap_exportStep_throws by (assumption || discriminate). discriminate.
Qed.

(** C3 fails on the code: with the first page current, the entry exported
    for the second page carries the schemas of the first page (its order list
    is [first]), not those of its own fields (whose compile lists
    [second]). *)
Theorem exportCompleteFlow_repeats_current_step :
  exists st' document,
    exportCompleteFlow twoPages "2024-01-01T00:00:00.000Z" = Exported st' document
    /\ map StepEntry.name (FlowData.steps document) = ["Page A"; "Page B"]
    /\ map StepEntry.order (FlowData.steps document) = [1; 2]
    /\ map (fun entry => Some (StepEntry.schemas entry)) (FlowData.steps document)
       = [generateAllSchemas twoPages; generateAllSchemas twoPages]
    /\ map (fun entry => uiOrder (StepEntry.schemas entry)) (FlowData.steps document)
       = [Some ["first"]; Some ["first"]]
    /\ (uiOrder <$> generateAllSchemas (atPage 1 twoPages)) = Some (Some ["second"]).
Proof.
  destruct (exportCompleteFlow twoPages "2024-01-01T00:00:00.000Z") as [| | st' document] eqn:E;
    try (vm_compute in E; discriminate).
  exists st', document. split; [reflexivity |].
  destruct (exportCompleteFlow_entries _ _ _ _ E) as (schemas & Hgen & ->).
  rewrite Hgen. cbn.
  assert (uiOrder schemas = Some ["first"]) as ->.
  { revert Hgen. destruct (generateAllSchemas_order twoPages firstPage eq_refl)
      as (schemas' & -> & Horder).
    - intros f [<- | []] _. discriminate.
    - intros [= <-]. exact Horder. }
  repeat split.
Qed.

(** ** Next-step evaluation *)

Lemma findIndex_Some {A : Type} (p : A -> bool) (l : list A) (i : nat) (x : A) :
  l !! i = Some x ->
  p x = true ->
  (forall j y, j < i -> l !! j = Some y -> p y = false) ->
  findIndex p l = Some i.
Proof.
  revert i. induction l as [| a l IH]; intros i Hi Hp Hbefore.
  - discriminate.
  - destruct i as [| i]; simpl in *.
    + injection Hi as ->. now rewrite Hp.
    + rewrite (Hbefore 0 a) by (lia || reflexivity).
      rewrite (IH i Hi Hp); [reflexivity |].
      intros j y Hj Hy. apply (Hbefore (S j) y); [lia | exact Hy].
Qed.

Lemma findIndex_None {A : Type} (p : A -> bool) (l : list A) :
  (forall x, In x l -> p x = false) -> findIndex p l = None.
Proof.
  induction l as [| a l IH]; intros H; simpl.
  - reflexivity.
  - rewrite (H a) by now left. rewrite IH; [reflexivity |].
    intros x Hx. apply H. now right.
Qed.

Lemma first_match_deterministic (matches : Condition.t -> Prop)
    (conds : list Condition.t) (fallback t1 t2 : string) :
  first_match matches conds fallback t1 ->
  first_match matches conds fallback t2 ->
  t1 = t2.
Proof.
  induction 1 as [fb | c rest fb Hm | c rest fb t Hn _ IH]; intros H2;
    inversion H2; subst; try reflexivity; try contradiction.
  now apply IH.
Qed.

Lemma checkbox_matches (answer : value) (s : string) :
  includes (array_or_empty answer) s = true
  <-> exists selected, answer = VArr selected /\ In (VStr s) selected.
Proof.
  rewrite includes_spec. split.
  - intros H. destruct answer; simpl in H; try contradiction. eauto.
  - intros (selected & -> & H). exact H.
Qed.

Lemma first_match_find (matches : Condition.t -> Prop) (test : Condition.t -> bool)
    (conds : list Condition.t) (fallback : string) :
  (forall c, test c = true <-> matches c) ->
  first_match matches conds fallback
    (match find test conds with
     | Some matchedCondition => Condition.nextStepName matchedCondition
     | None => fallback
     end).
Proof.
  intros Htest. induction conds as [| c conds IH]; simpl.
  - constructor.
  - destruct (test c) eqn:E.
    + constructor. now apply Htest.
    + constructor; [| exact IH]. intros Hm. apply Htest in Hm. congruence.
Qed.

(** The target computed by lines 1366-1378 is the first match of the
    specification's policy. *)
Lemma resolveTarget_first_match (rule : NavigationRule) (driver : FormField)
    (answer : value) :
  first_match (answer_matches driver answer) (NavigationRule.conditions rule)
    (str_or (NavigationRule.defaultStepName rule) "continue")
    (resolveTarget rule driver answer).
Proof.
  unfold resolveTarget, answer_matches.
  destruct (FormField.type driver);
    try (apply first_match_find; intros c; apply strict_eq_str_spec).
  apply first_match_find. intros c. apply checkbox_matches.
Qed.

Lemma answer_incomplete_false (answer : value) :
  answer <> VUndefined -> answer <> VStr "" -> answer <> VArr [] ->
  answer_incomplete answer = false.
Proof.
  intros H1 H2 H3. destruct answer as [| | | | s | [|] | |]; simpl; try reflexivity;
    try contradiction.
  apply String.eqb_neq. intros ->. contradiction.
Qed.

(** Past validation and the guard on the driver's answer, the handler acts
    on the resolved target. *)
Lemma executeNavigation_dispatch (st : State) (step : Step) (rule : NavigationRule)
    (driver : FormField) :
  currentStep st = Some step ->
  Validation.valid (validateCurrentStep st) = true ->
  Step.navigationRule step = Some rule ->
  find_field (Some step) (NavigationRule.fieldId rule) = Some driver ->
  answer_incomplete (get (previewData st) (NavigationRule.fieldId rule)) = false ->
  executeNavigation st
  = dispatchTarget st
      (resolveTarget rule driver (get (previewData st) (NavigationRule.fieldId rule))).
Proof.
  intros Hstep Hvalid Hrule Hdriver Hanswer. unfold executeNavigation.
  rewrite Hstep, Hvalid, Hrule. simpl in *. rewrite Hdriver, Hanswer. reflexivity.
Qed.

(** C5, as stated, fails: the step has a rule on [color], the driver's
    answer [Red] is not empty and the rule sends it to [Page 2], a page of
    the flow; but another required field of the step is unanswered, so the
    handler does not navigate: it stays on page 0, keeps the answers and
    reports one validation error. *)
Lemma executeNavigation_blocked_counterexample :
  currentStep blockedState
  = Some (page "Start" [colorField; nameField] (Some colorRule))
  /\ find_field (currentStep blockedState) (NavigationRule.fieldId colorRule)
     = Some colorField
  /\ get (previewData blockedState) (NavigationRule.fieldId colorRule) = VStr "Red"
  /\ resolveTarget colorRule colorField (VStr "Red") = "Page 2"
  /\ Step.name <$> parsedSteps blockedState !! 2 = Some "Page 2"
  /\ currentStepIndex (executeNavigation blockedState) = 0
  /\ previewData (executeNavigation blockedState) = previewData blockedState
  /\ saveStatus (executeNavigation blockedState) = "⚠️ 1 validation error(s)".
Proof. repeat split. Qed.

(** C5, amended: take a step with a navigation rule whose driver is a field
    of the step and has a non-empty answer.  When the step does not pass
    validation the handler does not navigate: page and answers stay and the
    status counts the errors.  When it passes, the target is the first match
    in listed order (containment for a checkbox driver, equality otherwise)
    or else the default or ['continue']; and ['continue'] shows the next
    page, or on the last page reports completion; ['end'] reports the end of
    the form; ['skip'] shows the last page; the name of a page shows (the
    first) page of that name; any other name is reported as not found.
    Showing a page clears the answers and keeps the status; a report changes
    the status only. *)
Theorem executeNavigation_outcome (st : State) (step : Step) (rule : NavigationRule)
    (driver : FormField) :
  currentStep st = Some step ->
  Step.navigationRule step = Some rule ->
  find_field (Some step) (NavigationRule.fieldId rule) = Some driver ->
  let answer := get (previewData st) (NavigationRule.fieldId rule) in
  answer <> VUndefined -> answer <> VStr "" -> answer <> VArr [] ->
  let fallback := str_or (NavigationRule.defaultStepName rule) "continue" in
  let st' := executeNavigation st in
  (Validation.valid (validateCurrentStep st) = false ->
   stays_with ("⚠️ " ++ pretty (length (Validation.errors (validateCurrentStep st)))
                 ++ " validation error(s)") st st')
  /\ (Validation.valid (validateCurrentStep st) = true ->
      (exists target,
          first_match (answer_matches driver answer) (NavigationRule.conditions rule)
            fallback target)
      /\ (forall target,
            first_match (answer_matches driver answer) (NavigationRule.conditions rule)
              fallback target ->
            (target = "continue" ->
             (currentStepIndex st + 1 < length (parsedSteps st) ->
              shows (currentStepIndex st + 1) st st')
             /\ (length (parsedSteps st) <= currentStepIndex st + 1 ->
                 stays_with "🎉 Form Complete!" st st'))
            /\ (target = "end" -> stays_with "🛑 Form ended based on selection" st st')
            /\ (target = "skip" -> shows (length (parsedSteps st) - 1) st st')
            /\ (target <> "continue" -> target <> "end" -> target <> "skip" ->
                (forall index s,
                    parsedSteps st !! index = Some s ->
                    Step.name s = target ->
                    (forall j s', j < index -> parsedSteps st !! j = Some s' ->
                                  Step.name s' <> target) ->
                    shows index st st')
                /\ ((forall s, In s (parsedSteps st) -> Step.name s <> target) ->
                    stays_with ("❓ Target " ++ dq ++ target ++ dq ++ " not found")
                               st st')))).
Proof.
  intros Hstep Hrule Hdriver answer H1 H2 H3 fallback st'. split.
  { intros Hvalid. subst st'. unfold executeNavigation.
    rewrite Hstep, Hvalid. repeat split. }
  intros Hvalid.
  pose proof (resolveTarget_first_match rule driver answer) as Hfirst.
  split; [eexists; exact Hfirst |].
  intros target Htarget.
  assert (target = resolveTarget rule driver answer) as Heq
      by (eapply first_match_deterministic; eassumption).
  subst st'.
  rewrite (executeNavigation_dispatch st step rule driver Hstep Hvalid Hrule Hdriver
             (answer_incomplete_false _ H1 H2 H3)).
  fold answer. rewrite <- Heq. clear Heq Hfirst Htarget.
  unfold dispatchTarget. split; [| split; [| split]].
  - intros ->. simpl. unfold continueFlow. split; intros Hlen.
    + assert ((currentStepIndex st <? length (parsedSteps st) - 1)%nat = true) as ->
          by (apply Nat.ltb_lt; lia).
      repeat split.
    + assert ((currentStepIndex st <? length (parsedSteps st) - 1)%nat = false) as ->
          by (apply Nat.ltb_ge; lia).
      repeat split.
  - intros ->. repeat split.
  - intros ->. repeat split.
  - intros Hc He Hs. apply String.eqb_neq in Hc, He, Hs. rewrite Hc, He, Hs. split.
    + intros index s Hlook Hname Hfirst.
      rewrite (findIndex_Some _ _ index s Hlook); [repeat split | now apply String.eqb_eq |].
      intros j s' Hj Hs'. apply String.eqb_neq. eapply Hfirst; eassumption.
    + intros Hnone. rewrite findIndex_None; [repeat split |].
      intros s Hin. apply String.eqb_neq. now apply Hnone.
Qed.

Lemma executeNavigation_outcome_witness :
  shows 2 (scenarioB "Red") (executeNavigation (scenarioB "Red"))
  /\ shows 1 (scenarioB "Blue") (executeNavigation (scenarioB "Blue"))
  /\ stays_with "⚠️ 1 validation error(s)" blockedState (executeNavigation blockedState).
Proof.
  split; [| split].
  - destruct (executeNavigation_outcome (scenarioB "Red")
                (page "Start" [colorField] (Some colorRule)) colorRule colorField
                eq_refl eq_refl eq_refl
                ltac:(discriminate) ltac:(discriminate) ltac:(discriminate))
      as [_ H].
    destruct (H eq_refl) as [_ H'].
    destruct (H' "Page 2") as (_ & _ & _ & Hjump).
    + apply (first_match_here _ (Condition.mk "Red" "Page 2")). reflexivity.
    + destruct Hjump as [Hjump _]; try discriminate.
      apply (Hjump 2 (page "Page 2" [] None)); [reflexivity | reflexivity |].
      intros j s' Hj Hs'. destruct j as [| [| j]]; [| | lia];
        cbn in Hs'; injection Hs' as <-; discriminate.
  - destruct (executeNavigation_outcome (scenarioB "Blue")
                (page "Start" [colorField] (Some colorRule)) colorRule colorField
                eq_refl eq_refl eq_refl
                ltac:(discriminate) ltac:(discriminate) ltac:(discriminate))
      as [_ H].
    destruct (H eq_refl) as [_ H'].
    destruct (H' "continue") as (Hcontinue & _).
    + apply (first_match_later _ (Condition.mk "Red" "Page 2")).
      * intros [=].
      * apply first_match_none.
    + destruct (Hcontinue eq_refl) as [Hadvance _].
      apply Hadvance. simpl. lia.
  - destruct (executeNavigation_outcome blockedState
                (page "Start" [colorField; nameField] (Some colorRule)) colorRule colorField
                eq_refl eq_refl eq_refl
                ltac:(discriminate) ltac:(discriminate) ltac:(discriminate))
      as [H _].
    apply H. reflexivity.
Defined.




(** How the editor itself handles a deleted driver: [deleteField] removes the
    rule together with the field, and from then on the handler continues. *)
Lemma deleteField_removes_rule (st : State) (step : Step) (rule : NavigationRule) :
  currentStep st = Some step ->
  Step.navigationRule step = Some rule ->
  exists step',
    currentStep (deleteField (NavigationRule.fieldId rule) st) = Some step'
    /\ Step.navigationRule step' = None
    /\ (Validation.valid (validateCurrentStep (deleteField (NavigationRule.fieldId rule) st))
        = true ->
        executeNavigation (deleteField (NavigationRule.fieldId rule) st)
        = continueFlow (deleteField (NavigationRule.fieldId rule) st)).
Proof.
  intros Hstep Hrule.
  set (fieldId := NavigationRule.fieldId rule).
  assert (currentStep (deleteField fieldId st) = Some (withoutField fieldId step)) as Hcur.
  { unfold deleteField. rewrite Hstep. unfold currentStep in *.
    pose proof (lookup_lt_Some _ _ _ Hstep) as Hlt.
    assert (parsedSteps (setSteps (<[currentStepIndex st := withoutField fieldId step]>
                                     (parsedSteps st)) st)
            = <[currentStepIndex st := withoutField fieldId step]> (parsedSteps st)) as ->.
    { unfold parsedSteps at 1. simpl.
      destruct (<[currentStepIndex st := withoutField fieldId step]> (parsedSteps st))
        as [| s l] eqn:E; [| reflexivity].
      apply (f_equal length) in E. rewrite length_insert in E. simpl in E. lia. }
    simpl. now apply list_lookup_insert_eq. }
  assert (Step.navigationRule (withoutField fieldId step) = None) as Hnone.
  { unfold withoutField. simpl. rewrite Hrule. subst fieldId.
    now rewrite String.eqb_refl. }
  exists (withoutField fieldId step). repeat split; [exact Hcur | exact Hnone |].
  intros Hvalid. unfold executeNavigation. now rewrite Hcur, Hvalid, Hnone.
Qed.

(** ** The navigation expression and the evaluator *)

Import JsExpr.

(** *** Strings *)

Lemma append_nil_l (b : string) : "" ++ b = b.
Proof. reflexivity. Qed.

Lemma append_cons (x : ascii) (a b : string) : String x a ++ b = String x (a ++ b).
Proof. reflexivity. Qed.

Lemma append_assoc (a b c : string) : (a ++ b) ++ c = a ++ (b ++ c).
Proof.
  induction a as [| x a IH]; [reflexivity |].
  now rewrite !append_cons, IH.
Qed.

Lemma append_nil_r (a : string) : a ++ "" = a.
Proof. induction a as [| x a IH]; [reflexivity |]. now rewrite append_cons, IH. Qed.

(** *** Lexing: the built string has the tokens of the chain *)

Lemma emit_nil (r : result (list token)) : emit [] r = r.
Proof. now destruct r. Qed.

Lemma emit_emit (a b : list token) (r : result (list token)) :
  emit a (emit b r) = emit (a ++ b) r.
Proof. destruct r; simpl; [now rewrite app_assoc | reflexivity]. Qed.

Lemma lex_from_cons (m : mode) (c : ascii) (rest : string) :
  lex_from m (String c rest)
  = match step m c with
    | Ok (ts, m') => emit ts (lex_from m' rest)
    | Err e => Err e
    end.
Proof. reflexivity. Qed.

Lemma lex_identifier_tail (x acc rest : string) :
  all_chars ident_part x = true ->
  lex_from (InIdent acc) (x ++ rest) = lex_from (InIdent (acc ++ x)) rest.
Proof.
  revert acc. induction x as [| c x IH]; intros acc Hx.
  - now rewrite append_nil_l, append_nil_r.
  - simpl in Hx. apply andb_prop in Hx. destruct Hx as [Hc Hx].
    rewrite append_cons, lex_from_cons. cbn [step].
    rewrite Hc. rewrite emit_nil, IH by assumption.
    unfold snoc. now rewrite append_assoc, append_cons, append_nil_l.
Qed.

Lemma lex_identifier (x rest : string) :
  is_identifier x = true ->
  lex_from Start (x ++ rest) = lex_from (InIdent x) rest.
Proof.
  destruct x as [| c x]; [discriminate |]. intros H. simpl in H.
  apply andb_prop in H. destruct H as [Hc Hx].
  rewrite append_cons, lex_from_cons. cbn [step].
  unfold step_start. rewrite Hc, emit_nil.
  now rewrite lex_identifier_tail, append_cons, append_nil_l.
Qed.

Lemma lex_string_body (s acc rest : string) :
  plain s = true ->
  lex_from (InString acc) (s ++ String quote rest)
  = emit [TString (acc ++ s)] (lex_from Start rest).
Proof.
  revert acc. induction s as [| c s IH]; intros acc Hs.
  - rewrite append_nil_l, append_nil_r. reflexivity.
  - rewrite append_cons, lex_from_cons. unfold plain in Hs. simpl in Hs.
    apply andb_prop in Hs. destruct Hs as [Hc Hs].
    unfold plain_char in Hc.
    repeat (apply andb_prop in Hc; destruct Hc as [Hc ?]).
    cbn [step].
    apply negb_true_iff in Hc, H, H0, H1. rewrite Hc, H1, H0, H. cbn [orb].
    rewrite emit_nil, IH by assumption. unfold snoc.
    now rewrite append_assoc, append_cons, append_nil_l.
Qed.

(** One concrete character of the input: compute the step of the lexer. *)
Ltac lex_char :=
  rewrite ?append_cons, ?append_nil_l; rewrite lex_from_cons;
  match goal with
  | |- context [step ?m ?c] =>
      let r := eval vm_compute in (step m c) in
      change (step m c) with r
  end;
  cbv iota beta; rewrite ?emit_nil.

Lemma lex_formData (rest : string) :
  lex_from Start ("formData." ++ rest) = emit [TIdent "formData"; TDot] (lex_from Start rest).
Proof. do 9 lex_char. reflexivity. Qed.

Lemma lex_string (s rest : string) :
  plain s = true ->
  lex_from Start (String quote (s ++ String quote rest))
  = emit [TString s] (lex_from Start rest).
Proof.
  intros Hs. lex_char. now rewrite lex_string_body.
Qed.

Lemma lex_condition (checkbox : bool) (fieldId : string) (cond : Condition.t)
    (rest : string) :
  is_identifier fieldId = true ->
  plain (Condition.value cond) = true ->
  plain (Condition.nextStepName cond) = true ->
  lex_from Start (expressionCondition checkbox fieldId cond ++ " : " ++ rest)
  = emit (test_tokens checkbox fieldId (Condition.value cond)
            ++ [TQuestion; TString (Condition.nextStepName cond); TColon])
         (lex_from Start rest).
Proof.
  intros Hid Hv Hn. unfold expressionCondition, test_tokens.
  destruct checkbox.
  - rewrite !append_assoc. rewrite lex_formData, lex_identifier by assumption.
    do 10 lex_char. rewrite lex_string by assumption.
    do 4 lex_char. rewrite lex_string by assumption.
    do 3 lex_char. rewrite !emit_emit. reflexivity.
  - rewrite !append_assoc. rewrite lex_formData, lex_identifier by assumption.
    do 5 lex_char. rewrite lex_string by assumption.
    do 3 lex_char. rewrite lex_string by assumption.
    do 3 lex_char. rewrite !emit_emit. reflexivity.
Qed.

Lemma lex_chain (checkbox : bool) (fieldId : string) (conds : list Condition.t)
    (fallback : string) :
  is_identifier fieldId = true ->
  Forall (fun cond => plain (Condition.value cond) = true
                      /\ plain (Condition.nextStepName cond) = true) conds ->
  plain fallback = true ->
  lex (chain_source checkbox fieldId conds fallback)
  = Ok (chain_tokens checkbox fieldId conds fallback).
Proof.
  intros Hid Hconds Hfb. unfold lex.
  induction Hconds as [| cond conds [Hv Hn] _ IH]; cbn [chain_source chain_tokens].
  - rewrite append_cons, append_nil_l.
    replace ("'" : string) with (String "'" "") by reflexivity.
    rewrite lex_string by assumption. reflexivity.
  - rewrite lex_condition, IH by assumption. cbn [emit].
    now rewrite <- app_assoc.
Qed.

(** The [join] of the conditions followed by the default is the chain. *)
Lemma concat_chain (checkbox : bool) (fieldId : string) (conds : list Condition.t)
    (fallback : string) :
  conds <> [] ->
  String.concat " : " (map (expressionCondition checkbox fieldId) conds)
    ++ " : '" ++ fallback ++ "'"
  = chain_source checkbox fieldId conds fallback.
Proof.
  induction conds as [| cond conds IH]; [contradiction |]. intros _.
  destruct conds as [| cond' conds].
  - cbn [map String.concat chain_source]. rewrite !append_cons, append_nil_l.
    reflexivity.
  - change (String.concat " : " (map (expressionCondition checkbox fieldId) (cond :: cond' :: conds)))
      with (expressionCondition checkbox fieldId cond ++ " : "
              ++ String.concat " : " (map (expressionCondition checkbox fieldId) (cond' :: conds))).
    rewrite !append_assoc. rewrite IH by discriminate. reflexivity.
Qed.

(** *** Parsing: the tokens have the syntax tree of the chain, and the fuel
    of [parseExpression] is enough for it *)

Lemma parse_conditional (fuel : nat) (ts : list token) :
  parse (S fuel) NCond ts
  = match parse fuel NEquality ts with
    | Ok (c, TQuestion :: r) =>
        match parse fuel NCond r with
        | Ok (t, TColon :: r') =>
            match parse fuel NCond r' with
            | Ok (f, r'') => Ok (ECond c t f, r'')
            | Err x => Err x
            end
        | Ok _ => Err SyntaxError
        | Err x => Err x
        end
    | other => other
    end.
Proof. reflexivity. Qed.

Lemma parse_literal (fuel : nat) (s : string) (r : list token) :
  4 <= fuel ->
  parse fuel NCond (TString s :: TColon :: r) = Ok (EString s, TColon :: r)
  /\ parse fuel NCond [TString s] = Ok (EString s, []).
Proof.
  intros H. do 4 (destruct fuel as [| fuel]; [lia |]). split; reflexivity.
Qed.

Lemma parse_test (checkbox : bool) (fieldId value : string) (r : list token)
    (fuel : nat) :
  10 <= fuel ->
  parse fuel NEquality (test_tokens checkbox fieldId value ++ TQuestion :: r)
  = Ok (test_expr checkbox fieldId value, TQuestion :: r).
Proof.
  intros H. do 10 (destruct fuel as [| fuel]; [lia |]).
  destruct checkbox; reflexivity.
Qed.

Lemma parse_chain (checkbox : bool) (fieldId : string) (conds : list Condition.t)
    (fallback : string) (fuel : nat) :
  length conds + 11 <= fuel ->
  parse fuel NCond (chain_tokens checkbox fieldId conds fallback)
  = Ok (chain_expr checkbox fieldId conds fallback, []).
Proof.
  revert fuel. induction conds as [| cond conds IH]; intros fuel H.
  - apply (parse_literal fuel fallback []). simpl in H. lia.
  - simpl in H. destruct fuel as [| fuel]; [lia |].
    cbn [chain_tokens chain_expr]. rewrite parse_conditional.
    rewrite parse_test by lia.
    assert (4 <= fuel) as H4 by lia.
    rewrite (proj1 (parse_literal fuel _ _ H4)).
    rewrite IH by lia. reflexivity.
Qed.

Lemma chain_tokens_length (checkbox : bool) (fieldId : string)
    (conds : list Condition.t) (fallback : string) :
  length conds + 1 <= length (chain_tokens checkbox fieldId conds fallback).
Proof.
  induction conds as [| cond conds IH]; simpl; [lia |].
  rewrite length_app. simpl. lia.
Qed.

Lemma parseExpression_chain (checkbox : bool) (fieldId : string)
    (conds : list Condition.t) (fallback : string) :
  parseExpression (chain_tokens checkbox fieldId conds fallback)
  = Ok (chain_expr checkbox fieldId conds fallback).
Proof.
  unfold parseExpression. rewrite parse_chain; [reflexivity |].
  pose proof (chain_tokens_length checkbox fieldId conds fallback). lia.
Qed.

(** *** Evaluating: the syntax tree picks the first match *)

Lemma strict_equal_string (v : value) (s : string) :
  strict_equal v (VStr s) = Ok (strict_eq_str v s).
Proof. destruct v; reflexivity. Qed.

Lemma eval_chain_equality (formData : gmap string value) (fieldId : string)
    (conds : list Condition.t) (fallback : string) :
  eval formData (chain_expr false fieldId conds fallback)
  = Ok (VStr (match find (fun cond => strict_eq_str (get formData fieldId)
                                        (Condition.value cond)) conds with
              | Some matchedCondition => Condition.nextStepName matchedCondition
              | None => fallback
              end)).
Proof.
  induction conds as [| cond conds IH]; [reflexivity |].
  cbn [chain_expr test_expr find]. cbn [eval]. cbn. 
  rewrite strict_equal_string. cbn [truthy].
  destruct (strict_eq_str (get formData fieldId) (Condition.value cond));
    [reflexivity | exact IH].
Qed.

Lemma eval_chain_includes (formData : gmap string value) (fieldId : string)
    (selected : list value) (conds : list Condition.t) (fallback : string) :
  get formData fieldId = VArr selected ->
  eval formData (chain_expr true fieldId conds fallback)
  = Ok (VStr (match find (fun cond => includes selected (Condition.value cond)) conds with
              | Some matchedCondition => Condition.nextStepName matchedCondition
              | None => fallback
              end)).
Proof.
  intros Hanswer. induction conds as [| cond conds IH]; [reflexivity |].
  cbn [chain_expr test_expr find]. cbn [eval]. cbn. rewrite Hanswer. cbn.
  destruct (includes selected (Condition.value cond)); [reflexivity | exact IH].
Qed.

(** *** The builder and the handler *)

Lemma convertToExpression_chain (st : State) (step : Step) (rule : NavigationRule)
    (driver : FormField) :
  currentStep st = Some step ->
  find_field (Some step) (NavigationRule.fieldId rule) = Some driver ->
  NavigationRule.conditions rule <> [] ->
  is_identifier (NavigationRule.fieldId rule) = true ->
  convertToExpression st rule
  = chain_source (is_checkbox driver) (NavigationRule.fieldId rule)
      (NavigationRule.conditions rule)
      (str_or (NavigationRule.defaultStepName rule) "continue").
Proof.
  intros Hstep Hdriver Hconds Hid. unfold convertToExpression.
  rewrite Hstep, Hdriver.
  assert ((NavigationRule.fieldId rule =? "") = false) as ->.
  { destruct (NavigationRule.fieldId rule); [discriminate | reflexivity]. }
  assert ((length (NavigationRule.conditions rule) =? 0)%nat = false) as ->.
  { destruct (NavigationRule.conditions rule); [contradiction | reflexivity]. }
  cbn [orb]. unfold is_checkbox.
  destruct (FormField.type driver); cbn [FieldType_eqb];
    now rewrite <- concat_chain by assumption.
Qed.

(** C1, amended: for a rule with at least one condition, whose [fieldId] is
    an identifier naming a field of the current step and whose values, target
    names and default hold no quote, backslash or line break, and for answers
    in which a checkbox driver holds a sequence, parsing and evaluating the
    built expression yields the very target that the handler resolves (first
    match, else default); this is the target the handler acts on whenever
    validation and the guard on the driver's answer let it through. *)
Theorem expression_agrees_with_navigation (st : State) (step : Step)
    (rule : NavigationRule) (driver : FormField) :
  currentStep st = Some step ->
  find_field (Some step) (NavigationRule.fieldId rule) = Some driver ->
  NavigationRule.conditions rule <> [] ->
  is_identifier (NavigationRule.fieldId rule) = true ->
  Forall (fun cond => plain (Condition.value cond) = true
                      /\ plain (Condition.nextStepName cond) = true)
         (NavigationRule.conditions rule) ->
  plain (str_or (NavigationRule.defaultStepName rule) "continue") = true ->
  let answer := get (previewData st) (NavigationRule.fieldId rule) in
  (FormField.type driver = Checkbox -> exists selected, answer = VArr selected) ->
  evaluate (previewData st) (convertToExpression st rule)
  = Ok (VStr (resolveTarget rule driver answer))
  /\ (Step.navigationRule step = Some rule ->
      Validation.valid (validateCurrentStep st) = true ->
      answer_incomplete answer = false ->
      executeNavigation st = dispatchTarget st (resolveTarget rule driver answer)).
Proof.
  intros Hstep Hdriver Hconds Hid Hplain Hfallback answer Hshape. split.
  - rewrite (convertToExpression_chain st step rule driver) by assumption.
    unfold evaluate. rewrite lex_chain by assumption.
    rewrite parseExpression_chain. unfold resolveTarget, is_checkbox.
    destruct (FormField.type driver) eqn:Htype; cbn [FieldType_eqb];
      try apply eval_chain_equality.
    destruct (Hshape eq_refl) as (selected & Hanswer).
    rewrite (eval_chain_includes _ _ selected) by exact Hanswer.
    fold answer. rewrite Hanswer. reflexivity.
  - intros Hrule Hvalid Hanswer.
    now apply (executeNavigation_dispatch st step rule driver).
Qed.

Lemma expression_agrees_with_navigation_witness :
  evaluate (previewData (scenarioB "Red")) (convertToExpression (scenarioB "Red") colorRule)
  = Ok (VStr "Page 2")
  /\ executeNavigation (scenarioB "Red") = dispatchTarget (scenarioB "Red") "Page 2".
Proof.
  destruct (expression_agrees_with_navigation (scenarioB "Red")
              (page "Start" [colorField] (Some colorRule)) colorRule colorField
              eq_refl eq_refl ltac:(discriminate) eq_refl
              ltac:(repeat constructor) eq_refl ltac:(discriminate))
    as [Heval Hnav].
  split; [exact Heval | now apply Hnav].
Defined.

(** C1, as stated, fails: a rule with no condition and the default ['end']
    makes the builder write ['continue'] (it returns before it reads the
    default), while the handler resolves the target ['end'] and ends the form
    instead of advancing. *)
Lemma expression_diverges_counterexample :
  convertToExpression endState endRule = "'continue'"
  /\ evaluate (previewData endState) (convertToExpression endState endRule)
     = Ok (VStr "continue")
  /\ resolveTarget endRule colorField (get (previewData endState) "color") = "end"
  /\ executeNavigation endState = dispatchTarget endState "end"
  /\ executeNavigation endState
     = setSaveStatus "🛑 Form ended based on selection" endState
  /\ dispatchTarget endState "continue" = goToStep 1 endState.
Proof. repeat split. Qed.

(** Why the amended statement keeps quotes out of the rule: the value
    [O'Brien] closes the string literal early, the expression is no longer
    well formed, and the handler still resolves [Summary]. *)
Lemma expression_with_quote_is_malformed :
  convertToExpression quoteState quoteRule
  = "formData.surname === 'O'Brien' ? 'Summary' : 'continue'"
  /\ evaluate (previewData quoteState) (convertToExpression quoteState quoteRule)
     = Err SyntaxError
  /\ executeNavigation quoteState = goToStep 1 quoteState
  /\ resolveTarget quoteRule surnameField (get (previewData quoteState) "surname")
     = "Summary".
Proof. repeat split. Qed.

(** Why the amended statement asks a checkbox driver to hold a sequence: with
    no answer the expression throws, and with a string it searches the
    string, while the handler treats both as an empty selection. *)
Lemma expression_on_checkbox_without_sequence :
  evaluate (previewData (preview tagsPages 0 []))
           (convertToExpression (preview tagsPages 0 []) tagsRule)
  = Err TypeError
  /\ evaluate (previewData (preview tagsPages 0 [("tags", VStr "abc")]))
              (convertToExpression (preview tagsPages 0 [("tags", VStr "abc")]) tagsRule)
     = Ok (VStr "X")
  /\ resolveTarget tagsRule tagsField (VStr "abc") = "continue"
  /\ executeNavigation (preview tagsPages 0 [])
     = setSaveStatus "⚠️ Please complete required fields" (preview tagsPages 0 []).
Proof. repeat split. Qed.

(* ===================================================================== *)
(** * Further properties of the code *)
(* ===================================================================== *)

(** ** The navigation handler as a state transformer *)

Lemma findIndex_bound {A : Type} (p : A -> bool) (l : list A) (i : nat) :
  findIndex p l = Some i -> i < length l.
Proof.
  revert i. induction l as [| a l IH]; intros i; simpl; [discriminate |].
  destruct (p a); [intros [= <-]; lia |].
  destruct (findIndex p l) as [j |]; simpl; [| discriminate].
  intros [= <-]. specialize (IH j eq_refl). lia.
Qed.

Lemma parsedSteps_frame (st : State) (index : nat) (answers : gmap string value)
    (message : string) :
  parsedSteps (mkState (steps st) (isNewFlow st) index (currentFlowName st)
                       (previewMode st) answers message)
  = parsedSteps st.
Proof. reflexivity. Qed.

(** X1: the navigation handler never edits the flow: pages, flow name and
    mode are as before; it either leaves the page and the answers alone or
    moves to a page and empties the answers; and from a page of the flow it
    only ever lands on a page of the flow. *)
Theorem executeNavigation_frame (st : State) :
  steps (executeNavigation st) = steps st
  /\ isNewFlow (executeNavigation st) = isNewFlow st
  /\ currentFlowName (executeNavigation st) = currentFlowName st
  /\ previewMode (executeNavigation st) = previewMode st
  /\ (currentStepIndex (executeNavigation st) = currentStepIndex st
      /\ previewData (executeNavigation st) = previewData st
      \/ previewData (executeNavigation st) = ∅
         /\ saveStatus (executeNavigation st) = saveStatus st)
  /\ (currentStepIndex st < length (parsedSteps st) ->
      currentStepIndex (executeNavigation st) < length (parsedSteps (executeNavigation st))).
Proof.
  assert (forall index,
             (index < length (parsedSteps st) ->
              currentStepIndex st < length (parsedSteps st) ->
              let st' := goToStep index st in
              steps st' = steps st /\ isNewFlow st' = isNewFlow st
              /\ currentFlowName st' = currentFlowName st
              /\ previewMode st' = previewMode st
              /\ (currentStepIndex st' = currentStepIndex st
                  /\ previewData st' = previewData st
                  \/ previewData st' = ∅ /\ saveStatus st' = saveStatus st)
              /\ (currentStepIndex st < length (parsedSteps st) ->
                  currentStepIndex st' < length (parsedSteps st')))) as Hgo.
  { intros index Hindex _. simpl. repeat split; auto. }
  assert (forall message,
             let st' := setSaveStatus message st in
             steps st' = steps st /\ isNewFlow st' = isNewFlow st
             /\ currentFlowName st' = currentFlowName st
             /\ previewMode st' = previewMode st
             /\ (currentStepIndex st' = currentStepIndex st
                 /\ previewData st' = previewData st
                 \/ previewData st' = ∅ /\ saveStatus st' = saveStatus st)
             /\ (currentStepIndex st < length (parsedSteps st) ->
                 currentStepIndex st' < length (parsedSteps st'))) as Hmsg.
  { intros message. simpl. repeat split; auto. }
  unfold executeNavigation.
  destruct (currentStep st) as [step |] eqn:Hstep.
  2: { repeat split; auto. }
  pose proof (lookup_lt_Some _ _ _ Hstep) as Hlt.
  assert (let st' := continueFlow st in
          steps st' = steps st /\ isNewFlow st' = isNewFlow st
          /\ currentFlowName st' = currentFlowName st
          /\ previewMode st' = previewMode st
          /\ (currentStepIndex st' = currentStepIndex st
              /\ previewData st' = previewData st
              \/ previewData st' = ∅ /\ saveStatus st' = saveStatus st)
          /\ (currentStepIndex st < length (parsedSteps st) ->
              currentStepIndex st' < length (parsedSteps st'))) as Hcont.
  { unfold continueFlow.
    destruct (currentStepIndex st <? length (parsedSteps st) - 1)%nat eqn:E.
    - apply Nat.ltb_lt in E. apply Hgo; [lia | assumption].
    - apply Hmsg. }
  destruct (Validation.valid (validateCurrentStep st)); simpl; [| apply Hmsg].
  destruct (Step.navigationRule step) as [rule |]; [| exact Hcont].
  destruct (find _ (Step.fields step)) as [field |]; [| apply Hmsg].
  destruct (answer_incomplete _); [apply Hmsg |].
  unfold dispatchTarget.
  destruct (_ =? "continue"); [exact Hcont |].
  destruct (_ =? "end"); [apply Hmsg |].
  destruct (_ =? "skip"); [apply Hgo; [lia | assumption] |].
  destruct (findIndex _ (parsedSteps st)) as [i |] eqn:Hi; [| apply Hmsg].
  apply Hgo; [| assumption]. eapply findIndex_bound. exact Hi.
Qed.

Lemma executeNavigation_frame_witness :
  currentStepIndex (executeNavigation (scenarioB "Red")) < 3.
Proof.
  apply (proj2 (proj2 (proj2 (proj2 (proj2 (executeNavigation_frame (scenarioB "Red"))))))).
  simpl. lia.
Defined.


(** ** Templates and rendered values *)

Lemma walk_keys_result (template : value) (context : walked) (keys : list string) :
  walk_keys template keys context = template
  \/ exists final,
       reaches context keys final /\ truthy (walkedValue final) = true
       /\ walk_keys template keys context = walkedValue final.
Proof.
  destruct (walk_keys_total context keys)
    as [(final & Hr) | (before & key & after & stuck & -> & Hr & Hn)].
  - rewrite (walk_keys_reaches _ _ _ _ Hr).
    destruct (truthy (walkedValue final)) eqn:Ht; eauto.
  - left. eapply walk_keys_stuck; [eassumption | now apply property_lacks].
Qed.

Lemma processTemplateValue_truthy (v : value) (context : TemplateContext) :
  is_template v = true -> truthy (processTemplateValue v context) = true.
Proof.
  destruct v as [| | | | [| c path] | | |]; try discriminate. simpl.
  intros Hc. rewrite Hc.
  destruct (walk_keys_result (VStr (String c path)) (AtContext context)
              (split_on "." path))
    as [-> | (final & _ & Ht & ->)]; [reflexivity | exact Ht].
Qed.

(** X2: resolving a template never yields a blank: the result is truthy (not
    undefined, null, false, 0 or the empty string), and it is either the
    template string itself or the truthy value found at the end of its
    path. *)
Theorem processTemplateValue_never_blank (v : value) (context : TemplateContext) :
  is_template v = true ->
  truthy (processTemplateValue v context) = true
  /\ (processTemplateValue v context = v
      \/ exists path final,
           v = VStr (String "#" path)
           /\ reaches (AtContext context) (split_on "." path) final
           /\ processTemplateValue v context = walkedValue final).
Proof.
  destruct v as [| | | | [| c path] | | |]; try discriminate. simpl.
  intros Hc. rewrite Hc. apply Ascii.eqb_eq in Hc. subst c.
  destruct (walk_keys_result (VStr (String "#" path)) (AtContext context)
              (split_on "." path))
    as [-> | (final & Hr & Ht & ->)].
  - split; [reflexivity | now left].
  - split; [exact Ht |]. right. exists path, final. auto.
Qed.

Lemma processTemplateValue_never_blank_witness :
  truthy (processTemplateValue (VStr "#client.name")
            {["client" := sectionOf [("name", "")]]}) = true.
Proof.
  apply (proj1 (processTemplateValue_never_blank (VStr "#client.name")
                  {["client" := sectionOf [("name", "")]]} eq_refl)).
Defined.

(** X3: what a field shows.  An answer, whatever it is (the empty string and
    null included), is shown as it is; with no answer the field shows its
    default, resolved against the sample context in preview mode and raw in
    edit mode; and in preview mode a template default never shows blank. *)
Theorem renderFieldValue_cases (st : State) (field : FormField) (answer : value) :
  (answer <> VUndefined -> renderFieldValue st field answer = answer)
  /\ (previewMode st = false ->
      renderFieldValue st field VUndefined = defaultValueOf field)
  /\ (previewMode st = true ->
      renderFieldValue st field VUndefined
      = processTemplateValue (defaultValueOf field) buildTemplateContext
      /\ (is_template (defaultValueOf field) = true ->
          truthy (renderFieldValue st field VUndefined) = true)).
Proof.
  unfold renderFieldValue. split; [| split].
  - intros H. destruct (previewMode st && startsWithSigil (defaultValueOf field));
      destruct answer; try reflexivity; contradiction.
  - intros ->. reflexivity.
  - intros ->. simpl. split.
    + destruct (startsWithSigil (defaultValueOf field)) eqn:E; [reflexivity |].
      destruct (defaultValueOf field) as [| | | | [| c s] | | |]; try reflexivity.
      simpl in E. simpl. now rewrite E.
    + intros Ht.
      assert (startsWithSigil (defaultValueOf field) = true) as -> by exact Ht.
      now apply processTemplateValue_truthy.
Qed.

Lemma renderFieldValue_cases_witness :
  renderFieldValue scenarioA greetingField (VStr "") = VStr ""
  /\ renderFieldValue scenarioA greetingField VUndefined = VStr "John Doe"
  /\ renderFieldValue twoPages greetingField VUndefined = VStr "#client.name".
Proof.
  destruct (renderFieldValue_cases scenarioA greetingField (VStr "")) as (Ha & _ & Hp).
  destruct (renderFieldValue_cases twoPages greetingField VUndefined) as (_ & He & _).
  split; [apply Ha; discriminate | split].
  - rewrite (proj1 (Hp eq_refl)). reflexivity.
  - rewrite (He eq_refl). reflexivity.
Defined.


(** ** The three compiled artifacts describe the same fields *)

Lemma schemaStep_reserved (jsonSchema : JsonSchema.t) (uiSchema : gmap string UiEntry)
    (f : FormField) :
  is_title f = false ->
  FormField.id f = "ui:order" ->
  schemaStep (Some (jsonSchema, uiSchema)) f = None.
Proof.
  intros Ht Hid. unfold is_title in Ht. unfold schemaStep, pushOrder.
  rewrite Hid, assign_lookup_eq by discriminate.
  destruct (FormField.type f); try discriminate; reflexivity.
Qed.

Lemma schemaStep_field_json (jsonSchema : JsonSchema.t) (uiSchema : gmap string UiEntry)
    (order : list string) (f : FormField) :
  is_title f = false ->
  FormField.id f <> "ui:order" ->
  uiSchema !! "ui:order" = Some (UiOrder order) ->
  schemaStep (Some (jsonSchema, uiSchema)) f
  = Some (JsonSchema.mk (JsonSchema.type jsonSchema) (JsonSchema.description jsonSchema)
            (assign (FormField.id f) (buildProperty f) (JsonSchema.properties jsonSchema))
            (if FormField.required f
             then JsonSchema.required jsonSchema ++ [FormField.id f]
             else JsonSchema.required jsonSchema),
          <["ui:order" := UiOrder (order ++ [FormField.id f])]>
            (assign (FormField.id f) (UiField (buildUiConfig f)) uiSchema)).
Proof.
  intros Ht Hne Horder. unfold is_title in Ht. unfold schemaStep, pushOrder.
  rewrite assign_lookup_ne, Horder by assumption.
  destruct (FormField.type f); try discriminate; reflexivity.
Qed.

Lemma assign_is_Some {A : Type} (key k : string) (v : A) (object : gmap string A) :
  is_Some (assign key v object !! k)
  <-> is_Some (object !! k) \/ (k = key /\ key <> "__proto__").
Proof.
  destruct (String.eqb_spec key k) as [<- | Hne].
  - destruct (String.eqb_spec key "__proto__") as [-> | Hkey].
    + unfold assign. simpl. destruct (object !! "__proto__") as [x |] eqn:Hown.
      * rewrite lookup_insert_eq. split; [intros _; left; eauto | eauto].
      * rewrite Hown. split; [auto | intros [H | [_ H]]; [exact H | contradiction]].
    + rewrite assign_lookup_eq by assumption. split; [auto | eauto].
  - rewrite assign_lookup_ne by assumption.
    split; [auto | intros [H | [H _]]; [exact H | congruence]].
Qed.

Lemma assign_UiField (key k : string) (config : UiConfig.t)
    (uiSchema : gmap string UiEntry) :
  (exists cfg, uiSchema !! k = Some (UiField cfg)) \/ (k = key /\ key <> "__proto__") ->
  exists cfg, assign key (UiField config) uiSchema !! k = Some (UiField cfg).
Proof.
  intros H. destruct (String.eqb_spec key k) as [<- | Hne].
  - destruct (String.eqb_spec key "__proto__") as [-> | Hkey].
    + destruct H as [(cfg & Hcfg) | [_ H]]; [| contradiction].
      unfold assign. simpl. rewrite Hcfg, lookup_insert_eq. eauto.
    + rewrite assign_lookup_eq by assumption. eauto.
  - rewrite assign_lookup_ne by assumption.
    destruct H as [H | [H _]]; [exact H | congruence].
Qed.

Lemma schemaStep_fold (fields : list FormField) (jsonSchema jsonSchema' : JsonSchema.t)
    (uiSchema uiSchema' : gmap string UiEntry) (order : list string) :
  uiSchema !! "ui:order" = Some (UiOrder order) ->
  foldl schemaStep (Some (jsonSchema, uiSchema)) fields = Some (jsonSchema', uiSchema') ->
  (forall f, In f fields -> is_title f = false -> FormField.id f <> "ui:order")
  /\ JsonSchema.required jsonSchema'
     = (JsonSchema.required jsonSchema ++ requiredIds_of fields)%list
  /\ (forall k, is_Some (JsonSchema.properties jsonSchema' !! k)
                <-> is_Some (JsonSchema.properties jsonSchema !! k)
                    \/ (In k (answerableIds fields) /\ k <> "__proto__"))
  /\ uiSchema' !! "ui:order" = Some (UiOrder (order ++ answerableIds fields))
  /\ (forall k, (exists cfg, uiSchema !! k = Some (UiField cfg))
                \/ (In k (answerableIds fields) /\ k <> "__proto__") ->
                k <> "ui:order" ->
                exists cfg, uiSchema' !! k = Some (UiField cfg))
  /\ (uiSchema !! "__proto__" = None -> uiSchema' !! "__proto__" = None).
Proof.
  revert jsonSchema uiSchema order.
  induction fields as [| f fields IH]; intros jsonSchema uiSchema order Horder Hfold.
  - simpl in Hfold. injection Hfold as <- <-. unfold requiredIds_of, answerableIds. simpl.
    rewrite !app_nil_r.
    split; [intros f [] |]. split; [reflexivity |].
    split; [intros k; split; [auto | intros [H | [[] _]]; exact H] |].
    split; [exact Horder |]. split; [| auto]. intros k [H | [[] _]] _. exact H.
  - change (foldl schemaStep (Some (jsonSchema, uiSchema)) (f :: fields))
      with (foldl schemaStep (schemaStep (Some (jsonSchema, uiSchema)) f) fields) in Hfold.
    rewrite answerableIds_cons. unfold requiredIds_of. simpl.
    fold (requiredIds_of fields).
    destruct (is_title f) eqn:Ht.
    + rewrite schemaStep_title in Hfold by assumption.
      destruct (IH _ _ _ Horder Hfold) as (Hids & Hreq & Hprops & Hord & Hui & Hproto).
      simpl.
      split; [intros g [<- | Hg] Hgt; [congruence | now apply Hids] |].
      split; [exact Hreq |]. split; [exact Hprops |]. split; [exact Hord |].
      split; [exact Hui | exact Hproto].
    + destruct (String.eqb_spec (FormField.id f) "ui:order") as [Heq | Hne].
      { rewrite schemaStep_reserved, schemaStep_thrown in Hfold by assumption.
        discriminate. }
      rewrite (schemaStep_field_json _ _ order) in Hfold by assumption.
      destruct (IH _ _ _ (lookup_insert_eq _ _ _) Hfold)
        as (Hids & Hreq & Hprops & Hord & Hui & Hproto).
      simpl in Hreq. split; [| split; [| split; [| split; [| split]]]].
      * intros g [<- | Hg] Hgt; [assumption | now apply Hids].
      * rewrite Hreq. simpl. destruct (FormField.required f); simpl;
          [now rewrite <- app_assoc | reflexivity].
      * intros k. rewrite Hprops. cbn [JsonSchema.properties]. rewrite assign_is_Some.
        split.
        -- intros [[H | [-> H]] | [H Hk]]; auto.
           ++ right. split; [now left | assumption].
           ++ right. split; [now right | assumption].
        -- intros [H | [[<- | H] Hk]]; auto.
      * rewrite Hord. now rewrite <- app_assoc.
      * intros k Hk Hko. apply Hui; [| assumption].
        destruct Hk as [Hk | [[<- | Hk] Hkp]]; [| | now right].
        -- left. rewrite lookup_insert_ne by (intros E; congruence).
           apply assign_UiField. now left.
        -- left. rewrite lookup_insert_ne by (intros E; congruence).
           apply assign_UiField. right. auto.
      * intros Hnone. apply Hproto.
        rewrite lookup_insert_ne by discriminate. now apply assign_keeps_proto.
Qed.

Lemma schemas_throw_iff (st : State) (step : Step) :
  currentStep st = Some step ->
  generateAllSchemas st = None
  <-> exists f, In f (Step.fields step) /\ FormField.type f <> Title
                /\ FormField.id f = "ui:order".
Proof.
  intros Hstep. split.
  - intros Hnone.
    destruct (List.existsb (fun f => negb (is_title f) && (FormField.id f =? "ui:order"))
                (Step.fields step)) eqn:E.
    + apply existsb_exists in E. destruct E as (f & Hf & Hc).
      apply andb_prop in Hc. destruct Hc as [Ht Hid].
      exists f. split; [assumption |]. split; [| now apply String.eqb_eq].
      unfold is_title in Ht. intros Heq. rewrite Heq in Ht. discriminate.
    + exfalso.
      destruct (generateAllSchemas_order st step Hstep) as (schemas & Hs & _);
        [| congruence].
      intros f Hf Ht Hid.
      assert (negb (is_title f) && (FormField.id f =? "ui:order") = true) as Hc.
      { apply andb_true_intro. split; [| now apply String.eqb_eq].
        unfold is_title. destruct (FormField.type f); try reflexivity. contradiction. }
      assert (List.existsb (fun f => negb (is_title f) && (FormField.id f =? "ui:order"))
                (Step.fields step) = true) as Habs
          by (apply existsb_exists; eauto).
      congruence.
  - intros (f & Hf & Ht & Hid).
    destruct (generateAllSchemas st) as [schemas |] eqn:Hgen; [| reflexivity].
    exfalso. unfold generateAllSchemas in Hgen. rewrite Hstep in Hgen.
    destruct (foldl schemaStep _ (Step.fields step)) as [[js ui] |] eqn:Hfold;
      [| discriminate].
    assert (initialUiSchema !! "ui:order" = Some (UiOrder [])) as Hinit by reflexivity.
    destruct (schemaStep_fold _ _ _ _ _ _ Hinit Hfold) as (Hids & _).
    apply (Hids f Hf); [| assumption].
    unfold is_title. destruct (FormField.type f); try reflexivity. contradiction.
Qed.

(** X4: the compile throws exactly when the current step has a non-title
    field whose id is ["ui:order"]; with no current step it returns the empty
    schemas. *)
Theorem generateAllSchemas_throws_iff (st : State) :
  (currentStep st = None -> generateAllSchemas st = Some EmptySchemas)
  /\ (forall step,
        currentStep st = Some step ->
        generateAllSchemas st = None
        <-> exists f, In f (Step.fields step) /\ FormField.type f <> Title
                      /\ FormField.id f = "ui:order").
Proof.
  split.
  - intros H. unfold generateAllSchemas. now rewrite H.
  - apply schemas_throw_iff.
Qed.

Lemma generateAllSchemas_throws_iff_witness :
  generateAllSchemas reservedIdState = None.
Proof.
  apply (proj2 (generateAllSchemas_throws_iff reservedIdState) _ eq_refl).
  exists reservedIdField. repeat split; [right; now left | discriminate].
Defined.

(** X5: whenever the compile returns for a step, its three artifacts list
    the same fields: the order list is the ids of the non-title fields in
    field order; the data schema has a property for exactly those of these
    ids that are not [__proto__], and its required list is the ids of the
    required fields, in field order; the presentation schema has a widget
    entry for each id that is not [__proto__]; and the default answers
    have, [__proto__] apart, a value for exactly the ids of the order list.
    Under [__proto__] the two schemas store nothing: a field of that id is
    listed in the order, and in the required list if it is required, but
    has no property and no widget entry. *)
Theorem generateAllSchemas_consistent (st : State) (step : Step)
    (jsonSchema : JsonSchema.t) (uiSchema : gmap string UiEntry)
    (formData : gmap string value) (actionSchema : ActionSchema.t) :
  currentStep st = Some step ->
  generateAllSchemas st = Some (StepSchemas jsonSchema uiSchema formData actionSchema) ->
  let ids := answerableIds (Step.fields step) in
  uiSchema !! "ui:order" = Some (UiOrder ids)
  /\ (forall k, is_Some (JsonSchema.properties jsonSchema !! k)
                <-> In k ids /\ k <> "__proto__")
  /\ JsonSchema.required jsonSchema
     = map FormField.id
           (List.filter (fun f => negb (is_title f) && FormField.required f)
                        (Step.fields step))
  /\ (forall k, In k (JsonSchema.required jsonSchema) -> In k ids)
  /\ (forall k, In k ids -> k <> "__proto__" ->
                exists cfg, uiSchema !! k = Some (UiField cfg))
  /\ (forall k, k <> "__proto__" -> is_Some (formData !! k) <-> In k ids)
  /\ JsonSchema.properties jsonSchema !! "__proto__" = None
  /\ uiSchema !! "__proto__" = None.
Proof.
  intros Hstep Hgen ids. unfold generateAllSchemas in Hgen. rewrite Hstep in Hgen.
  destruct (foldl schemaStep _ (Step.fields step)) as [[js ui] |] eqn:Hfold;
    [| discriminate].
  injection Hgen as <- <- <- <-.
  assert (initialUiSchema !! "ui:order" = Some (UiOrder [])) as Hinit by reflexivity.
  destruct (schemaStep_fold _ _ _ _ _ _ Hinit Hfold)
    as (Hids & Hreq & Hprops & Hord & Hui & Hproto).
  simpl in Hreq, Hord.
  assert (forall k, is_Some (JsonSchema.properties js !! k)
                    <-> In k ids /\ k <> "__proto__") as Hproperties.
  { intros k. rewrite Hprops. simpl. rewrite lookup_empty. split.
    - intros [[x Hx] | H]; [discriminate | exact H].
    - intros H. now right. }
  assert (forall k, k <> "__proto__" ->
                    is_Some (generateFormData (Step.fields step) !! k) <-> In k ids)
    as Hanswers.
  { intros k Hk. unfold ids, answerableIds. rewrite in_map_iff.
    rewrite <- not_eq_None_Some, formData_keys by assumption. split.
    + intros H.
      destruct (List.existsb (fun f => negb (is_title f) && (FormField.id f =? k))
                  (Step.fields step)) eqn:E.
      * apply existsb_exists in E. destruct E as (f & Hf & Hc).
        apply andb_prop in Hc. destruct Hc as [Ht Hid]. apply String.eqb_eq in Hid.
        exists f. split; [assumption |]. apply filter_In. auto.
      * exfalso. apply H. intros g Hg Hgt Hgid.
        assert (List.existsb (fun f => negb (is_title f) && (FormField.id f =? k))
                  (Step.fields step) = true) as Habs.
        { apply existsb_exists. exists g. split; [assumption |].
          rewrite Hgt. simpl. now apply String.eqb_eq. }
        congruence.
    + intros (f & Hid & Hf) H. apply filter_In in Hf. destruct Hf as [Hf Ht].
      apply (H f Hf); [now apply negb_true_iff | assumption]. }
  split; [exact Hord |]. split; [exact Hproperties |]. split; [exact Hreq |].
  split; [| split; [| split; [exact Hanswers | split]]].
  - intros k. rewrite Hreq. unfold requiredIds_of, ids, answerableIds.
    rewrite !in_map_iff. intros (f & <- & Hf). apply filter_In in Hf.
    destruct Hf as [Hf Hc]. apply andb_prop in Hc. destruct Hc as [Ht _].
    exists f. split; [reflexivity |]. apply filter_In. auto.
  - intros k Hk Hkp. apply Hui; [right; auto |].
    intros ->. unfold ids, answerableIds in Hk. apply in_map_iff in Hk.
    destruct Hk as (f & Hid & Hf). apply filter_In in Hf. destruct Hf as [Hf Ht].
    apply (Hids f Hf); [| assumption]. now apply negb_true_iff.
  - apply eq_None_not_Some. intros H. apply Hproperties in H. now destruct H.
  - apply Hproto. reflexivity.
Qed.

Lemma generateAllSchemas_consistent_witness :
  exists jsonSchema uiSchema formData actionSchema,
    generateAllSchemas (preview [page "Sample" sampleFields None] 0 [])
    = Some (StepSchemas jsonSchema uiSchema formData actionSchema)
    /\ uiSchema !! "ui:order" = Some (UiOrder ["name"; "tags"; "photo"; "greeting"])
    /\ JsonSchema.required jsonSchema = ["name"].
Proof.
  destruct (generateAllSchemas (preview [page "Sample" sampleFields None] 0 []))
    as [[| jsonSchema uiSchema formData actionSchema] |] eqn:Hgen;
    try (vm_compute in Hgen; discriminate).
  exists jsonSchema, uiSchema, formData, actionSchema.
  destruct (generateAllSchemas_consistent
              (preview [page "Sample" sampleFields None] 0 [])
              (page "Sample" sampleFields None) _ _ _ _ eq_refl Hgen)
    as (Hord & _ & Hreq & _).
  split; [reflexivity | split; [exact Hord | exact Hreq]].
Defined.

(** The compile of a page whose one field has the id [__proto__]: the id is
    in the order list, and nothing is stored under it. *)
Lemma generateAllSchemas_proto_example :
  exists jsonSchema uiSchema formData actionSchema,
    generateAllSchemas (preview [page "Proto" [protoField] None] 0 [])
    = Some (StepSchemas jsonSchema uiSchema formData actionSchema)
    /\ uiSchema !! "ui:order" = Some (UiOrder ["__proto__"])
    /\ JsonSchema.properties jsonSchema = ∅
    /\ uiSchema !! "__proto__" = None
    /\ formData = ∅.
Proof. do 4 eexists. repeat split. Qed.


(** ** Authoring validation *)

Lemma authoringCheck_app (errors : list string) (field : FormField) :
  authoringCheck errors field = (errors ++ authoringCheck [] field)%list.
Proof.
  unfold authoringCheck, push.
  destruct (is_blank (FormField.title field));
    destruct ((match FormField.type field with
               | Select | Radio | Checkbox => true | _ => false end)
              && (match FormField.options field with
                  | None | Some [] => true | _ => false end));
    destruct (FieldType_eqb (FormField.type field) File
              && (match FormField.maxFileSize field with
                  | Some n => negb (n =? 0)%Z && (100 <? n)%Z
                  | None => false
                  end));
    simpl; rewrite ?app_nil_r, <- ?app_assoc; reflexivity.
Qed.

Lemma authoringCheck_fold (fields : list FormField) (errors : list string) :
  foldl authoringCheck errors fields
  = (errors ++ flat_map (authoringCheck []) fields)%list.
Proof.
  revert errors. induction fields as [| f fields IH]; intros errors; simpl.
  - now rewrite app_nil_r.
  - rewrite IH, (authoringCheck_app errors f). now rewrite <- app_assoc.
Qed.

Lemma authoringCheck_clean (field : FormField) :
  authoringCheck [] field = []
  <-> is_blank (FormField.title field) = false
      /\ (FormField.type field = Select \/ FormField.type field = Radio
          \/ FormField.type field = Checkbox ->
          exists option options, FormField.options field = Some (option :: options))
      /\ (FormField.type field = File ->
          forall n, FormField.maxFileSize field = Some n -> (n <= 100)%Z).
Proof.
  unfold authoringCheck, push. split.
  - intros H.
    destruct (is_blank (FormField.title field)) eqn:Hb.
    { exfalso. revert H.
      repeat match goal with |- context [if ?c then _ else _] => destruct c end;
        simpl; discriminate. }
    split; [reflexivity |]. simpl in H. split.
    + intros Hk.
      destruct (FormField.options field) as [[| o os] |] eqn:Ho; eauto;
        exfalso; revert H;
        destruct Hk as [-> | [-> | ->]]; simpl; discriminate.
    + intros Hf n Hn. rewrite Hf, Hn in H. simpl in H.
      destruct (n =? 0)%Z eqn:E0; [apply Z.eqb_eq in E0; lia |].
      destruct (100 <? n)%Z eqn:E1; [discriminate | apply Z.ltb_ge in E1; lia].
  - intros (Hb & Hopts & Hsize). rewrite Hb. simpl.
    assert ((match FormField.type field with
             | Select | Radio | Checkbox => true | _ => false end)
            && (match FormField.options field with
                | None | Some [] => true | _ => false end) = false) as ->.
    { destruct (FormField.type field) eqn:Ht; try reflexivity;
        destruct Hopts as (o & os & ->); auto. }
    assert (FieldType_eqb (FormField.type field) File
            && (match FormField.maxFileSize field with
                | Some n => negb (n =? 0)%Z && (100 <? n)%Z
                | None => false
                end) = false) as ->; [| reflexivity].
    destruct (FormField.type field) eqn:Ht; try reflexivity. simpl.
    destruct (FormField.maxFileSize field) as [n |] eqn:Hn; [| reflexivity].
    specialize (Hsize eq_refl n eq_refl).
    assert ((100 <? n)%Z = false) as -> by (apply Z.ltb_ge; lia).
    apply andb_false_r.
Qed.

(** X6: in edit mode the step is valid exactly when every field has a title
    that is not blank, every select, radio and checkbox field has at least
    one option, and no file field has a size limit above 100; neither the
    answers nor the [required] flags play a part, and a field yields at most
    three messages. *)
Theorem validateCurrentStep_authoring (st : State) (step : Step) :
  previewMode st = false ->
  currentStep st = Some step ->
  (Validation.valid (validateCurrentStep st) = true
   <-> forall field, In field (Step.fields step) ->
         is_blank (FormField.title field) = false
         /\ (FormField.type field = Select \/ FormField.type field = Radio
             \/ FormField.type field = Checkbox ->
             exists option options, FormField.options field = Some (option :: options))
         /\ (FormField.type field = File ->
             forall n, FormField.maxFileSize field = Some n -> (n <= 100)%Z))
  /\ length (Validation.errors (validateCurrentStep st)) <= 3 * length (Step.fields step).
Proof.
  intros Hmode Hstep. unfold validateCurrentStep. rewrite Hstep, Hmode. simpl.
  rewrite authoringCheck_fold. simpl. split.
  - rewrite Nat.eqb_eq, length_zero_iff_nil. split.
    + intros Hnil field Hin. apply authoringCheck_clean.
      induction (Step.fields step) as [| f fields IH]; [contradiction |].
      simpl in Hnil. apply app_eq_nil in Hnil. destruct Hnil as [Hf Hrest].
      destruct Hin as [<- | Hin]; [exact Hf | now apply IH].
    + intros Hall. induction (Step.fields step) as [| f fields IH]; [reflexivity |].
      simpl. rewrite (proj2 (authoringCheck_clean f)) by (apply Hall; now left).
      apply IH. intros field Hin. apply Hall. now right.
  - induction (Step.fields step) as [| f fields IH]; simpl; [lia |].
    rewrite length_app.
    assert (length (authoringCheck [] f) <= 3).
    { unfold authoringCheck, push.
      repeat match goal with |- context [if ?c then _ else _] => destruct c end;
        simpl; lia. }
    lia.
Qed.

Lemma validateCurrentStep_authoring_witness :
  Validation.valid (validateCurrentStep twoPages) = true.
Proof.
  apply (proj1 (validateCurrentStep_authoring twoPages firstPage eq_refl eq_refl)).
  intros field [<- | []]. repeat split; try discriminate.
  intros [H | [H | H]]; discriminate.
Defined.


(** ** The exported document *)

Lemma distinct_fold (l seen : list string) :
  NoDup seen ->
  NoDup (foldl (fun seen x => if existsb (String.eqb x) seen then seen
                              else (seen ++ [x])%list) seen l)
  /\ (forall x,
        In x (foldl (fun seen x => if existsb (String.eqb x) seen then seen
                                   else (seen ++ [x])%list) seen l)
        <-> In x seen \/ In x l).
Proof.
  revert seen. induction l as [| a l IH]; intros seen Hnd; simpl.
  - split; [assumption |]. intros x. split; [auto | intros [H | []]; exact H].
  - destruct (existsb (String.eqb a) seen) eqn:E.
    + destruct (IH seen Hnd) as [Hn Hin]. split; [exact Hn |].
      intros x. etransitivity; [apply Hin |]. apply existsb_exists in E.
      destruct E as (y & Hy & Heq). apply String.eqb_eq in Heq. subst y.
      split; [intros [H | H]; auto | intros [H | [<- | H]]; auto].
    + assert (~ In a seen) as Hnotin.
      { intros Hin. assert (existsb (String.eqb a) seen = true) as Habs.
        { apply existsb_exists. exists a. split; [assumption | apply String.eqb_refl]. }
        congruence. }
      destruct (IH (seen ++ [a])%list) as [Hn Hin].
      { apply NoDup_app. split; [assumption |]. split.
        - intros x Hx Hxa. apply list_elem_of_In in Hx.
          apply list_elem_of_singleton in Hxa. subst. contradiction.
        - apply NoDup_singleton. }
      split; [exact Hn |]. intros x. etransitivity; [apply Hin |].
      rewrite in_app_iff. simpl.
      split; [intros [[H | [H | []]] | H]; auto | intros [H | [H | H]]; auto].
Qed.

Lemma distinct_spec (l : list string) :
  NoDup (distinct l) /\ (forall x, In x (distinct l) <-> In x l).
Proof.
  destruct (distinct_fold l [] (NoDup_nil_2)) as [Hn Hin]. split; [exact Hn |].
  intros x. etransitivity; [apply Hin |]. split; [intros [[] | H]; exact H | auto].
Qed.

Lemma totalFields_fold (l : list Step) (sum : nat) :
  foldl (fun sum step => sum + length (Step.fields step)) sum l
  = sum + length (flat_map Step.fields l).
Proof.
  revert sum. induction l as [| s l IH]; intros sum; simpl; [lia |].
  rewrite IH, length_app. lia.
Qed.

Lemma imap_order {A B : Type} (g : nat -> A -> B) (h : B -> nat) (l : list A) (start : nat) :
  (forall i x, h (g i x) = start + i) ->
  map h (imap g l) = seq start (length l).
Proof.
  revert g start. induction l as [| x l IH]; intros g start Hg; [reflexivity |].
  cbn. rewrite Hg, Nat.add_0_r. f_equal.
  apply (IH (g ∘ S) (S start)). intros i y. unfold compose. rewrite Hg. lia.
Qed.

Lemma imap_project {A B C : Type} (g : nat -> A -> B) (h : B -> C) (k : A -> C) (l : list A) :
  (forall i x, h (g i x) = k x) ->
  map h (imap g l) = map k l.
Proof.
  revert g. induction l as [| x l IH]; intros g Hg; [reflexivity |].
  cbn. rewrite Hg. f_equal. apply IH. intros i y. unfold compose. apply Hg.
Qed.

(** X7: an exported document has one entry per page, in page order, with
    the page's id and name and the orders 1, 2, ...; its metadata count the
    pages and all fields of the flow, and list every field kind used in the
    flow exactly once; the export changes nothing but the status line. *)
Theorem exportCompleteFlow_metadata (st st' : State) (created : string)
    (document : FlowData.t) :
  exportCompleteFlow st created = Exported st' document ->
  st' = setSaveStatus "📦 Flow exported as JSON" st
  /\ FlowData.name document = currentFlowName st
  /\ FlowData.created document = created
  /\ map StepEntry.id (FlowData.steps document) = map Step.id (parsedSteps st)
  /\ map StepEntry.name (FlowData.steps document) = map Step.name (parsedSteps st)
  /\ map StepEntry.order (FlowData.steps document) = seq 1 (length (parsedSteps st))
  /\ FlowData.totalSteps document = length (FlowData.steps document)
  /\ FlowData.totalFields document = length (flat_map Step.fields (parsedSteps st))
  /\ NoDup (FlowData.fieldTypes document)
  /\ (forall kind,
        In kind (FlowData.fieldTypes document)
        <-> exists step field,
              In step (parsedSteps st) /\ In field (Step.fields step)
              /\ type_name (FormField.type field) = kind).
Proof.
  intros Hexport. unfold exportCompleteFlow in Hexport.
  destruct (parsedSteps st) as [| s l] eqn:Hsteps in Hexport.
  1: discriminate Hexport.
  unfold flowData in Hexport.
  destruct (generateAllSchemas st) as [schemas |] eqn:Hgen.
  2: { rewrite imap_exportStep_throws in Hexport
         by (assumption || (rewrite Hsteps; discriminate)).
       discriminate Hexport. }
  clear s l Hsteps.
  rewrite (imap_exportStep st schemas), mapM_imap_Some in Hexport by assumption.
  injection Hexport as <- <-.
  cbn [FlowData.name FlowData.created FlowData.steps FlowData.totalSteps
       FlowData.totalFields FlowData.fieldTypes].
  split; [reflexivity |]. split; [reflexivity |]. split; [reflexivity |].
  split; [now apply imap_project |]. split; [now apply imap_project |].
  split; [apply imap_order; intros i x; simpl; lia |].
  split; [now rewrite length_imap |].
  split; [now rewrite totalFields_fold |].
  destruct (distinct_spec
              (flat_map (fun step => map (fun f => type_name (FormField.type f))
                                         (Step.fields step)) (parsedSteps st)))
    as [Hn Hin].
  split; [exact Hn |]. intros kind. etransitivity; [apply Hin |].
  rewrite in_flat_map. split.
  - intros (step & Hs & Hk). apply in_map_iff in Hk. destruct Hk as (f & Hk & Hf).
    exists step, f. auto.
  - intros (step & f & Hs & Hf & Hk). exists step. split; [assumption |].
    apply in_map_iff. exists f. auto.
Qed.

Lemma exportCompleteFlow_metadata_witness :
  exists st' document,
    exportCompleteFlow twoPages "2024-01-01T00:00:00.000Z" = Exported st' document
    /\ FlowData.totalFields document = 2
    /\ map StepEntry.order (FlowData.steps document) = [1; 2].
Proof.
  destruct (exportCompleteFlow twoPages "2024-01-01T00:00:00.000Z")
    as [| | st' document] eqn:E; try (vm_compute in E; discriminate).
  exists st', document. split; [reflexivity |].
  destruct (exportCompleteFlow_metadata _ _ _ _ E)
    as (_ & _ & _ & _ & _ & Horder & _ & Hfields & _).
  split; [exact Hfields | exact Horder].
Defined.

(** X8: when the export produces nothing.  It is refused exactly for a flow
    with no page.  It throws exactly when the page being shown has a
    non-title field whose id is ["ui:order"], whatever the other pages
    hold: a field of that id on a page that is not shown does not stop the
    export. *)
Theorem exportCompleteFlow_failures (st : State) (created : string) :
  (parsedSteps st = [] <->
   exportCompleteFlow st created
   = ExportRefused (setSaveStatus "⚠️ Cannot export empty flow" st))
  /\ (exportCompleteFlow st created = ExportThrows
      <-> exists step f,
            currentStep st = Some step /\ In f (Step.fields step)
            /\ FormField.type f <> Title /\ FormField.id f = "ui:order").
Proof.
  assert (generateAllSchemas st = None
          <-> exists step f,
                currentStep st = Some step /\ In f (Step.fields step)
                /\ FormField.type f <> Title /\ FormField.id f = "ui:order") as Hthrow.
  { destruct (currentStep st) as [step |] eqn:Hstep.
    - etransitivity; [apply (schemas_throw_iff st step Hstep) |]. split.
      + intros (f & Hf). exists step, f. auto.
      + intros (step' & f & Heq & Hf). injection Heq as <-. eauto.
    - unfold generateAllSchemas. rewrite Hstep. split; [discriminate |].
      intros (step & f & Heq & _). discriminate Heq. }
  unfold exportCompleteFlow, flowData.
  destruct (parsedSteps st) as [| s l] eqn:Hsteps.
  - split; [split; reflexivity |].
    split; [discriminate |]. intros (step & f & Hcur & _).
    unfold currentStep in Hcur. rewrite Hsteps in Hcur. discriminate Hcur.
  - rewrite <- Hsteps.
    destruct (generateAllSchemas st) as [schemas |] eqn:Hgen.
    + rewrite (imap_exportStep st schemas) by assumption. rewrite mapM_imap_Some.
      split; [split; intros H; [rewrite Hsteps in H |]; discriminate H |].
      split; [intros H; discriminate H |].
      intros H. apply Hthrow in H. discriminate H.
    + rewrite imap_exportStep_throws by (assumption || (rewrite Hsteps; discriminate)).
      split; [split; intros H; [rewrite Hsteps in H |]; discriminate H |].
      split; [| reflexivity]. intros _. now apply Hthrow.
Qed.

(** ** Deleting a field *)

Lemma parsedSteps_setSteps (newSteps : list Step) (st : State) :
  newSteps <> [] -> parsedSteps (setSteps newSteps st) = newSteps.
Proof.
  intros Hne. unfold parsedSteps. simpl. destruct newSteps; [contradiction | reflexivity].
Qed.

Lemma insert_nonempty {A : Type} (l : list A) (i : nat) (x : A) :
  i < length l -> <[i := x]> l <> [].
Proof.
  intros Hlt E. apply (f_equal length) in E. rewrite length_insert in E.
  simpl in E. lia.
Qed.

Lemma deleteField_steps (fieldId : string) (st : State) (step : Step) :
  currentStep st = Some step ->
  parsedSteps (deleteField fieldId st)
  = <[currentStepIndex st := withoutField fieldId step]> (parsedSteps st)
  /\ currentStep (deleteField fieldId st) = Some (withoutField fieldId step).
Proof.
  intros Hstep. pose proof (lookup_lt_Some _ _ _ Hstep) as Hlt.
  unfold currentStep, deleteField. fold (currentStep st). rewrite Hstep.
  rewrite parsedSteps_setSteps by now apply insert_nonempty.
  split; [reflexivity |]. simpl. now apply list_lookup_insert_eq.
Qed.

(** The clean-up of one kept field (lines 914-919). *)
Lemma withoutField_fields (fieldId : string) (step : Step) (f : FormField) :
  In f (Step.fields (withoutField fieldId step))
  <-> exists g,
        In g (Step.fields step) /\ FormField.id g <> fieldId
        /\ f = (if bool_decide (FormField.dependsOn g = Some fieldId)
                then dependent g None None else g).
Proof.
  unfold withoutField. simpl. rewrite in_map_iff. split.
  - intros (g & <- & Hg). apply filter_In in Hg. destruct Hg as [Hg Hid].
    exists g. split; [assumption |]. split.
    + intros Heq. rewrite Heq, String.eqb_refl in Hid. discriminate.
    + destruct (FormField.dependsOn g) as [d |] eqn:Hd.
      * destruct (String.eqb_spec d fieldId) as [-> | Hne].
        -- now rewrite bool_decide_eq_true_2.
        -- rewrite bool_decide_eq_false_2; [reflexivity | congruence].
      * now rewrite bool_decide_eq_false_2.
  - intros (g & Hg & Hid & ->). exists g. split.
    + destruct (FormField.dependsOn g) as [d |] eqn:Hd.
      * destruct (String.eqb_spec d fieldId) as [-> | Hne].
        -- now rewrite bool_decide_eq_true_2.
        -- rewrite bool_decide_eq_false_2; [reflexivity | congruence].
      * now rewrite bool_decide_eq_false_2.
    + apply filter_In. split; [assumption |].
      apply negb_true_iff. now apply String.eqb_neq.
Qed.

Lemma withoutField_ids (fieldId : string) (step : Step) :
  map FormField.id (Step.fields (withoutField fieldId step))
  = List.filter (fun k => negb (k =? fieldId)) (map FormField.id (Step.fields step)).
Proof.
  unfold withoutField. simpl. induction (Step.fields step) as [| f l IH]; [reflexivity |].
  simpl. destruct (negb (FormField.id f =? fieldId)); simpl; [| exact IH].
  f_equal; [| exact IH].
  destruct (FormField.dependsOn f) as [d |]; [| reflexivity].
  now destruct (d =? fieldId).
Qed.

(** X9: deleting a field of the page being shown removes every field of that
    id and nothing else, keeps the order of the others, and leaves no
    reference to the id behind: no remaining field depends on it and the
    navigation rule does not read it.  A field that depended on it loses its
    dependency and is otherwise unchanged; a rule on another field, the other
    pages, the page index and the answers are untouched. *)
Theorem deleteField_cleans (fieldId : string) (st : State) (step : Step) :
  currentStep st = Some step ->
  exists step',
    currentStep (deleteField fieldId st) = Some step'
    /\ map FormField.id (Step.fields step')
       = List.filter (fun k => negb (k =? fieldId)) (map FormField.id (Step.fields step))
    /\ (forall f,
          In f (Step.fields step') ->
          FormField.id f <> fieldId
          /\ FormField.dependsOn f <> Some fieldId
          /\ (In f (Step.fields step)
              \/ exists g, In g (Step.fields step)
                           /\ FormField.dependsOn g = Some fieldId
                           /\ f = dependent g None None))
    /\ (forall rule,
          Step.navigationRule step' = Some rule
          <-> Step.navigationRule step = Some rule
              /\ NavigationRule.fieldId rule <> fieldId)
    /\ (Step.id step', Step.name step', Step.description step',
        Step.actionName step', Step.summaryCheckExpression step')
       = (Step.id step, Step.name step, Step.description step,
          Step.actionName step, Step.summaryCheckExpression step)
    /\ length (parsedSteps (deleteField fieldId st)) = length (parsedSteps st)
    /\ (forall i, i <> currentStepIndex st ->
                  parsedSteps (deleteField fieldId st) !! i = parsedSteps st !! i)
    /\ currentStepIndex (deleteField fieldId st) = currentStepIndex st
    /\ previewData (deleteField fieldId st) = previewData st.
Proof.
  intros Hstep. destruct (deleteField_steps fieldId st step Hstep) as [Hsteps Hcur].
  exists (withoutField fieldId step).
  split; [exact Hcur |]. split; [apply withoutField_ids |].
  split; [| split; [| split; [reflexivity |]]].
  - intros f Hf. apply withoutField_fields in Hf. destruct Hf as (g & Hg & Hid & ->).
    destruct (bool_decide (FormField.dependsOn g = Some fieldId)) eqn:E.
    + apply bool_decide_eq_true_1 in E.
      split; [exact Hid |]. split; [discriminate |]. right. exists g. auto.
    + apply bool_decide_eq_false_1 in E. auto.
  - intros rule. unfold withoutField. simpl.
    destruct (Step.navigationRule step) as [r |]; [| split; [discriminate | intros [H _]; discriminate H]].
    destruct (String.eqb_spec (NavigationRule.fieldId r) fieldId) as [Heq | Hne].
    + split; [discriminate |]. intros [H Hr]. injection H as <-. contradiction.
    + split; [intros H; injection H as <-; auto | intros [H _]; exact H].
  - rewrite Hsteps. split; [apply length_insert |].
    split; [intros i Hi; now apply list_lookup_insert_ne |].
    unfold deleteField. rewrite Hstep. split; reflexivity.
Qed.

Lemma deleteField_cleans_witness :
  exists step',
    currentStep (deleteField "country" (preview [addressPage] 0 [])) = Some step'
    /\ map FormField.id (Step.fields step') = ["city"].
Proof.
  destruct (deleteField_cleans "country" (preview [addressPage] 0 []) addressPage eq_refl)
    as (step' & Hcur & Hids & _).
  exists step'. split; [exact Hcur | exact Hids].
Defined.

Lemma withoutField_idempotent (fieldId : string) (step : Step) :
  withoutField fieldId (withoutField fieldId step) = withoutField fieldId step.
Proof.
  unfold withoutField. simpl. f_equal.
  - induction (Step.fields step) as [| f l IH]; [reflexivity |].
    simpl. destruct (negb (FormField.id f =? fieldId)) eqn:Hid; simpl; [| exact IH].
    assert (FormField.id
              match FormField.dependsOn f with
              | Some d => if d =? fieldId then dependent f None None else f
              | None => f
              end = FormField.id f) as ->.
    { destruct (FormField.dependsOn f) as [d |]; [| reflexivity].
      now destruct (d =? fieldId). }
    rewrite Hid. simpl. f_equal; [| exact IH].
    destruct (FormField.dependsOn f) as [d |] eqn:Hd; [| now rewrite Hd].
    destruct (d =? fieldId) eqn:E; [reflexivity |]. now rewrite Hd, E.
  - destruct (Step.navigationRule step) as [r |]; [| reflexivity].
    destruct (NavigationRule.fieldId r =? fieldId) eqn:E; [reflexivity |].
    now rewrite E.
Qed.

(** X10: deleting the same field a second time changes nothing. *)
Theorem deleteField_idempotent (fieldId : string) (st : State) :
  deleteField fieldId (deleteField fieldId st) = deleteField fieldId st.
Proof.
  destruct (currentStep st) as [step |] eqn:Hstep.
  - destruct (deleteField_steps fieldId st step Hstep) as [Hsteps Hcur].
    unfold deleteField at 1. rewrite Hcur, Hsteps, withoutField_idempotent.
    unfold deleteField. rewrite Hstep. unfold setSteps. simpl.
    now rewrite list_insert_insert_eq.
  - unfold deleteField. now rewrite Hstep, Hstep.
Qed.

(** ** Adding and deleting pages *)

Lemma filter_index_all {A : Type} (l : list A) (i k : nat) :
  i < k -> filter_index (fun index => negb (index =? i)%nat) k l = l.
Proof.
  revert k. induction l as [| x l IH]; intros k Hlt; [reflexivity |]. simpl.
  destruct (Nat.eqb_spec k i) as [-> | _]; [lia |]. simpl. f_equal. apply IH. lia.
Qed.

Lemma filter_index_delete {A : Type} (l : list A) (i k : nat) :
  filter_index (fun index => negb (index =? i + k)%nat) k l = delete i l.
Proof.
  revert i k. induction l as [| x l IH]; intros i k; [reflexivity |]. simpl.
  destruct i as [| j].
  - simpl. rewrite Nat.eqb_refl. simpl. apply filter_index_all. lia.
  - destruct (Nat.eqb_spec k (S j + k)) as [E | _]; [lia |]. simpl. f_equal.
    replace (S (j + k)) with (j + S k) by lia. apply IH.
Qed.

Lemma delete_out_of_range {A : Type} (l : list A) (i : nat) :
  length l <= i -> delete i l = l.
Proof.
  intros Hle. rewrite delete_take_drop, take_ge, drop_ge by lia. apply app_nil_r.
Qed.

Lemma deleteStep_deletes (confirm : string -> bool) (stepIndex : nat) (st : State) :
  1 < length (parsedSteps st) ->
  confirm (deleteStepQuestion stepIndex st) = true ->
  parsedSteps (deleteStep confirm stepIndex st) = delete stepIndex (parsedSteps st)
  /\ currentStepIndex (deleteStep confirm stepIndex st)
     = (if (length (delete stepIndex (parsedSteps st)) <=? currentStepIndex st)%nat
        then length (delete stepIndex (parsedSteps st)) - 1
        else if (stepIndex <=? currentStepIndex st)%nat
             then currentStepIndex st - 1
             else currentStepIndex st).
Proof.
  intros Hlen Hyes. unfold deleteStep.
  destruct (Nat.leb_spec (length (parsedSteps st)) 1) as [Hle | _]; [lia |].
  rewrite Hyes. simpl negb. cbv iota.
  pose proof (filter_index_delete (parsedSteps st) stepIndex 0) as Hdel.
  rewrite Nat.add_0_r in Hdel. rewrite Hdel.
  assert (delete stepIndex (parsedSteps st) <> []) as Hne.
  { intros E. apply (f_equal length) in E.
    destruct (Nat.lt_ge_cases stepIndex (length (parsedSteps st))) as [Hin | Hout].
    - rewrite length_delete in E by now apply lookup_lt_is_Some_2.
      simpl in E. lia.
    - rewrite delete_out_of_range in E by assumption. simpl in E. lia. }
  destruct (length (delete stepIndex (parsedSteps st)) <=? currentStepIndex st)%nat;
    [| destruct (stepIndex <=? currentStepIndex st)%nat].
  - split; [now apply parsedSteps_setSteps | reflexivity].
  - split; [now apply parsedSteps_setSteps | reflexivity].
  - split; [now apply parsedSteps_setSteps | reflexivity].
Qed.

Lemma deleteStep_declined (confirm : string -> bool) (stepIndex : nat) (st : State) :
  length (parsedSteps st) <= 1 \/ confirm (deleteStepQuestion stepIndex st) = false ->
  parsedSteps (deleteStep confirm stepIndex st) = parsedSteps st
  /\ currentStepIndex (deleteStep confirm stepIndex st) = currentStepIndex st.
Proof.
  intros H. unfold deleteStep.
  destruct (Nat.leb_spec (length (parsedSteps st)) 1) as [Hle | Hgt];
    [split; reflexivity |].
  destruct H as [H | ->]; [lia |]. split; reflexivity.
Qed.

(** Where the view is after [deleteStep]. *)
Lemma deleteStep_view (confirm : string -> bool) (stepIndex : nat)
    (st : State) (shown : Step) :
  currentStep st = Some shown ->
  let st' := deleteStep confirm stepIndex st in
  (parsedSteps st' = parsedSteps st
   \/ 1 < length (parsedSteps st)
      /\ confirm (deleteStepQuestion stepIndex st) = true
      /\ parsedSteps st' = delete stepIndex (parsedSteps st))
  /\ parsedSteps st' <> []
  /\ currentStepIndex st' < length (parsedSteps st')
  /\ (stepIndex <> currentStepIndex st -> currentStep st' = Some shown)
  /\ (stepIndex = currentStepIndex st ->
      parsedSteps st' <> parsedSteps st ->
      currentStep st'
      = parsedSteps st !! (if (stepIndex =? 0)%nat then 1 else stepIndex - 1)).
Proof.
  intros Hshown st'. unfold currentStep in Hshown.
  pose proof (lookup_lt_Some _ _ _ Hshown) as Hlt.
  destruct (Nat.leb_spec (length (parsedSteps st)) 1) as [Hle | Hgt];
    [| destruct (confirm (deleteStepQuestion stepIndex st)) eqn:Hyes].
  - destruct (deleteStep_declined confirm stepIndex st (or_introl Hle)) as [Hs Hi].
    fold st' in Hs, Hi. unfold currentStep. rewrite Hs, Hi.
    split; [now left |]. split; [intros E; rewrite E in Hlt; simpl in Hlt; lia |].
    split; [exact Hlt |]. split; [intros _; exact Hshown |].
    intros _ Hne. contradiction.
  - destruct (deleteStep_deletes confirm stepIndex st Hgt Hyes) as [Hs Hi].
    fold st' in Hs, Hi. unfold currentStep. rewrite Hs, Hi. clear Hs Hi.
    destruct (Nat.lt_ge_cases stepIndex (length (parsedSteps st))) as [Hin | Hout].
    + destruct (lookup_lt_is_Some_2 _ _ Hin) as [gone Hgone].
      pose proof (length_delete _ _ (ex_intro _ gone Hgone)) as Hlen.
      split; [right; auto |].
      split; [intros E; rewrite E in Hlen; simpl in Hlen; lia |].
      rewrite Hlen.
      destruct (Nat.leb_spec (length (parsedSteps st) - 1) (currentStepIndex st))
        as [Hlast | Hnot].
      * split; [lia |]. split.
        -- intros Hne. rewrite list_lookup_delete_ge by lia.
           rewrite <- Hshown. f_equal. lia.
        -- intros -> _.
           destruct (Nat.eqb_spec (currentStepIndex st) 0) as [E0 | Hn0]; [lia |].
           rewrite list_lookup_delete_lt by lia. f_equal. lia.
      * destruct (Nat.leb_spec stepIndex (currentStepIndex st)) as [Hbefore | Hafter].
        -- split; [lia |]. split.
           ++ intros Hne. rewrite list_lookup_delete_ge by lia.
              rewrite <- Hshown. f_equal. lia.
           ++ intros -> _.
              destruct (Nat.eqb_spec (currentStepIndex st) 0) as [E0 | Hn0].
              ** rewrite E0. simpl. rewrite list_lookup_delete_ge by lia. reflexivity.
              ** rewrite list_lookup_delete_lt by lia. reflexivity.
        -- split; [lia |]. split.
           ++ intros _. rewrite list_lookup_delete_lt by lia. exact Hshown.
           ++ intros ->. lia.
    + rewrite delete_out_of_range by assumption.
      split; [now left |].
      split; [intros E; rewrite E in Hlt; simpl in Hlt; lia |].
      destruct (Nat.leb_spec (length (parsedSteps st)) (currentStepIndex st)); [lia |].
      destruct (Nat.leb_spec stepIndex (currentStepIndex st)); [lia |].
      split; [exact Hlt |]. split; [intros _; exact Hshown |]. intros ->. lia.
  - destruct (deleteStep_declined confirm stepIndex st (or_intror Hyes)) as [Hs Hi].
    fold st' in Hs, Hi. unfold currentStep. rewrite Hs, Hi.
    split; [now left |]. split; [intros E; rewrite E in Hlt; simpl in Hlt; lia |].
    split; [exact Hlt |]. split; [intros _; exact Hshown |].
    intros _ Hne. contradiction.
Qed.

(** X11: deleting a page.  From a flow of one page nothing is deleted and
    the status line says so; when the user declines nothing changes at all;
    otherwise exactly the page at the index goes: the flow has one page less,
    the pages before the index keep their places and the pages after it move
    up by one.  In every case a flow with pages keeps at least one page, and
    a page that was being shown and is not the deleted one is still the page
    shown afterwards; when the shown page itself is deleted the view moves to
    the page before it, or to the page after it when it was the first. *)
Theorem deleteStep_shown_page (confirm : string -> bool) (stepIndex : nat)
    (st : State) (shown : Step) :
  currentStep st = Some shown ->
  let st' := deleteStep confirm stepIndex st in
  (length (parsedSteps st) <= 1 ->
   parsedSteps st' = parsedSteps st
   /\ currentStepIndex st' = currentStepIndex st
   /\ saveStatus st' = "⚠️ Cannot delete the last page")
  /\ (1 < length (parsedSteps st) ->
      confirm (deleteStepQuestion stepIndex st) = false ->
      st' = st)
  /\ (1 < length (parsedSteps st) ->
      confirm (deleteStepQuestion stepIndex st) = true ->
      stepIndex < length (parsedSteps st) ->
      length (parsedSteps st') = length (parsedSteps st) - 1
      /\ (forall i, i < stepIndex -> parsedSteps st' !! i = parsedSteps st !! i)
      /\ (forall i, stepIndex <= i -> parsedSteps st' !! i = parsedSteps st !! (i + 1))
      /\ saveStatus st' = saveStatus st)
  /\ parsedSteps st' <> []
  /\ currentStepIndex st' < length (parsedSteps st')
  /\ (stepIndex <> currentStepIndex st -> currentStep st' = Some shown)
  /\ (stepIndex = currentStepIndex st ->
      1 < length (parsedSteps st) ->
      confirm (deleteStepQuestion stepIndex st) = true ->
      currentStep st'
      = parsedSteps st !! (if (stepIndex =? 0)%nat then 1 else stepIndex - 1)).
Proof.
  intros Hshown st'.
  destruct (deleteStep_view confirm stepIndex st shown Hshown)
    as (_ & Hpages & Hindex & Hkept & Hmoved).
  fold st' in Hpages, Hindex, Hkept, Hmoved.
  split; [| split; [| split; [| split; [| split; [| split]]]]];
    try assumption.
  - intros Hone.
    destruct (deleteStep_declined confirm stepIndex st (or_introl Hone)) as [Hs Hi].
    split; [exact Hs |]. split; [exact Hi |].
    subst st'. unfold deleteStep.
    destruct (Nat.leb_spec (length (parsedSteps st)) 1); [reflexivity | lia].
  - intros Hmany Hno. subst st'. unfold deleteStep.
    destruct (Nat.leb_spec (length (parsedSteps st)) 1); [lia |].
    now rewrite Hno.
  - intros Hmany Hyes Hin.
    destruct (deleteStep_deletes confirm stepIndex st Hmany Hyes) as [Hs _].
    fold st' in Hs. rewrite Hs.
    split; [| split; [| split]].
    + rewrite length_delete by now apply lookup_lt_is_Some_2. reflexivity.
    + intros i Hi. now apply list_lookup_delete_lt.
    + intros i Hi. rewrite list_lookup_delete_ge by assumption. f_equal. lia.
    + subst st'. unfold deleteStep.
      destruct (Nat.leb_spec (length (parsedSteps st)) 1); [lia |].
      rewrite Hyes. simpl negb. cbv iota.
      repeat match goal with |- context [if ?c then _ else _] => destruct c end;
        reflexivity.
  - intros Heq Hmany Hyes. apply Hmoved; [assumption |].
    destruct (deleteStep_deletes confirm stepIndex st Hmany Hyes) as [Hs _].
    fold st' in Hs. rewrite Hs. intros E. apply (f_equal length) in E.
    unfold currentStep in Hshown. apply lookup_lt_Some in Hshown.
    rewrite length_delete in E by (apply lookup_lt_is_Some_2; lia). lia.
Qed.

Lemma deleteStep_shown_page_witness :
  currentStep (deleteStep (fun _ => true) 0 (atPage 1 twoPages)) = Some secondPage
  /\ length (parsedSteps (deleteStep (fun _ => true) 0 (atPage 1 twoPages))) = 1.
Proof.
  destruct (deleteStep_shown_page (fun _ => true) 0 (atPage 1 twoPages) secondPage eq_refl)
    as (_ & _ & Hgone & _ & _ & Hkept & _).
  split.
  - apply Hkept. cbn. lia.
  - apply Hgone; [cbn; lia | reflexivity | cbn; lia].
Defined.

Lemma addStep_pages (st : State) :
  parsedSteps (addStep st)
  = (parsedSteps st ++ [newStep (length (parsedSteps st) + 1)])%list
  /\ currentStepIndex (addStep st) = length (parsedSteps st).
Proof.
  unfold addStep. split; [| reflexivity].
  change (parsedSteps (setCurrentStepIndex ?i ?s)) with (parsedSteps s).
  apply parsedSteps_setSteps. now destruct (parsedSteps st).
Qed.


Lemma iter_addStep_pages (st : State) (k : nat) :
  steps st = [] -> isNewFlow st = true ->
  parsedSteps (Nat.iter k addStep st) = defaultStep :: map newStep (seq 2 k).
Proof.
  intros Hsteps Hnew. induction k as [| k IH].
  - simpl. unfold parsedSteps. now rewrite Hsteps, Hnew.
  - rewrite Nat.iter_succ. destruct (addStep_pages (Nat.iter k addStep st)) as [-> _].
    rewrite IH. simpl length. rewrite length_map, length_seq, seq_S, map_app.
    simpl. now replace (k + 1) with (S k) by lia.
Qed.

Lemma lookup_List_map {A B : Type} (f : A -> B) (l : list A) (i : nat) :
  map f l !! i = f <$> l !! i.
Proof.
  revert i. induction l as [| x l IH]; intros [| i]; try reflexivity. apply IH.
Qed.

Lemma newStep_id_inj : Inj (=) (=) (fun n : nat => "step" ++ pretty n).
Proof.
  intros a b H. apply String.app_inj in H. now apply pretty_nat_inj.
Qed.

(** X13: page ids.  Starting from a new flow, any number of added pages have
    pairwise distinct ids.  Deleting any page but the last and adding a page
    again gives the new page the id of the page before it: two pages then
    share an id. *)
Theorem addStep_ids (st : State) (k : nat) :
  steps st = [] -> isNewFlow st = true ->
  NoDup (map Step.id (parsedSteps (Nat.iter k addStep st)))
  /\ (forall confirm i,
        i < k ->
        confirm (deleteStepQuestion i (Nat.iter k addStep st)) = true ->
        let st' := addStep (deleteStep confirm i (Nat.iter k addStep st)) in
        exists last added,
          parsedSteps st' !! (k - 1) = Some last
          /\ parsedSteps st' !! k = Some added
          /\ Step.id last = Step.id added).
Proof.
  intros Hsteps Hnew. pose proof (iter_addStep_pages st k Hsteps Hnew) as Hpages.
  split.
  - rewrite Hpages.
    change (map Step.id (defaultStep :: map newStep (seq 2 k)))
      with (("step" ++ pretty 1%nat) :: map Step.id (map newStep (seq 2 k))).
    rewrite map_map.
    change (NoDup ((fun n : nat => "step" ++ pretty n) <$> (1 :: seq 2 k))).
    apply (NoDup_fmap_2 _ (Inj0 := newStep_id_inj)). rewrite cons_seq. apply NoDup_seq.
  - intros confirm i Hi Hyes st'.
    assert (length (parsedSteps (Nat.iter k addStep st)) = S k) as Hlen
        by (rewrite Hpages; simpl; now rewrite length_map, length_seq).
    destruct (deleteStep_deletes confirm i (Nat.iter k addStep st)) as [Hdel _];
      [lia | assumption |].
    assert (length (parsedSteps (deleteStep confirm i (Nat.iter k addStep st))) = k)
      as Hlen'.
    { rewrite Hdel, length_delete by (apply lookup_lt_is_Some_2; lia). lia. }
    destruct (addStep_pages (deleteStep confirm i (Nat.iter k addStep st)))
      as [Hadd _].
    fold st' in Hadd. rewrite Hlen' in Hadd.
    exists (newStep (k + 1)), (newStep (k + 1)).
    split; [| split; [| reflexivity]].
    + rewrite Hadd, lookup_app_l by lia.
      rewrite Hdel, list_lookup_delete_ge by lia.
      rewrite Hpages.
      change ((defaultStep :: map newStep (seq 2 k)) !! S (k - 1))
        with (map newStep (seq 2 k) !! (k - 1)).
      rewrite lookup_List_map, lookup_seq_lt by lia.
      replace (2 + (k - 1)) with (k + 1) by lia. reflexivity.
    + rewrite Hadd, lookup_app_r by lia. rewrite Hlen', Nat.sub_diag. reflexivity.
Qed.

Lemma addStep_ids_witness :
  NoDup (map Step.id (parsedSteps (Nat.iter 2 addStep
                                     (mkState [] true 0 "Flow" false ∅ "")))).
Proof.
  apply (proj1 (addStep_ids (mkState [] true 0 "Flow" false ∅ "") 2 eq_refl eq_refl)).
Defined.

(** ** Answers and visibility *)

Lemma get_insert (answers : gmap string value) (fieldId key : string) (v : value) :
  get (<[fieldId := v]> answers) key
  = if fieldId =? key then v else get answers key.
Proof.
  unfold get. destruct (String.eqb_spec fieldId key) as [-> | Hne].
  - now rewrite lookup_insert_eq.
  - now rewrite lookup_insert_ne.
Qed.

Lemma includes_app (l1 l2 : list value) (s : string) :
  includes (l1 ++ l2) s = includes l1 s || includes l2 s.
Proof. apply existsb_app. Qed.

Lemma includes_filter (l : list value) (option s : string) :
  includes (List.filter (fun v => negb (strict_eq_str v option)) l) s
  = if option =? s then false else includes l s.
Proof.
  induction l as [| v l IH]; simpl; [now destruct (option =? s) |].
  destruct (strict_eq_str v option) eqn:E; simpl; rewrite IH.
  - destruct v; try discriminate. simpl in E. apply String.eqb_eq in E. subst s0.
    simpl. destruct (String.eqb_spec option s) as [-> | Hne]; [reflexivity |].
    destruct (String.eqb_spec option s); [contradiction | reflexivity].
  - destruct (String.eqb_spec option s) as [-> | Hne]; [| reflexivity].
    now rewrite E.
Qed.

(** X14: how an answer shows or hides a dependent field.  For a field that
    depends on a driver of the page being shown: ticking or unticking the
    option named by [showWhen] on a checkbox driver shows or hides it, and
    touching another option leaves it as the driver's displayed selection
    has it; on any other driver it shows exactly when the entered text is
    [showWhen]; and an answer to any other field does not affect it. *)
Theorem answer_drives_visibility (st : State) (parent dep : FormField) (show : string) :
  find_field (currentStep st) (FormField.id parent) = Some parent ->
  FormField.dependsOn dep = Some (FormField.id parent) ->
  FormField.showWhen dep = Some show ->
  FormField.id parent <> "" ->
  show <> "" ->
  (FormField.type parent = Checkbox ->
   forall option checked,
     isFieldVisible (toggleCheckbox parent option checked st) dep
     = if option =? show then checked
       else includes (array_or_empty
                        (renderFieldValue st parent
                           (get (previewData st) (FormField.id parent)))) show)
  /\ (FormField.type parent <> Checkbox ->
      forall answer,
        isFieldVisible (updatePreviewData (FormField.id parent) (VStr answer) st) dep
        = (answer =? show))
  /\ (forall other v,
        other <> FormField.id parent ->
        isFieldVisible (updatePreviewData other v st) dep = isFieldVisible st dep).
Proof.
  intros Hparent Hdep Hshow Hid Hne.
  assert (forall key v,
             isFieldVisible (updatePreviewData key v st) dep
             = let dependentValue :=
                 if key =? FormField.id parent then v
                 else get (previewData st) (FormField.id parent) in
               if is_unset dependentValue then false
               else match FormField.type parent with
                    | Checkbox => includes (array_or_empty dependentValue) show
                    | _ => strict_eq_str dependentValue show
                    end) as Hvisible.
  { intros key v. unfold isFieldVisible. rewrite Hdep, Hshow. simpl.
    apply String.eqb_neq in Hid, Hne. rewrite Hid, Hne. simpl.
    change (currentStep (updatePreviewData key v st)) with (currentStep st).
    rewrite Hparent.
    rewrite get_insert.
    destruct (key =? FormField.id parent); destruct (FormField.type parent); reflexivity. }
  split; [| split].
  - intros Htype option checked. unfold toggleCheckbox. rewrite Hvisible. cbv zeta.
    rewrite String.eqb_refl, Htype. cbn [is_unset array_or_empty]. destruct checked.
    + rewrite includes_app. cbn [includes existsb strict_eq_str]. rewrite orb_false_r.
      destruct (String.eqb_spec option show) as [-> | Hos]; [apply orb_true_r |].
      apply orb_false_r.
    + apply includes_filter.
  - intros Htype answer. rewrite Hvisible. simpl. rewrite String.eqb_refl. simpl.
    destruct (String.eqb_spec answer "") as [-> | Ha].
    + symmetry. apply String.eqb_neq. congruence.
    + destruct (FormField.type parent); try reflexivity. contradiction.
  - intros other v Hother. rewrite Hvisible. simpl.
    apply String.eqb_neq in Hother. rewrite Hother.
    unfold isFieldVisible. rewrite Hdep, Hshow. simpl.
    apply String.eqb_neq in Hid, Hne. rewrite Hid, Hne. simpl. rewrite Hparent.
    destruct (FormField.type parent); reflexivity.
Qed.

Lemma answer_drives_visibility_witness :
  isFieldVisible (updatePreviewData "country" (VStr "US") (preview [addressPage] 0 []))
                 cityField = true.
Proof.
  destruct (answer_drives_visibility (preview [addressPage] 0 []) countryField cityField
              "US" eq_refl eq_refl eq_refl) as (_ & Htext & _); [discriminate .. |].
  apply Htext. discriminate.
Defined.

(** A checkbox driver whose id is a name that every object inherits: before
    the first tick the field reads the inherited function as its answer, so
    the default selection is not shown and the first tick starts from the
    empty selection. *)
Lemma toggleCheckbox_inherited_example :
  renderFieldValue inheritedDriverState inheritedDriver
    (get (previewData inheritedDriverState) (FormField.id inheritedDriver))
  = VNative (NativeFunction "Object")
  /\ previewData (toggleCheckbox inheritedDriver "b" true inheritedDriverState)
       !! FormField.id inheritedDriver
     = Some (VArr [VStr "b"])
  /\ isFieldVisible (toggleCheckbox inheritedDriver "b" true inheritedDriverState)
                    (dependent (basicField "detail" Text "Detail" false)
                               (Some "constructor") (Some "a"))
     = false.
Proof. repeat split. Qed.

(** ** File upload *)

Lemma filter_none_iff {A : Type} (p : A -> bool) (l : list A) :
  (0 <? length (List.filter p l))%nat = false <-> Forall (fun x => p x = false) l.
Proof.
  induction l as [| x l IH]; simpl.
  - split; [constructor | reflexivity].
  - destruct (p x) eqn:E; simpl.
    + split; [discriminate |]. intros H. inversion H; congruence.
    + rewrite IH. split; [now constructor | intros H; now inversion H].
Qed.



Lemma split_on_head (base rest : string) :
  has_char "/" base = false ->
  hd "" (split_on "/" (base ++ String "/" rest)) = base.
Proof.
  induction base as [| c base IH]; intros Hno.
  - rewrite append_nil_l. reflexivity.
  - rewrite append_cons. simpl in Hno. apply orb_false_elim in Hno.
    destruct Hno as [Hc Hno]. cbn [split_on]. rewrite Hc.
    specialize (IH Hno). destruct (split_on "/" (base ++ String "/" rest)) as [| w ws].
    + simpl in IH. now subst base.
    + simpl in IH. now subst w.
Qed.

Lemma has_char_app (c : ascii) (a b : string) :
  has_char c (a ++ b) = has_char c a || has_char c b.
Proof.
  induction a as [| d a IH]; [now rewrite append_nil_l |].
  rewrite append_cons. simpl. now rewrite IH, orb_assoc.
Qed.

Lemma prefix_app (a b : string) : String.prefix a (a ++ b) = true.
Proof.
  induction a as [| c a IH]; [rewrite append_nil_l; now destruct b |].
  rewrite append_cons. simpl. destruct (ascii_dec c c); [exact IH | contradiction].
Qed.

(** X16: a wildcard entry of the accepted types is compared by its text
    before the first slash only, as a prefix of the file's type: the entry
    [base/*] accepts every type that starts with [base], whatever follows
    (so [image/*] also accepts a type such as [imagery/x], and the entry with
    base [*] accepts no type of the usual form), while an entry without a
    star accepts the identical type only. *)
Theorem acceptsType_wildcard (entry : string) :
  (has_char "/" entry = false ->
   (forall fileType,
      acceptsType (entry ++ "/*") fileType = String.prefix entry fileType)
   /\ (forall rest, acceptsType (entry ++ "/*") (entry ++ rest) = true))
  /\ (has_char "*" entry = false ->
      forall fileType, acceptsType entry fileType = true <-> fileType = entry).
Proof.
  split.
  - intros Hno.
    assert (forall fileType,
               acceptsType (entry ++ "/*") fileType = String.prefix entry fileType)
      as Hprefix.
    { intros fileType. unfold acceptsType.
      rewrite has_char_app. replace (has_char "*" "/*") with true by reflexivity.
      rewrite orb_true_r. now rewrite split_on_head. }
    split; [exact Hprefix |]. intros rest. rewrite Hprefix. apply prefix_app.
  - intros Hstar fileType. unfold acceptsType. rewrite Hstar. apply String.eqb_eq.
Qed.

Lemma acceptsType_wildcard_witness :
  acceptsType "image/*" "imagery/x" = true
  /\ acceptsType "*/*" "image/png" = false
  /\ acceptsType "application/pdf" "application/pdf" = true.
Proof.
  split; [| split].
  - apply (proj2 (proj1 (acceptsType_wildcard "image") eq_refl) "ry/x").
  - rewrite (proj1 (proj1 (acceptsType_wildcard "*") eq_refl)). reflexivity.
  - now apply (proj2 (acceptsType_wildcard "application/pdf") eq_refl).
Defined.

(** ** The navigation summary line *)

Lemma getNextStepLogic_arrow (st : State) (step : Step) (rule : NavigationRule)
    (driver : FormField) :
  currentStep st = Some step ->
  Step.navigationRule step = Some rule ->
  find_field (Some step) (NavigationRule.fieldId rule) = Some driver ->
  is_unset (get (previewData st) (NavigationRule.fieldId rule)) = false ->
  getNextStepLogic st
  = dq ++ toString (get (previewData st) (NavigationRule.fieldId rule)) ++ dq ++ " → "
       ++ dq ++ resolveTarget rule driver (get (previewData st) (NavigationRule.fieldId rule))
       ++ dq.
Proof.
  intros Hstep Hrule Hdriver Hset. unfold getNextStepLogic.
  rewrite Hstep, Hrule. cbv zeta. rewrite Hset. simpl in Hdriver. rewrite Hdriver.
  unfold resolveTarget.
  destruct (FormField.type driver);
    match goal with
    | |- context [find ?p ?l] => destruct (find p l); reflexivity
    end.
Qed.



(** ** Reordering fields *)

Lemma moveField_moves (fromIndex toIndex : nat) (st : State) (step : Step)
    (moved : FormField) :
  currentStep st = Some step ->
  Step.fields step !! fromIndex = Some moved ->
  exists st',
    moveField fromIndex toIndex st = Some st'
    /\ parsedSteps st'
       = <[currentStepIndex st :=
             withFields (splice_insert toIndex moved (delete fromIndex (Step.fields step)))
                        step]> (parsedSteps st)
    /\ currentStepIndex st' = currentStepIndex st
    /\ currentStep st'
       = Some (withFields (splice_insert toIndex moved (delete fromIndex (Step.fields step)))
                          step).
Proof.
  intros Hstep Hmoved. unfold moveField. rewrite Hstep, Hmoved.
  pose proof (lookup_lt_Some _ _ _ Hstep) as Hlt.
  eexists. split; [reflexivity |].
  assert (parsedSteps
            (setSteps
               (<[currentStepIndex st :=
                    withFields (splice_insert toIndex moved
                                  (delete fromIndex (Step.fields step))) step]>
                  (parsedSteps st)) st)
          = <[currentStepIndex st :=
                withFields (splice_insert toIndex moved
                              (delete fromIndex (Step.fields step))) step]>
              (parsedSteps st)) as Hsteps
      by (apply parsedSteps_setSteps; now apply insert_nonempty).
  split; [exact Hsteps |]. split; [reflexivity |].
  unfold currentStep. rewrite Hsteps. simpl. now apply list_lookup_insert_eq.
Qed.

Lemma app_cons_assoc {A : Type} (l1 : list A) (x : A) (l2 : list A) :
  (l1 ++ x :: l2 = (l1 ++ [x]) ++ l2)%list.
Proof. now rewrite <- app_assoc. Qed.

Lemma splice_down {A : Type} (before after : list A) (a b : A) :
  splice_insert (length before + 1) a
    (delete (length before) (before ++ a :: b :: after)%list)
  = (before ++ b :: a :: after)%list.
Proof.
  rewrite delete_middle. unfold splice_insert.
  rewrite (app_cons_assoc before b after).
  rewrite take_app_length', drop_app_length' by (rewrite length_app; simpl; lia).
  now rewrite <- app_assoc.
Qed.

Lemma splice_up {A : Type} (before after : list A) (a b : A) :
  splice_insert (S (length before) - 1) b
    (delete (S (length before)) (before ++ a :: b :: after)%list)
  = (before ++ b :: a :: after)%list.
Proof.
  rewrite (app_cons_assoc before a (b :: after)).
  replace (delete (S (length before)) ((before ++ [a]) ++ b :: after)%list)
    with (delete (length (before ++ [a])%list) ((before ++ [a]) ++ b :: after)%list)
    by (rewrite length_app; simpl; do 2 f_equal; lia).
  rewrite delete_middle. unfold splice_insert. rewrite <- app_assoc.
  replace (S (length before) - 1) with (length before) by lia.
  now rewrite take_app_length, drop_app_length.
Qed.

Lemma splice_insert_permutation {A : Type} (i : nat) (x : A) (l : list A) :
  splice_insert i x l ≡ₚ x :: l.
Proof.
  unfold splice_insert. rewrite <- Permutation_middle. now rewrite take_drop.
Qed.

(** X18: moving a field of the page being shown, from a position the page
    has to any position, neither loses nor duplicates a field: the page's
    fields afterwards are a rearrangement of its fields before, the moved
    field sits at the target position (at the end when the target is beyond
    it), and the page's other properties, the other pages and the page index
    are untouched. *)
Theorem moveField_permutes (fromIndex toIndex : nat) (st : State) (step : Step)
    (moved : FormField) :
  currentStep st = Some step ->
  Step.fields step !! fromIndex = Some moved ->
  exists st' step',
    moveField fromIndex toIndex st = Some st'
    /\ currentStep st' = Some step'
    /\ Step.fields step' ≡ₚ Step.fields step
    /\ Step.fields step' !! Nat.min toIndex (length (Step.fields step) - 1) = Some moved
    /\ withFields (Step.fields step) step' = step
    /\ currentStepIndex st' = currentStepIndex st
    /\ length (parsedSteps st') = length (parsedSteps st)
    /\ (forall i, i <> currentStepIndex st -> parsedSteps st' !! i = parsedSteps st !! i).
Proof.
  intros Hstep Hmoved.
  destruct (moveField_moves fromIndex toIndex st step moved Hstep Hmoved)
    as (st' & Hmove & Hsteps & Hindex & Hcur).
  exists st'. eexists. split; [exact Hmove |]. split; [exact Hcur |].
  pose proof (lookup_lt_Some _ _ _ Hmoved) as Hlt.
  assert (length (delete fromIndex (Step.fields step)) = length (Step.fields step) - 1)
    as Hlen by (apply length_delete; eauto).
  split; [| split; [| split; [| split; [| split]]]].
  - simpl. rewrite splice_insert_permutation. symmetry. now apply delete_Permutation.
  - simpl. unfold splice_insert.
    apply list_lookup_middle. rewrite length_take. lia.
  - unfold withFields. simpl. now destruct step.
  - exact Hindex.
  - rewrite Hsteps. apply length_insert.
  - intros i Hi. rewrite Hsteps. now apply list_lookup_insert_ne.
Qed.

Lemma moveField_permutes_witness :
  exists st' step',
    moveField 0 1 (preview [addressPage] 0 []) = Some st'
    /\ currentStep st' = Some step'
    /\ Step.fields step' !! 1 = Some countryField.
Proof.
  destruct (moveField_permutes 0 1 (preview [addressPage] 0 []) addressPage countryField
              eq_refl eq_refl) as (st' & step' & Hmove & Hcur & _ & Hat & _).
  exists st', step'. split; [exact Hmove | split; [exact Hcur | exact Hat]].
Defined.

(** X19: the arrow buttons.  Moving the field at a position down swaps it
    with the next field and leaves the rest of the page as it is; moving the
    field below up does the same; and moving a field down and then up again
    restores the page.  Neither button does anything at the end of the list
    it points to. *)
Theorem moveFieldDown_up (index : nat) (st : State) (step : Step)
    (before after : list FormField) (upper lower : FormField) :
  currentStep st = Some step ->
  Step.fields step = (before ++ upper :: lower :: after)%list ->
  index = length before ->
  exists st1 st2,
    moveFieldDown index st = Some st1
    /\ moveFieldUp (S index) st = Some st1
    /\ currentStep st1
       = Some (withFields (before ++ lower :: upper :: after)%list step)
    /\ moveFieldUp (S index) st1 = Some st2
    /\ parsedSteps st2 = parsedSteps st
    /\ moveFieldUp 0 st = Some st
    /\ moveFieldDown (length (Step.fields step) - 1) st = Some st.
Proof.
  intros Hstep Hfields ->.
  assert (Step.fields step !! length before = Some upper) as Hupper
      by (rewrite Hfields; now apply list_lookup_middle).
  assert (Step.fields step !! S (length before) = Some lower) as Hlower.
  { rewrite Hfields. rewrite (app_cons_assoc before upper (lower :: after)).
    apply list_lookup_middle. rewrite length_app. simpl. lia. }
  assert (length (Step.fields step) = length before + 2 + length after) as Hlen
      by (rewrite Hfields, length_app; simpl; lia).
  assert (splice_insert (length before + 1) upper (delete (length before) (Step.fields step))
          = (before ++ lower :: upper :: after)%list) as Hdown
      by (rewrite Hfields; apply splice_down).
  assert (splice_insert (S (length before) - 1) lower
            (delete (S (length before)) (Step.fields step))
          = (before ++ lower :: upper :: after)%list) as Hup
      by (rewrite Hfields; apply splice_up).
  destruct (moveField_moves (length before) (length before + 1) st step upper Hstep Hupper)
    as (st1 & Hmove1 & Hsteps1 & Hindex1 & Hcur1).
  rewrite Hdown in Hsteps1, Hcur1.
  assert (moveFieldUp (S (length before)) st = Some st1) as Hsame.
  { unfold moveFieldUp. simpl Nat.ltb. cbv iota.
    unfold moveField in *. rewrite Hstep, Hlower. rewrite Hstep, Hupper in Hmove1.
    rewrite Hup. rewrite Hdown in Hmove1. exact Hmove1. }
  assert (Step.fields (withFields (before ++ lower :: upper :: after)%list step)
            !! S (length before) = Some upper) as Hupper1.
  { simpl. rewrite (app_cons_assoc before lower (upper :: after)).
    apply list_lookup_middle. rewrite length_app. simpl. lia. }
  destruct (moveField_moves (S (length before)) (S (length before) - 1) st1 _ upper
              Hcur1 Hupper1) as (st2 & Hmove2 & Hsteps2 & Hindex2 & Hcur2).
  exists st1, st2. split; [| split; [exact Hsame | split; [exact Hcur1 |]]].
  { unfold moveFieldDown. rewrite Hstep.
    destruct (Nat.ltb_spec (length before) (length (Step.fields step) - 1)); [| lia].
    exact Hmove1. }
  split; [unfold moveFieldUp; simpl Nat.ltb; cbv iota; exact Hmove2 |].
  split.
  - rewrite Hsteps2, Hsteps1, Hindex1, list_insert_insert_eq.
    apply list_insert_id. unfold currentStep in Hstep. rewrite Hstep. f_equal.
    change (Step.fields (withFields (before ++ lower :: upper :: after)%list step))
      with (before ++ lower :: upper :: after)%list.
    rewrite splice_up, <- Hfields. unfold withFields. simpl. now destruct step.
  - split; [reflexivity |]. unfold moveFieldDown. rewrite Hstep.
    destruct (Nat.ltb_spec (length (Step.fields step) - 1) (length (Step.fields step) - 1));
      [lia | reflexivity].
Qed.

Lemma moveFieldDown_up_witness :
  exists st1,
    moveFieldDown 0 (preview [addressPage] 0 []) = Some st1
    /\ currentStep st1 = Some (page "Address" [cityField; countryField] None).
Proof.
  destruct (moveFieldDown_up 0 (preview [addressPage] 0 []) addressPage [] []
              countryField cityField eq_refl eq_refl eq_refl)
    as (st1 & _ & Hdown & _ & Hcur & _).
  exists st1. split; [exact Hdown | exact Hcur].
Defined.

(** ** Adding a field *)

Lemma newField_id (now : Z) (fieldType : FieldType) :
  FormField.id (newField now fieldType)
  = match fieldType with
    | Title => "sectionTitle"
    | Text => "textInput"
    | Textarea => "longText"
    | Select => "selectFromList"
    | Radio => "chooseOption"
    | Checkbox => "selectMultiple"
    | File => "uploadFiles"
    | Readonly => "readonlyText"
    end.
Proof.
  unfold newField, generateMeaningfulId. cbn [FormField.id].
  destruct fieldType;
    match goal with
    | |- context [cleanTitle ?t] =>
        let r := eval vm_compute in (cleanTitle t) in
        change (cleanTitle t) with r
    end; reflexivity.
Qed.

Lemma addField_appends (now : Z) (fieldType : FieldType) (st : State) (step : Step) :
  currentStep st = Some step ->
  addField now fieldType st
  = setSteps (<[currentStepIndex st :=
                  withFields (Step.fields step ++ [newField now fieldType])%list step]>
                (parsedSteps st)) st
  /\ currentStep (addField now fieldType st)
     = Some (withFields (Step.fields step ++ [newField now fieldType])%list step).
Proof.
  intros Hstep. unfold currentStep in Hstep.
  pose proof (lookup_lt_Some _ _ _ Hstep) as Hlt.
  assert (addField now fieldType st
          = setSteps (<[currentStepIndex st :=
                          withFields (Step.fields step ++ [newField now fieldType])%list
                                     step]> (parsedSteps st)) st) as Hadd.
  { unfold addField.
    destruct (Nat.eqb_spec (length (parsedSteps st)) 0) as [E | _]; [lia |].
    replace (Nat.max 0 (Nat.min (currentStepIndex st) (length (parsedSteps st) - 1)))
      with (currentStepIndex st) by lia.
    now rewrite Hstep. }
  split; [exact Hadd |]. rewrite Hadd. unfold currentStep.
  rewrite parsedSteps_setSteps by now apply insert_nonempty.
  simpl. now apply list_lookup_insert_eq.
Qed.

(** X20: adding a field appends it to the page being shown and touches
    nothing else of that page.  The id of the new field is fixed by its kind
    alone: the clock is never consulted, so a second field of the same kind
    gets the id of the first, and the page then holds two fields with one
    id.  On a flow without pages the handler sets up the first page and adds
    no field to it. *)
Theorem addField_ids (now1 now2 : Z) (fieldType : FieldType) (st : State) :
  (forall step,
     currentStep st = Some step ->
     exists once twice,
       currentStep (addField now1 fieldType st) = Some once
       /\ Step.fields once = (Step.fields step ++ [newField now1 fieldType])%list
       /\ withFields (Step.fields step) once = step
       /\ currentStep (addField now2 fieldType (addField now1 fieldType st)) = Some twice
       /\ Step.fields twice
          = (Step.fields step ++ [newField now1 fieldType; newField now2 fieldType])%list
       /\ FormField.id (newField now1 fieldType) = FormField.id (newField now2 fieldType))
  /\ (parsedSteps st = [] ->
      parsedSteps (addField now1 fieldType st) = [defaultStep]
      /\ currentStepIndex (addField now1 fieldType st) = 0).
Proof.
  split.
  - intros step Hstep.
    destruct (addField_appends now1 fieldType st step Hstep) as [_ Hone].
    destruct (addField_appends now2 fieldType _ _ Hone) as [_ Htwo].
    eexists. eexists. split; [exact Hone |]. split; [reflexivity |].
    split; [unfold withFields; simpl; now destruct step |].
    split; [exact Htwo |]. split; [simpl; now rewrite <- app_assoc |].
    now rewrite !newField_id.
  - intros Hempty. unfold addField. rewrite Hempty. simpl. split; reflexivity.
Qed.

Lemma addField_ids_witness :
  exists twice,
    currentStep (addField 1 Text (addField 0 Text (preview [page "Start" [] None] 0 [])))
    = Some twice
    /\ map FormField.id (Step.fields twice) = ["textInput"; "textInput"].
Proof.
  destruct (proj1 (addField_ids 0 1 Text (preview [page "Start" [] None] 0 []))
              (page "Start" [] None) eq_refl)
    as (once & twice & _ & _ & _ & Htwo & Hfields & _).
  exists twice. split; [exact Htwo |]. rewrite Hfields. vm_compute. reflexivity.
Defined.

(** ** Editing a field *)

Lemma findIndex_middle {A : Type} (p : A -> bool) (before after : list A) (x : A) :
  Forall (fun y => p y = false) before ->
  p x = true ->
  findIndex p (before ++ x :: after) = Some (length before).
Proof.
  intros Hbefore Hx. induction Hbefore as [| y before Hy _ IH]; simpl.
  - now rewrite Hx.
  - now rewrite Hy, IH.
Qed.

Lemma updateField_at (fieldId : string) (updates : Updates) (st : State) (step : Step)
    (before after : list FormField) (field : FormField) :
  currentStep st = Some step ->
  Step.fields step = (before ++ field :: after)%list ->
  Forall (fun g => FormField.id g <> fieldId) before ->
  FormField.id field = fieldId ->
  updateField fieldId updates st
  = setSteps
      (<[currentStepIndex st :=
           withFields (before ++ spread field (coerceDefault field (typeChange field updates))
                              :: after)%list step]> (parsedSteps st)) st
  /\ currentStep (updateField fieldId updates st)
     = Some (withFields (before ++ spread field
                                     (coerceDefault field (typeChange field updates))
                                :: after)%list step).
Proof.
  intros Hstep Hfields Hbefore Hid.
  assert (updateField fieldId updates st
          = setSteps
              (<[currentStepIndex st :=
                   withFields (before ++ spread field
                                           (coerceDefault field (typeChange field updates))
                                      :: after)%list step]> (parsedSteps st)) st) as Hupd.
  { unfold updateField. rewrite Hstep, Hfields.
    rewrite (findIndex_middle _ before after field).
    - rewrite list_lookup_middle by reflexivity.
      rewrite insert_app_r_alt by lia. now rewrite Nat.sub_diag.
    - eapply Forall_impl; [exact Hbefore |]. intros g Hg. now apply String.eqb_neq.
    - now apply String.eqb_eq. }
  split; [exact Hupd |]. rewrite Hupd. unfold currentStep.
  pose proof (lookup_lt_Some _ _ _ Hstep) as Hlt.
  rewrite parsedSteps_setSteps by now apply insert_nonempty.
  simpl. now apply list_lookup_insert_eq.
Qed.

Lemma retype_spread (type : FieldType) (field : FormField) :
  FormField.type field <> type ->
  spread field (coerceDefault field (typeChange field (retype type))) = retyped type field.
Proof.
  intros Hne. destruct field as [id type0 title required placeholder options
                                  defaultValue readOnly widget dependsOn showWhen
                                  acceptedFileTypes maxFileSize multiple captureMode].
  cbn in Hne.
  destruct type, type0; try contradiction; destruct multiple as [[|] |]; reflexivity.
Qed.

(** X21: changing a field's kind in the editor.  The first field of the page
    that carries the id becomes a field of the new kind and every other field
    stays as it is.  The new kind decides the rest: a title is not required;
    only text and long text keep the placeholder; a choice kind gets the three
    stock options and any other kind none, so the options typed before are
    lost even between two choice kinds; every kind but title gets the empty
    value of the kind as its default, which is then the default answer
    compiled for the field, unless its id is [__proto__], under which no
    answer is stored.  The title, the read-only flag, the widget, the
    dependency and the file settings are kept. *)
Theorem updateField_retype (type : FieldType) (st : State) (step : Step)
    (before after : list FormField) (field : FormField) :
  currentStep st = Some step ->
  Step.fields step = (before ++ field :: after)%list ->
  Forall (fun g => FormField.id g <> FormField.id field) before ->
  FormField.type field <> type ->
  let st' := updateField (FormField.id field) (retype type) st in
  currentStep st'
  = Some (withFields (before ++ retyped type field :: after)%list step)
  /\ (has_options type = true ->
      FormField.options (retyped type field) = Some ["Option 1"; "Option 2"; "Option 3"])
  /\ (type <> Title ->
      FormField.defaultValue (retyped type field) = Some (emptyValue (retyped type field))
      /\ (FormField.id field <> "__proto__" ->
          generateFormData [retyped type field]
          = {[FormField.id field := emptyValue (retyped type field)]})
      /\ (FormField.id field = "__proto__" ->
          generateFormData [retyped type field] = ∅))
  /\ currentStepIndex st' = currentStepIndex st
  /\ previewData st' = previewData st
  /\ (forall i, i <> currentStepIndex st -> parsedSteps st' !! i = parsedSteps st !! i).
Proof.
  intros Hstep Hfields Hbefore Hne st'.
  destruct (updateField_at (FormField.id field) (retype type) st step before after field
              Hstep Hfields Hbefore eq_refl) as [Hupd Hcur].
  fold st' in Hupd, Hcur. rewrite retype_spread in Hupd, Hcur by assumption.
  split; [exact Hcur |]. split; [| split; [| split; [| split]]].
  - intros Hopt. unfold retyped. destruct type; try discriminate; reflexivity.
  - intros Htitle.
    assert (FormField.defaultValue (retyped type field)
            = Some (emptyValue (retyped type field))) as Hdefault
        by (destruct type; try contradiction; reflexivity).
    assert (generateFormData [retyped type field]
            = FormData.own (assignAnswer (FormField.id field)
                              (emptyValue (retyped type field)) (FormData.mk ∅ true)))
      as ->.
    { unfold generateFormData. cbn [foldl]. unfold formDataStep.
      destruct type; try contradiction; cbn; unfold emptyValue; cbn;
        destruct (FormField.multiple field) as [[|] |]; reflexivity. }
    split; [exact Hdefault |]. split.
    + intros Hid. unfold assignAnswer. apply String.eqb_neq in Hid. now rewrite Hid.
    + intros ->. now apply assignAnswer_setter.
  - rewrite Hupd. reflexivity.
  - rewrite Hupd. reflexivity.
  - intros i Hi. rewrite Hupd.
    pose proof (lookup_lt_Some _ _ _ Hstep) as Hlt.
    rewrite parsedSteps_setSteps by now apply insert_nonempty.
    now apply list_lookup_insert_ne.
Qed.

Lemma updateField_retype_witness :
  currentStep (updateField "color" (retype Select) (scenarioB "Red"))
  = Some (withFields [retyped Select colorField]
                     (page "Start" [colorField] (Some colorRule))).
Proof.
  apply (updateField_retype Select (scenarioB "Red")
           (page "Start" [colorField] (Some colorRule)) [] [] colorField
           eq_refl eq_refl (Forall_nil_2 _)).
  discriminate.
Defined.

(** X22: inserting a template.  The status line reports the template as
    inserted for every field found on the page, but the field's default
    becomes the template only when its kind is neither checkbox nor file: a
    checkbox or file field gets the empty value of its kind instead.  In
    preview mode a field that did take the template, with no answer, shows
    what the template resolves to. *)
Theorem insertTemplate_stores (templateKey : string) (st : State) (step : Step)
    (before after : list FormField) (field : FormField) :
  currentStep st = Some step ->
  Step.fields step = (before ++ field :: after)%list ->
  Forall (fun g => FormField.id g <> FormField.id field) before ->
  let st' := insertTemplate (FormField.id field) templateKey st in
  let stored :=
    match FormField.type field with
    | Checkbox | File => emptyValue field
    | _ => VStr templateKey
    end in
  saveStatus st' = "📝 Template inserted: " ++ templateKey
  /\ currentStep st'
     = Some (withFields (before ++ withDefault stored field :: after)%list step)
  /\ (previewMode st = true ->
      FormField.type field <> Checkbox ->
      FormField.type field <> File ->
      renderFieldValue st' (withDefault stored field) VUndefined
      = processTemplateValue (VStr templateKey) buildTemplateContext).
Proof.
  intros Hstep Hfields Hbefore st' stored.
  assert (find_field (currentStep st) (FormField.id field) = Some field) as Hfind.
  { rewrite Hstep. simpl. rewrite Hfields.
    clear - Hbefore. induction Hbefore as [| g before Hg _ IH]; simpl.
    - now rewrite String.eqb_refl.
    - apply String.eqb_neq in Hg. now rewrite Hg. }
  destruct (updateField_at (FormField.id field)
              (Updates.set_defaultValue (VStr templateKey) Updates.none)
              st step before after field Hstep Hfields Hbefore eq_refl) as [Hupd Hcur].
  assert (spread field
            (coerceDefault field
               (typeChange field (Updates.set_defaultValue (VStr templateKey) Updates.none)))
          = withDefault stored field) as Hspread.
  { unfold stored. destruct field as [id type title required placeholder options
                                        defaultValue readOnly widget dependsOn showWhen
                                        acceptedFileTypes maxFileSize multiple captureMode].
    destruct type; try reflexivity; destruct multiple as [[|] |]; reflexivity. }
  rewrite Hspread in Hcur.
  assert (st' = setSaveStatus ("📝 Template inserted: " ++ templateKey)
                  (updateField (FormField.id field)
                     (Updates.set_defaultValue (VStr templateKey) Updates.none) st))
    as Hst' by (unfold st', insertTemplate; now rewrite Hfind).
  split; [now rewrite Hst' |]. split; [rewrite Hst'; exact Hcur |].
  intros Hpreview Hcheckbox Hfile.
  assert (previewMode st' = true) as Hmode
      by (rewrite Hst', Hupd; exact Hpreview).
  assert (stored = VStr templateKey) as ->
      by (unfold stored; destruct (FormField.type field); try reflexivity; contradiction).
  unfold renderFieldValue. rewrite Hmode.
  change (defaultValueOf (withDefault (VStr templateKey) field)) with (VStr templateKey).
  destruct templateKey as [| c key]; [reflexivity |].
  simpl. destruct (Ascii.eqb c "#"); reflexivity.
Qed.

Lemma insertTemplate_stores_witness :
  currentStep (insertTemplate "tags" "#client.name"
                 (preview [page "Sample" [tagsField] None] 0 []))
  = Some (page "Sample" [withDefault (VArr []) tagsField] None).
Proof.
  apply (insertTemplate_stores "#client.name" (preview [page "Sample" [tagsField] None] 0 [])
           (page "Sample" [tagsField] None) [] [] tagsField eq_refl eq_refl (Forall_nil_2 _)).
Defined.

(** ** Renaming a page *)

Lemma findIndex_first {A : Type} (p : A -> bool) (l : list A) (i : nat) :
  findIndex p l = Some i ->
  (exists x, l !! i = Some x /\ p x = true)
  /\ (forall j y, j < i -> l !! j = Some y -> p y = false).
Proof.
  revert i. induction l as [| a l IH]; intros i; simpl; [discriminate |].
  destruct (p a) eqn:Hp.
  - intros [= <-]. split; [exists a; auto | intros j y Hj; lia].
  - destruct (findIndex p l) as [k |]; simpl; [| discriminate].
    intros [= <-]. destruct (IH k eq_refl) as [Hx Hbefore]. split; [exact Hx |].
    intros [| j] y Hj Hy; simpl in Hy.
    + now injection Hy as <-.
    + apply (Hbefore j); [lia | exact Hy].
Qed.



(** ** The schema panel *)

Lemma filter_split_length {A : Type} (p : A -> bool) (l : list A) :
  length l = length (List.filter (fun x => negb (p x)) l) + length (List.filter p l).
Proof.
  induction l as [| x l IH]; [reflexivity |]. simpl.
  destruct (p x); simpl; lia.
Qed.

Lemma required_split (l : list FormField) :
  length (List.filter FormField.required l)
  = length (List.filter (fun f => negb (is_title f) && FormField.required f) l)
    + length (List.filter (fun f => is_title f && FormField.required f) l).
Proof.
  induction l as [| f l IH]; [reflexivity |]. cbn [List.filter].
  destruct (is_title f), (FormField.required f); cbn [negb andb length]; lia.
Qed.

(** X24: the counters of the schema panel count title fields, the schemas do
    not.  For a page that compiles, [totalFields] is the length of the order
    list plus the number of titles, and [requiredFields] is the length of the
    schema's required list plus the number of titles marked required. *)
Theorem generateSchemas_counts (st : State) (step : Step) (output : SchemasOutput.t)
    (jsonSchema : JsonSchema.t) (uiSchema : gmap string UiEntry)
    (formData : gmap string value) (actionSchema : ActionSchema.t) :
  currentStep st = Some step ->
  generateSchemas st = Some output ->
  SchemasOutput.schemas output = StepSchemas jsonSchema uiSchema formData actionSchema ->
  exists order,
    uiSchema !! "ui:order" = Some (UiOrder order)
    /\ SchemasOutput.totalFields output
       = length order + length (List.filter is_title (Step.fields step))
    /\ SchemasOutput.requiredFields output
       = length (JsonSchema.required jsonSchema)
         + length (List.filter (fun f => is_title f && FormField.required f)
                               (Step.fields step)).
Proof.
  intros Hstep Hout Hschemas. unfold generateSchemas in Hout.
  destruct (generateAllSchemas st) as [schemas |] eqn:Hgen; [| discriminate].
  injection Hout as <-. simpl in *. subst schemas. rewrite Hstep.
  unfold generateAllSchemas in Hgen. rewrite Hstep in Hgen.
  destruct (foldl schemaStep _ (Step.fields step)) as [[js ui] |] eqn:Hfold;
    [| discriminate].
  injection Hgen as <- <- <- <-.
  assert (initialUiSchema !! "ui:order" = Some (UiOrder [])) as Hinit by reflexivity.
  destruct (schemaStep_fold _ _ _ _ _ _ Hinit Hfold) as (_ & Hreq & _ & Hord & _).
  simpl in Hreq, Hord. exists (answerableIds (Step.fields step)).
  split; [exact Hord |]. split.
  - unfold answerableIds. rewrite length_map. apply filter_split_length.
  - rewrite Hreq. unfold requiredIds_of. rewrite length_map. apply required_split.
Qed.

Lemma generateSchemas_counts_witness :
  exists output (order : list string),
    generateSchemas (preview [page "Sample" sampleFields None] 0 []) = Some output
    /\ SchemasOutput.totalFields output = length order + 1.
Proof.
  destruct (generateSchemas (preview [page "Sample" sampleFields None] 0 []))
    as [[[| jsonSchema uiSchema formData actionSchema] total required] |] eqn:Hout;
    try (vm_compute in Hout; discriminate).
  destruct (generateSchemas_counts (preview [page "Sample" sampleFields None] 0 [])
              (page "Sample" sampleFields None) _ _ _ _ _ eq_refl Hout eq_refl)
    as (order & _ & Htotal & _).
  eexists. exists order. split; [reflexivity | exact Htotal].
Defined.

(** ** Options typed into the editor *)

(** *** White space *)

Lemma substring_drop (n m : nat) (s : string) :
  String.length s <= m -> String.substring n m s = string_drop n s.
Proof.
  revert m s. induction n as [| n IH]; intros m s Hlen.
  - simpl. revert m Hlen. induction s as [| c s IHs]; intros m Hlen.
    + now destruct m.
    + destruct m as [| m]; simpl in *; [lia |]. f_equal. apply IHs. lia.
  - destruct s as [| c s]; simpl; [reflexivity |]. apply IH. simpl in Hlen. lia.
Qed.

Lemma string_drop_length (n : nat) (s : string) :
  String.length (string_drop n s) <= String.length s.
Proof.
  revert s. induction n as [| n IH]; intros s; simpl; [lia |].
  destruct s as [| c s]; simpl; [lia |]. specialize (IH s). lia.
Qed.

Lemma blank_go_drop (k : nat) (s : string) :
  blank_go k s = blank_go 0 (string_drop k s).
Proof.
  revert s. induction k as [| k IH]; intros s; [reflexivity |].
  destruct s as [| c s]; [reflexivity |]. simpl string_drop. rewrite <- IH. reflexivity.
Qed.

Lemma is_blank_fuel_spec (fuel : nat) (s : string) :
  String.length s <= fuel -> is_blank_fuel fuel s = blank_go 0 s.
Proof.
  revert s. induction fuel as [| fuel IH]; intros s Hlen.
  - destruct s; [reflexivity | simpl in Hlen; lia].
  - destruct s as [| c r]; [reflexivity |].
    cbn [is_blank_fuel blank_go]. destruct (space_width (String c r)) as [| k]; [reflexivity |].
    rewrite substring_drop by lia. cbn [string_drop]. rewrite IH.
    + symmetry. apply blank_go_drop.
    + pose proof (string_drop_length k r). simpl in Hlen. lia.
Qed.

Lemma is_blank_spec (s : string) : is_blank s = blank_go 0 s.
Proof. apply is_blank_fuel_spec. lia. Qed.

Lemma space_width_unfold (a : ascii) (r : string) :
  space_width (String a r)
  = if space1 a then 1
    else match r with
         | EmptyString => 0
         | String b r2 =>
             if space2 a b then 2
             else match r2 with
                  | EmptyString => 0
                  | String d _ => if space3 a b d then 3 else 0
                  end
         end.
Proof. reflexivity. Qed.

Ltac bool_to_N H :=
  repeat (rewrite ?andb_true_iff, ?orb_true_iff, ?N.leb_le, ?N.eqb_eq in H).

Ltac N_to_bool :=
  repeat (rewrite ?andb_true_iff, ?orb_true_iff, ?N.leb_le, ?N.eqb_eq).

Lemma space2_cont (a b : ascii) : space2 a b = true -> is_cont b = true.
Proof.
  unfold space2, is_cont. intros H. bool_to_N H. N_to_bool. lia.
Qed.

Lemma space3_cont (a b d : ascii) :
  space3 a b d = true -> is_cont b = true /\ is_cont d = true.
Proof.
  unfold space3, is_cont. intros H. bool_to_N H. N_to_bool. lia.
Qed.

Lemma cont_space1 (a : ascii) : is_cont a = true -> space1 a = false.
Proof.
  unfold space1, is_cont. intros H. apply not_true_is_false. intros E.
  bool_to_N H. bool_to_N E. lia.
Qed.

Lemma cont_space2 (a b : ascii) : is_cont a = true -> space2 a b = false.
Proof.
  unfold space2, is_cont. intros H. apply not_true_is_false. intros E.
  bool_to_N H. bool_to_N E. lia.
Qed.

Lemma cont_space3 (a b d : ascii) : is_cont a = true -> space3 a b d = false.
Proof.
  unfold space3, is_cont. intros H. apply not_true_is_false. intros E.
  bool_to_N H. bool_to_N E. lia.
Qed.

(** A continuation byte never starts a white space character. *)
Lemma cont_space_width (a : ascii) (r : string) :
  is_cont a = true -> space_width (String a r) = 0.
Proof.
  intros H. rewrite space_width_unfold, (cont_space1 a H).
  destruct r as [| b r2]; [reflexivity |]. rewrite (cont_space2 a b H).
  destruct r2 as [| d r3]; [reflexivity |]. now rewrite (cont_space3 a b d H).
Qed.

(** The bytes after the first of a white space character are continuation
    bytes. *)
Lemma space_width_cont (a : ascii) (r : string) (k : nat) :
  space_width (String a r) = S k -> prefix_cont k r.
Proof.
  rewrite space_width_unfold. destruct (space1 a); [intros [= <-]; exact I |].
  destruct r as [| b r2]; [discriminate |].
  destruct (space2 a b) eqn:E2.
  { intros [= <-]. simpl. split; [now apply (space2_cont a) | exact I]. }
  destruct r2 as [| d r3]; [discriminate |].
  destruct (space3 a b d) eqn:E3; [| discriminate].
  intros [= <-]. simpl. destruct (space3_cont a b d E3) as [Hb Hd]. auto.
Qed.

Lemma cont_not_blank (a : ascii) (r : string) :
  is_cont a = true -> is_blank (String a r) = false.
Proof.
  intros H. rewrite is_blank_spec. cbn [blank_go]. now rewrite cont_space_width.
Qed.

Lemma blank_not_cont (a : ascii) (r : string) :
  is_blank (String a r) = true -> is_cont a = false.
Proof.
  intros H. destruct (is_cont a) eqn:E; [| reflexivity].
  rewrite cont_not_blank in H by assumption. discriminate.
Qed.

(** *** Cutting the end *)

Lemma trimEnd_cons (a : ascii) (r : string) :
  is_blank (String a r) = false -> trimEnd (String a r) = String a (trimEnd r).
Proof. intros H. cbn [trimEnd]. now rewrite H. Qed.

(** Cutting the end of the rest does not change how the string starts. *)
Lemma space_width_trimEnd (a : ascii) (r : string) :
  space_width (String a (trimEnd r)) = space_width (String a r).
Proof.
  rewrite !space_width_unfold. destruct (space1 a); [reflexivity |].
  destruct r as [| b r2]; [reflexivity |].
  destruct (is_blank (String b r2)) eqn:Hb.
  - cbn [trimEnd]. rewrite Hb. apply blank_not_cont in Hb.
    assert (space2 a b = false) as ->.
    { destruct (space2 a b) eqn:E; [| reflexivity].
      apply space2_cont in E. congruence. }
    destruct r2 as [| d r3]; [reflexivity |].
    destruct (space3 a b d) eqn:E; [| reflexivity].
    apply space3_cont in E. destruct E as [E _]. congruence.
  - rewrite trimEnd_cons by assumption. destruct (space2 a b); [reflexivity |].
    destruct r2 as [| d r3]; [reflexivity |].
    destruct (is_blank (String d r3)) eqn:Hd.
    + cbn [trimEnd]. rewrite Hd. apply blank_not_cont in Hd.
      destruct (space3 a b d) eqn:E; [| reflexivity].
      apply space3_cont in E. destruct E as [_ E]. congruence.
    + now rewrite trimEnd_cons by assumption.
Qed.

Lemma blank_go_trimEnd (s : string) (skip : nat) :
  prefix_cont skip s ->
  blank_go skip s = false ->
  blank_go skip (trimEnd s) = false.
Proof.
  revert skip. induction s as [| a r IH]; intros skip Hcont Hblank.
  - discriminate.
  - destruct skip as [| k].
    + assert (is_blank (String a r) = false) as Hs by now rewrite is_blank_spec.
      rewrite trimEnd_cons by assumption. cbn [blank_go] in *.
      rewrite space_width_trimEnd.
      destruct (space_width (String a r)) as [| k] eqn:Hw; [reflexivity |].
      apply IH; [now apply (space_width_cont a) | exact Hblank].
    + destruct Hcont as [Ha Hcont].
      rewrite trimEnd_cons by now apply cont_not_blank.
      cbn [blank_go] in *. now apply IH.
Qed.

Lemma trimEnd_idempotent (s : string) : trimEnd (trimEnd s) = trimEnd s.
Proof.
  induction s as [| a r IH]; [reflexivity |].
  destruct (is_blank (String a r)) eqn:Hb.
  - cbn [trimEnd]. now rewrite Hb.
  - rewrite trimEnd_cons by assumption.
    assert (is_blank (String a (trimEnd r)) = false) as Hb'.
    { rewrite is_blank_spec in *.
      rewrite <- (trimEnd_cons a r) by now rewrite is_blank_spec.
      apply blank_go_trimEnd; [exact I | exact Hb]. }
    rewrite trimEnd_cons by assumption. now rewrite IH.
Qed.

Lemma trimEnd_keeps_start (s : string) :
  space_width s = 0 -> space_width (trimEnd s) = 0.
Proof.
  destruct s as [| a r]; [reflexivity |]. intros H. cbn [trimEnd].
  destruct (is_blank (String a r)); [reflexivity |]. now rewrite space_width_trimEnd.
Qed.

(** *** Cutting the start *)

Lemma trimStart_go_start (s : string) (skip : nat) :
  space_width (trimStart_go skip s) = 0.
Proof.
  revert skip. induction s as [| a r IH]; intros skip; [reflexivity |].
  cbn [trimStart_go]. destruct skip as [| k]; [| apply IH].
  destruct (space_width (String a r)) as [| k] eqn:Hw; [exact Hw | apply IH].
Qed.

Lemma trimStart_fixed (s : string) : space_width s = 0 -> trimStart s = s.
Proof.
  intros H. destruct s as [| a r]; [reflexivity |].
  unfold trimStart. cbn [trimStart_go]. now rewrite H.
Qed.

Lemma trim_idempotent (s : string) : trim (trim s) = trim s.
Proof.
  unfold trim. rewrite (trimStart_fixed (trimEnd (trimStart s))).
  - apply trimEnd_idempotent.
  - apply trimEnd_keeps_start. apply trimStart_go_start.
Qed.

(** *** Lines *)

Lemma has_char_trimStart (c : ascii) (s : string) (skip : nat) :
  has_char c s = false -> has_char c (trimStart_go skip s) = false.
Proof.
  revert skip. induction s as [| a r IH]; intros skip H; [reflexivity |].
  pose proof H as Hs. simpl in H. apply orb_false_elim in H. destruct H as [_ Hr].
  cbn [trimStart_go]. destruct skip as [| k]; [| now apply IH].
  destruct (space_width (String a r)); [exact Hs | now apply IH].
Qed.

Lemma has_char_trimEnd (c : ascii) (s : string) :
  has_char c s = false -> has_char c (trimEnd s) = false.
Proof.
  induction s as [| a r IH]; intros H; [reflexivity |].
  simpl in H. apply orb_false_elim in H. destruct H as [Ha Hr].
  cbn [trimEnd]. destruct (is_blank (String a r)); [reflexivity |].
  simpl. rewrite Ha. now apply IH.
Qed.

Lemma split_on_no_sep (sep : ascii) (s : string) :
  Forall (fun word => has_char sep word = false) (split_on sep s).
Proof.
  induction s as [| a r IH]; simpl; [repeat constructor |].
  destruct (Ascii.eqb a sep) eqn:E; [constructor; [reflexivity | exact IH] |].
  destruct (split_on sep r) as [| word words]; [repeat constructor; simpl; now rewrite E |].
  inversion IH; subst. constructor; [simpl; now rewrite E | assumption].
Qed.

Lemma split_on_word (sep : ascii) (word : string) :
  has_char sep word = false -> split_on sep word = [word].
Proof.
  induction word as [| a r IH]; intros H; [reflexivity |].
  simpl in H. apply orb_false_elim in H. destruct H as [Ha Hr].
  simpl. rewrite Ha, (IH Hr). reflexivity.
Qed.

Lemma split_on_app (sep : ascii) (word rest : string) :
  has_char sep word = false ->
  split_on sep (word ++ String sep rest) = word :: split_on sep rest.
Proof.
  induction word as [| a r IH]; intros H.
  - rewrite append_nil_l. simpl. now rewrite Ascii.eqb_refl.
  - simpl in H. apply orb_false_elim in H. destruct H as [Ha Hr].
    rewrite append_cons. simpl. rewrite Ha, (IH Hr). reflexivity.
Qed.

Lemma split_on_concat (sep : ascii) (words : list string) :
  words <> [] ->
  Forall (fun word => has_char sep word = false) words ->
  split_on sep (String.concat (String sep "") words) = words.
Proof.
  intros Hne Hwords. induction Hwords as [| word words Hword Hwords IH]; [contradiction |].
  destruct words as [| next words].
  - simpl. now apply split_on_word.
  - change (String.concat (String sep "") (word :: next :: words))
      with (word ++ String sep "" ++ String.concat (String sep "") (next :: words)).
    rewrite append_cons, append_nil_l, split_on_app by assumption.
    f_equal. now apply IH.
Qed.

Lemma parseFieldOptions_tidy (text : string) : Forall tidy (parseFieldOptions text).
Proof.
  unfold parseFieldOptions.
  pose proof (split_on_no_sep newline text) as Hlines.
  induction Hlines as [| line lines Hline _ IH]; [constructor |].
  cbn [map List.filter]. destruct (0 <? String.length (trim line))%nat eqn:Hlen; [| exact IH].
  constructor; [| exact IH]. split; [| split].
  - intros E. rewrite E in Hlen. discriminate.
  - apply trim_idempotent.
  - apply has_char_trimEnd, has_char_trimStart, Hline.
Qed.

Lemma parseFieldOptions_optionsText (options : list string) :
  Forall tidy options -> parseFieldOptions (optionsText options) = options.
Proof.
  intros Htidy. unfold parseFieldOptions, optionsText.
  destruct options as [| option options]; [reflexivity |].
  rewrite split_on_concat.
  - induction Htidy as [| o os (Hne & Htrim & _) _ IH]; [reflexivity |].
    cbn [map List.filter]. rewrite Htrim.
    destruct o as [| a r]; [contradiction |]. simpl. now rewrite IH.
  - discriminate.
  - eapply Forall_impl; [exact Htidy |]. now intros o (_ & _ & H).
Qed.


(** ** Walking through a flow *)

Lemma validateCurrentStep_nothing_required (st : State) (step : Step) :
  previewMode st = true ->
  currentStep st = Some step ->
  Forall (fun f => FormField.required f = false) (Step.fields step) ->
  Validation.valid (validateCurrentStep st) = true.
Proof.
  intros Hmode Hstep Hnone. unfold validateCurrentStep. rewrite Hstep, Hmode.
  rewrite previewCheck_filter. cbn [Validation.valid app].
  assert (List.filter (missing_required st) (Step.fields step) = []) as ->; [| reflexivity].
  induction Hnone as [| f fields Hf _ IH]; [reflexivity |].
  cbn [List.filter]. unfold missing_required at 1. rewrite Hf. exact IH.
Qed.



(** ** Two fields with one id *)

Lemma schemaStep_untouched (fields : list FormField) (jsonSchema jsonSchema' : JsonSchema.t)
    (uiSchema uiSchema' : gmap string UiEntry) (key : string) :
  foldl schemaStep (Some (jsonSchema, uiSchema)) fields = Some (jsonSchema', uiSchema') ->
  key <> "ui:order" ->
  (forall g, In g fields -> is_title g = false -> FormField.id g <> key) ->
  JsonSchema.properties jsonSchema' !! key = JsonSchema.properties jsonSchema !! key
  /\ uiSchema' !! key = uiSchema !! key.
Proof.
  revert jsonSchema uiSchema.
  induction fields as [| f fields IH]; intros jsonSchema uiSchema Hfold Hkey Hother.
  - simpl in Hfold. injection Hfold as <- <-. auto.
  - change (foldl schemaStep (Some (jsonSchema, uiSchema)) (f :: fields))
      with (foldl schemaStep (schemaStep (Some (jsonSchema, uiSchema)) f) fields) in Hfold.
    assert (forall g, In g fields -> is_title g = false -> FormField.id g <> key) as Hrest
        by (intros g Hg; apply Hother; now right).
    destruct (is_title f) eqn:Ht.
    + rewrite schemaStep_title in Hfold by assumption. now apply IH.
    + assert (FormField.id f <> key) as Hf by (apply Hother; [now left | assumption]).
      destruct (schemaStep (Some (jsonSchema, uiSchema)) f) as [[js2 ui2] |] eqn:E;
        [| rewrite schemaStep_thrown in Hfold; discriminate].
      destruct (IH _ _ Hfold Hkey Hrest) as [-> ->].
      unfold is_title in Ht. unfold schemaStep, pushOrder in E.
      destruct (FormField.type f); try discriminate Ht;
        destruct (assign (FormField.id f) (UiField (buildUiConfig f)) uiSchema
                    !! "ui:order")
          as [[order | |] |]; try discriminate E;
        injection E as <- <-; simpl;
        (split; [now apply assign_lookup_ne |]);
        rewrite lookup_insert_ne by congruence; now apply assign_lookup_ne.
Qed.

Lemma schemaStep_last_wins (before after : list FormField) (f : FormField)
    (jsonSchema jsonSchema' : JsonSchema.t) (uiSchema uiSchema' : gmap string UiEntry)
    (order : list string) :
  uiSchema !! "ui:order" = Some (UiOrder order) ->
  foldl schemaStep (Some (jsonSchema, uiSchema)) (before ++ f :: after)
  = Some (jsonSchema', uiSchema') ->
  is_title f = false ->
  FormField.id f <> "__proto__" ->
  (forall g, In g after -> is_title g = false -> FormField.id g <> FormField.id f) ->
  JsonSchema.properties jsonSchema' !! FormField.id f = Some (buildProperty f)
  /\ uiSchema' !! FormField.id f = Some (UiField (buildUiConfig f)).
Proof.
  intros Horder Hfold Ht Hproto Hafter.
  destruct (schemaStep_fold _ _ _ _ _ _ Horder Hfold) as (Hids & _).
  assert (FormField.id f <> "ui:order") as Hf
      by (apply Hids; [apply in_or_app; right; now left | assumption]).
  rewrite foldl_app in Hfold.
  destruct (foldl schemaStep (Some (jsonSchema, uiSchema)) before) as [[js1 ui1] |] eqn:E1;
    [| cbn [foldl] in Hfold; rewrite schemaStep_thrown in Hfold; discriminate].
  destruct (schemaStep_fold _ _ _ _ _ _ Horder E1) as (_ & _ & _ & Horder1 & _).
  cbn [foldl] in Hfold. rewrite (schemaStep_field_json _ _ _ _ Ht Hf Horder1) in Hfold.
  destruct (schemaStep_untouched _ _ _ _ _ (FormField.id f) Hfold Hf Hafter) as [-> ->].
  simpl. split; [now apply assign_lookup_eq |].
  rewrite lookup_insert_ne by congruence. now apply assign_lookup_eq.
Qed.

Lemma answerableIds_app (l1 l2 : list FormField) :
  answerableIds (l1 ++ l2) = (answerableIds l1 ++ answerableIds l2)%list.
Proof. unfold answerableIds. now rewrite List.filter_app, map_app. Qed.

(** X27: two fields with one id.  When two answerable fields of the page
    carry the same id (as after adding two fields of one kind), the id is
    not [__proto__], and the page compiles, the order list names the id
    twice, once for each field, while the data schema, the presentation
    schema and the default answers hold a single entry under it, which
    describes the field that comes last; the earlier field is left out of
    all three. *)
Theorem generateAllSchemas_shadowing (st : State) (step : Step)
    (before middle after : list FormField) (first second : FormField)
    (jsonSchema : JsonSchema.t) (uiSchema : gmap string UiEntry)
    (formData : gmap string value) (actionSchema : ActionSchema.t) :
  currentStep st = Some step ->
  Step.fields step = (before ++ first :: middle ++ second :: after)%list ->
  FormField.id first = FormField.id second ->
  FormField.type first <> Title ->
  FormField.type second <> Title ->
  FormField.id second <> "__proto__" ->
  (forall g, In g after -> FormField.type g <> Title ->
             FormField.id g <> FormField.id second) ->
  generateAllSchemas st = Some (StepSchemas jsonSchema uiSchema formData actionSchema) ->
  uiSchema !! "ui:order"
  = Some (UiOrder (answerableIds before ++ FormField.id second
                     :: answerableIds middle ++ FormField.id second
                     :: answerableIds after))
  /\ JsonSchema.properties jsonSchema !! FormField.id second = Some (buildProperty second)
  /\ uiSchema !! FormField.id second = Some (UiField (buildUiConfig second))
  /\ formData !! FormField.id second = Some (synthesized second).
Proof.
  intros Hstep Hfields Hsame Hfirst Hsecond Hproto Hafter Hgen.
  assert (forall f, FormField.type f <> Title -> is_title f = false) as Hnot
      by (intros f H; unfold is_title; destruct (FormField.type f); try reflexivity;
          contradiction).
  assert (forall g, In g after -> is_title g = false ->
                    FormField.id g <> FormField.id second) as Hafter'.
  { intros g Hg Ht. apply Hafter; [assumption |]. intros E. unfold is_title in Ht.
    rewrite E in Ht. discriminate. }
  unfold generateAllSchemas in Hgen. rewrite Hstep in Hgen.
  destruct (foldl schemaStep _ (Step.fields step)) as [[js ui] |] eqn:Hfold;
    [| discriminate].
  injection Hgen as <- <- <- <-.
  assert (initialUiSchema !! "ui:order" = Some (UiOrder [])) as Hinit by reflexivity.
  destruct (schemaStep_fold _ _ _ _ _ _ Hinit Hfold) as (_ & _ & _ & Horder & _).
  split; [| split; [| split]].
  - rewrite Horder, Hfields. simpl. f_equal. f_equal.
    rewrite answerableIds_app, answerableIds_cons, (Hnot first Hfirst).
    rewrite answerableIds_app, answerableIds_cons, (Hnot second Hsecond).
    now rewrite Hsame.
  - rewrite Hfields, (app_cons_assoc before first), app_assoc in Hfold.
    apply (schemaStep_last_wins _ _ _ _ _ _ _ _ Hinit Hfold (Hnot second Hsecond)
             Hproto Hafter').
  - rewrite Hfields, (app_cons_assoc before first), app_assoc in Hfold.
    apply (schemaStep_last_wins _ _ _ _ _ _ _ _ Hinit Hfold (Hnot second Hsecond)
             Hproto Hafter').
  - unfold generateFormData.
    rewrite Hfields, (app_cons_assoc before first), app_assoc, foldl_app.
    cbn [foldl]. rewrite formData_untouched by assumption.
    rewrite formDataStep_synthesized, (Hnot second Hsecond).
    now apply assignAnswer_lookup_eq.
Qed.

Lemma generateAllSchemas_shadowing_witness :
  exists jsonSchema uiSchema formData actionSchema,
    generateAllSchemas
      (addField 1 Text (addField 0 Text (preview [page "Start" [] None] 0 [])))
    = Some (StepSchemas jsonSchema uiSchema formData actionSchema)
    /\ uiSchema !! "ui:order" = Some (UiOrder ["textInput"; "textInput"]).
Proof.
  destruct (generateAllSchemas
              (addField 1 Text (addField 0 Text (preview [page "Start" [] None] 0 []))))
    as [[| jsonSchema uiSchema formData actionSchema] |] eqn:Hgen;
    try (vm_compute in Hgen; discriminate).
  exists jsonSchema, uiSchema, formData, actionSchema. split; [reflexivity |].
  destruct (generateAllSchemas_shadowing
              (addField 1 Text (addField 0 Text (preview [page "Start" [] None] 0 [])))
              (withFields [newField 0 Text; newField 1 Text] (page "Start" [] None))
              [] [] [] (newField 0 Text) (newField 1 Text)
              jsonSchema uiSchema formData actionSchema
              eq_refl eq_refl) as (Horder & _); try discriminate; try assumption.
  - rewrite !newField_id. reflexivity.
  - intros g [].
Defined.
